(** * Gold elaborator: declarations, declarators, scopes and the staged pipeline

    A shallow embedding of [GoldElaborator.cpp] (the [Elaborator] that turns
    Gold syntax into declarations of the host compiler) and of the parts of
    [GoldDeclaration.cpp] it relies on.

    Objects that the C++ code reaches through pointers live in stores held
    by the [Sema] state and are named by their index: [Declaration]s,
    [Scope]s and the host's declaration objects.  A declarator chain is a
    singly linked, null-terminated list of fragments built once and read
    afterwards, so it is a Rocq list; the null pointer is the empty list.
    Failed assertions, failed [cast]s and null dereferences stop the
    program: they are the [Abort] outcome of the [M] monad. *)

From Stdlib Require Import String.
From stdpp Require Import base option list gmap strings.

Open Scope string_scope.
Open Scope list_scope.
Open Scope nat_scope.
Set Warnings "-register-all".

(** ** Syntax nodes *)

(** Modelled from the spec: the syntax classes ([GoldSyntax.h]) are not among
    the sources.  A node is a leaf (token and spelling), an invocation
    (callee and argument list), a sequence of siblings, a block form, or the
    file, the sequence of top-level nodes.  Nodes are compared by address in
    the C++ code, so every node carries its address [addr]; the same number
    stands for its source location. *)
Inductive Syntax : Type :=
| AtomSyntax (addr : nat) (Spelling : string)
| CallSyntax (addr : nat) (Callee : Syntax) (Arguments : Syntax)
| ListSyntax (addr : nat) (Children : list Syntax)
| MacroSyntax (addr : nat) (MacroCall : Syntax) (Block : Syntax)
| FileSyntax (addr : nat) (Children : list Syntax).

Definition getLoc (S : Syntax) : nat :=
  match S with
  | AtomSyntax a _ | CallSyntax a _ _ | ListSyntax a _
  | MacroSyntax a _ _ | FileSyntax a _ => a
  end.

Definition children (S : Syntax) : list Syntax :=
  match S with
  | ListSyntax _ cs | FileSyntax _ cs => cs
  | _ => []
  end.

Definition isCallSyntax (S : Syntax) : bool :=
  match S with CallSyntax _ _ _ => true | _ => false end.

(** ** Outcomes *)

Inductive Result (A : Type) : Type :=
| Ok (a : A)
| Abort (why : string).
Arguments Ok {A} a.
Arguments Abort {A} why.

Definition rbind {A B} (r : Result A) (k : A → Result B) : Result B :=
  match r with Ok a => k a | Abort w => Abort w end.

(** [Call->getArgument(N)]: the N-th child of the argument list. *)
Definition getArgument (S : Syntax) (N : nat) : Result Syntax :=
  match S with
  | CallSyntax _ _ (ListSyntax _ cs) =>
      match cs !! N with
      | Some a => Ok a
      | None => Abort "getArgument: no such argument"
      end
  | _ => Abort "getArgument: not an argument list"
  end.

(** ** Declarators *)

(** Objects in a store are named by their index. *)
Abbreviation ScopeRef := nat (only parsing).
Abbreviation DeclRef := nat (only parsing).
Abbreviation CxxRef := nat (only parsing).

(** One fragment of a declarator chain: [Kind] together with the members of
    [Call] and [Data] that the kind uses.  [ConstructedScope] is the
    parameter scope saved on a function fragment. *)
Inductive Fragment : Type :=
| DK_Identifier (Id : Syntax)
| DK_Type (Call : option Syntax) (Type_ : option Syntax)
| DK_Function (Call : Syntax) (Params : Syntax)
    (ConstructedScope : option ScopeRef)
| DK_Pointer (Call : Syntax).

(** The chain [D, D->Next, ...]; [[]] is [nullptr]. *)
Abbreviation Declarator := (list Fragment) (only parsing).

Definition isIdentifier (D : Declarator) : bool :=
  match D with DK_Identifier _ :: _ => true | _ => false end.

Definition isFunction (D : Declarator) : bool :=
  match D with DK_Function _ _ _ :: _ => true | _ => false end.

(** Modelled from the spec: [Declarator::getId] and [Declarator::getType]
    are declared in a header that is not among the sources; each fragment
    holds a fragment-specific payload, so the identifier is read from an
    identifier fragment and the type from a type fragment, and the result is
    null for any other fragment. *)
Definition getId (D : Declarator) : option Syntax :=
  match D with DK_Identifier s :: _ => Some s | _ => None end.

Definition getType (D : Declarator) : option Syntax :=
  match D with DK_Type _ t :: _ => t | _ => None end.

(** The four builders (GoldElaborator.cpp, lines 364-399). *)
Definition buildIdDeclarator (S : Syntax) (Next : Declarator) : Declarator :=
  DK_Identifier S :: Next.

Definition buildTypeDeclarator (S : Syntax) (Next : Declarator)
  : Result Declarator :=
  match S with
  | CallSyntax _ _ _ =>
      match Next with
      | _ :: _ => Ok (DK_Type (Some S) (getType Next) :: Next)
      | [] => rbind (getArgument S 1)
                (λ t, Ok (DK_Type (Some S) (Some t) :: Next))
      end
  | AtomSyntax _ _ => Ok (DK_Type None (Some S) :: Next)
  | _ => Abort "cannot build type-declarator out of given syntax"
  end.

Definition buildFunctionDeclarator (S : Syntax) (Next : Declarator)
  : Declarator :=
  match S with
  | CallSyntax _ _ Args => DK_Function S Args None :: Next
  | _ => DK_Function S S None :: Next
  end.

Definition buildPointerDeclarator (S : Syntax) (Next : Declarator)
  : Declarator :=
  DK_Pointer S :: Next.

(** [makeDeclarator(SemaRef, S, Next)] (GoldElaborator.cpp, lines 408-456).
    The tag-name lookup of the leaf case reads the semantic state only; it
    is the argument [isTag] here and is supplied by
    [Elaborator.makeDeclarator] below. *)
Fixpoint makeDeclaratorWith (isTag : string → bool) (S : Syntax)
    (Next : Declarator) {struct S} : Result Declarator :=
  match S with
  | AtomSyntax _ sp =>
      if isTag sp then buildTypeDeclarator S Next
      else Ok (buildIdDeclarator S Next)
  | CallSyntax _ Callee Args =>
      match Callee with
      | AtomSyntax _ op =>
          if String.eqb op "operator':'" then
            match Args with
            | ListSyntax _ (a0 :: a1 :: _) =>
                if isCallSyntax a1 then
                  rbind (makeDeclaratorWith isTag a1 Next)
                    (λ Next', makeDeclaratorWith isTag a0 Next')
                else
                  rbind (buildTypeDeclarator S Next)
                    (λ T, makeDeclaratorWith isTag a0 T)
            | ListSyntax _ _ => Abort "getArgument: no such argument"
            | _ => Abort "getArgument: not an argument list"
            end
          else if String.eqb op "operator'^'" then
            match Args with
            | ListSyntax _ (a0 :: _) =>
                rbind (makeDeclaratorWith isTag a0 Next)
                  (λ Next', Ok (buildPointerDeclarator S Next'))
            | ListSyntax _ _ => Abort "getArgument: no such argument"
            | _ => Abort "getArgument: not an argument list"
            end
          else
            makeDeclaratorWith isTag Callee (buildFunctionDeclarator S Next)
      | _ => Abort "cast<AtomSyntax>: the callee is not an atom"
      end
  | _ => Ok []
  end.

(** ** Declarations and scopes *)

(** Modelled from the spec: the [Declaration] struct is declared in a header
    that is not among the sources.  Its members are those the sources read
    and write: the owning declaration [Cxt], the syntax [Op], the declarator
    chain [Decl], the initializer [Init], a saved scope, the identifier [Id],
    the host object [Cxx] (absent until the declaration is elaborated) and
    the redeclaration links [First] and [Next] that
    [Declaration::setPreviousDecl] maintains.  A new Declaration is the only
    one of its chain: its links designate the Declaration itself, so that
    [First = Prev->First] in [setPreviousDecl] is the head of the chain. *)
Record Declaration : Type := mkDeclaration {
  Cxt : option DeclRef;
  Op : Syntax;
  Decl : Declarator;
  Init : option Syntax;
  SavedScope : option ScopeRef;
  Id : option string;
  Cxx : option CxxRef;
  First : DeclRef;
  Next : DeclRef
}.

(** Modelled from the spec: [Declaration::declaresFunction] returns the
    cached function fragment, which is filled in by code that is not among
    the sources; by its comment a declaration declares a function when its
    first non-identifier fragment declares parameters. *)
Definition declaresFunction (d : Declaration) : bool :=
  match Decl d with
  | DK_Identifier _ :: rest => isFunction rest
  | D => isFunction D
  end.

Inductive ScopeKind : Type :=
| SK_Namespace | SK_Parameter | SK_Function | SK_Block | SK_Class.

Definition ScopeKind_eqb (a b : ScopeKind) : bool :=
  match a, b with
  | SK_Namespace, SK_Namespace | SK_Parameter, SK_Parameter
  | SK_Function, SK_Function | SK_Block, SK_Block
  | SK_Class, SK_Class => true
  | _, _ => false
  end.

(** Modelled from the spec: the [Scope] class is declared in a header that
    is not among the sources.  A scope has a kind, a parent link, the syntax
    it is anchored to and its bindings.  The sources look a declaration up
    both by the syntax node that declares it and by its identifier, so the
    bindings are two maps. *)
Record Scope : Type := mkScope {
  Kind : ScopeKind;
  Parent : option ScopeRef;
  Term : Syntax;
  DeclMap : gmap nat DeclRef;
  IdMap : gmap string DeclRef
}.

Definition isNamespaceScope (s : Scope) : bool :=
  ScopeKind_eqb (Kind s) SK_Namespace.
Definition isParameterScope (s : Scope) : bool :=
  ScopeKind_eqb (Kind s) SK_Parameter.
Definition isBlockScope (s : Scope) : bool :=
  ScopeKind_eqb (Kind s) SK_Block.

(** ** Objects of the host compiler *)

(** Modelled from the spec: the types, expressions and declaration objects
    of the host compiler are external.  The model keeps of them what the
    elaborator passes to their constructors and sets afterwards. *)

Inductive QualType : Type :=
| BuiltinType (name : string)
| AutoType
| PointerType (pointee : QualType)
| FunctionProtoType (ret : QualType).

Fixpoint isUndeducedType (T : QualType) : bool :=
  match T with
  | BuiltinType _ => false
  | AutoType => true
  | PointerType p => isUndeducedType p
  | FunctionProtoType r => isUndeducedType r
  end.

Definition Expr := nat.
Definition Stmt := nat.

(** [ExprElaborator::Expression], a union of an expression and a type. *)
Inductive Expression : Type :=
| IsExpr (E : option Expr)
| IsType (TInfo : QualType).

Definition isNull (E : Expression) : bool :=
  match E with IsExpr None => true | _ => false end.

Inductive StorageClass : Type := SC_None | SC_Extern | SC_Static | SC_Auto.

Inductive CxxKind : Type :=
| TranslationUnitDecl | FunctionDecl | VarDecl | ParmVarDecl.

(** A declaration object of the host: what [Create] is given, and what the
    elaborator sets afterwards.  [Members] are the declarations added to it
    as a declaration context, in the order of the [addDecl] calls. *)
Record CxxDecl : Type := mkCxxDecl {
  CKind : CxxKind;
  Owner : option CxxRef;
  CLoc : nat;
  CName : option string;
  CType : option QualType;
  CStorage : StorageClass;
  CParams : list CxxRef;
  CBody : option (option Stmt);
  CInit : option (option Expr);
  Members : list CxxRef
}.

Inductive DiagID : Type := err_failed_to_translate_type.

Record Diagnostic : Type := mkDiagnostic { DLoc : nat; DID : DiagID }.

Inductive DeduceAutoResult : Type :=
| DAR_Succeeded | DAR_Failed | DAR_FailedAlreadyDiagnosed.

(** ** The semantic state *)

(** Modelled from the spec: the [Sema] class is declared in a header that is
    not among the sources.  The state holds the stores of the objects the
    elaborator allocates, the current scope, the stack of declarations being
    elaborated, the host's declaration objects (object 0 is the translation
    unit), the diagnostics reported through [Diags], the lines written to
    [llvm::errs()] and the depth of the host's function-scope stack. *)
Record Sema : Type := mkSema {
  Decls : list Declaration;
  Scopes : list Scope;
  CurrentScope : option ScopeRef;
  DeclStack : list DeclRef;
  CxxAST : list CxxDecl;
  Diags : list Diagnostic;
  Errs : list string;
  FunctionScopes : nat
}.

Definition initialSema : Sema :=
  {| Decls := []; Scopes := []; CurrentScope := None; DeclStack := [];
     CxxAST := [mkCxxDecl TranslationUnitDecl None 0 None None SC_None []
                  None None []];
     Diags := []; Errs := []; FunctionScopes := 0 |}.

Definition setDecls (ds : list Declaration) (st : Sema) : Sema :=
  mkSema ds (Scopes st) (CurrentScope st) (DeclStack st) (CxxAST st)
    (Diags st) (Errs st) (FunctionScopes st).
Definition setScopes (ss : list Scope) (st : Sema) : Sema :=
  mkSema (Decls st) ss (CurrentScope st) (DeclStack st) (CxxAST st)
    (Diags st) (Errs st) (FunctionScopes st).
Definition setCurrentScope (c : option ScopeRef) (st : Sema) : Sema :=
  mkSema (Decls st) (Scopes st) c (DeclStack st) (CxxAST st)
    (Diags st) (Errs st) (FunctionScopes st).
Definition setDeclStack (k : list DeclRef) (st : Sema) : Sema :=
  mkSema (Decls st) (Scopes st) (CurrentScope st) k (CxxAST st)
    (Diags st) (Errs st) (FunctionScopes st).
Definition setCxxAST (a : list CxxDecl) (st : Sema) : Sema :=
  mkSema (Decls st) (Scopes st) (CurrentScope st) (DeclStack st) a
    (Diags st) (Errs st) (FunctionScopes st).
Definition setDiags (d : list Diagnostic) (st : Sema) : Sema :=
  mkSema (Decls st) (Scopes st) (CurrentScope st) (DeclStack st) (CxxAST st)
    d (Errs st) (FunctionScopes st).
Definition setErrs (e : list string) (st : Sema) : Sema :=
  mkSema (Decls st) (Scopes st) (CurrentScope st) (DeclStack st) (CxxAST st)
    (Diags st) e (FunctionScopes st).
Definition setFunctionScopes (n : nat) (st : Sema) : Sema :=
  mkSema (Decls st) (Scopes st) (CurrentScope st) (DeclStack st) (CxxAST st)
    (Diags st) (Errs st) n.

(** ** The elaboration monad: state passing with fatal errors *)

Definition M (A : Type) : Type := Sema → Result (A * Sema).

Definition ret {A} (a : A) : M A := λ st, Ok (a, st).
Definition abort {A} (why : string) : M A := λ _, Abort why.
Definition bind {A B} (m : M A) (k : A → M B) : M B :=
  λ st, match m st with
        | Ok (a, st') => k a st'
        | Abort w => Abort w
        end.
Definition get : M Sema := λ st, Ok (st, st).
Definition modify (f : Sema → Sema) : M unit := λ st, Ok (tt, f st).

Declare Scope elab_scope.
Delimit Scope elab_scope with elab.
Notation "x <- m ;; k" := (bind m (λ x, k))
  (at level 100, m at next level, right associativity) : elab_scope.
Notation "m ;; k" := (bind m (λ _, k))
  (at level 100, right associativity) : elab_scope.
Open Scope elab_scope.

(** [for (const Syntax *SS : children) f(SS);] *)
Fixpoint forEach {A} (l : list A) (f : A → M unit) : M unit :=
  match l with
  | [] => ret tt
  | x :: l' => f x ;; forEach l' f
  end.

(** The same loop collecting the values pushed onto a vector. *)
Fixpoint collect {A B} (l : list A) (f : A → M B) : M (list B) :=
  match l with
  | [] => ret []
  | x :: l' => b <- f x ;; bs <- collect l' f ;; ret (b :: bs)
  end.

(** ** Stores *)

Definition getDecl (D : DeclRef) : M Declaration :=
  λ st, match Decls st !! D with
        | Some d => Ok (d, st)
        | None => Abort "no such Declaration"
        end.

Definition putDecl (D : DeclRef) (d : Declaration) : M unit :=
  modify (λ st, setDecls (<[D := d]> (Decls st)) st).

(** [new Declaration(...)]: the object is placed after the existing ones. *)
Definition newDecl (mk : DeclRef → Declaration) : M DeclRef :=
  λ st, let r := length (Decls st) in
        Ok (r, setDecls (Decls st ++ [mk r]) st).

Definition getCxx (C : CxxRef) : M CxxDecl :=
  λ st, match CxxAST st !! C with
        | Some c => Ok (c, st)
        | None => Abort "no such host declaration"
        end.

Definition putCxx (C : CxxRef) (c : CxxDecl) : M unit :=
  modify (λ st, setCxxAST (<[C := c]> (CxxAST st)) st).

(** [T::Create(Context.CxxAST, ...)]. *)
Definition newCxx (c : CxxDecl) : M CxxRef :=
  λ st, let r := length (CxxAST st) in
        Ok (r, setCxxAST (CxxAST st ++ [c]) st).

(** Dereferencing a scope pointer. *)
Definition derefScope (r : option ScopeRef) : M Scope :=
  λ st, match r with
        | None => Abort "null Scope"
        | Some i => match Scopes st !! i with
                    | Some s => Ok (s, st)
                    | None => Abort "no such Scope"
                    end
        end.

Definition putScope (r : ScopeRef) (s : Scope) : M unit :=
  modify (λ st, setScopes (<[r := s]> (Scopes st)) st).

(** [SemaRef.Diags.Report(Loc, ID)] and [llvm::errs() << Line]. *)
Definition Report (Loc : nat) (ID : DiagID) : M unit :=
  modify (λ st, setDiags (Diags st ++ [mkDiagnostic Loc ID]) st).

Definition errs (Line : string) : M unit :=
  modify (λ st, setErrs (Errs st ++ [Line]) st).

(** ** The scope stack *)

(** Modelled from the spec: the operations of [Scope] and of the scope stack
    of [Sema] are not among the sources.  [findDecl] walks the parent links
    to the nearest binding or finds nothing; [addDecl] binds the declaration
    in the scope; [enterScope] opens a scope whose parent is the current one;
    [leaveScope] and [popScope] close the current scope, and leaving a scope
    other than the one entered is a fatal error. *)
Fixpoint lookupFrom (fuel : nat) (ss : list Scope) (r : ScopeRef)
    (look : Scope → option DeclRef) : option DeclRef :=
  match fuel with
  | 0 => None
  | S n =>
      match ss !! r with
      | Some s =>
          match look s with
          | Some d => Some d
          | None =>
              match Parent s with
              | Some p => if Nat.ltb p r then lookupFrom n ss p look else None
              | None => None
              end
          end
      | None => None
      end
  end.

(** A scope is allocated after its parent: the walk follows a parent link
    only to an older scope, and from scope [r] it visits at most [r + 1]
    scopes. *)
Definition findDeclIn (st : Sema) (r : option ScopeRef) (S : Syntax)
  : option DeclRef :=
  match r with
  | Some r => lookupFrom (r + 1) (Scopes st) r (λ s, DeclMap s !! getLoc S)
  | None => None
  end.

Definition findIdIn (st : Sema) (r : option ScopeRef) (I : option string)
  : option DeclRef :=
  match r, I with
  | Some r, Some x => lookupFrom (r + 1) (Scopes st) r (λ s, IdMap s !! x)
  | _, _ => None
  end.

(** [Sc->findDecl(S)] for a syntax node, [Sc->findDecl(Id)] for a name. *)
Definition findDecl (Sc : option ScopeRef) (S : Syntax)
  : M (option DeclRef) :=
  derefScope Sc ;; st <- get ;; ret (findDeclIn st Sc S).

Definition findDeclId (Sc : option ScopeRef) (I : option string)
  : M (option DeclRef) :=
  derefScope Sc ;; st <- get ;; ret (findIdIn st Sc I).

Definition bindDecl (s : Scope) (D : DeclRef) (d : Declaration) : Scope :=
  mkScope (Kind s) (Parent s) (Term s) (<[getLoc (Op d) := D]> (DeclMap s))
    (match Id d with Some x => <[x := D]> (IdMap s) | None => IdMap s end).

Definition addDecl (Sc : option ScopeRef) (D : DeclRef) : M unit :=
  s <- derefScope Sc ;;
  d <- getDecl D ;;
  match Sc with
  | Some r => putScope r (bindDecl s D d)
  | None => abort "null Scope"
  end.

Definition getCurrentScope : M (option ScopeRef) :=
  λ st, Ok (CurrentScope st, st).

Definition enterScope (K : ScopeKind) (S : Syntax) : M unit :=
  λ st, Ok (tt, setCurrentScope (Some (length (Scopes st)))
                  (setScopes
                     (Scopes st ++ [mkScope K (CurrentScope st) S ∅ ∅]) st)).

Definition popScope : M unit :=
  Cur <- getCurrentScope ;;
  s <- derefScope Cur ;;
  modify (setCurrentScope (Parent s)).

Definition leaveScope (S : Syntax) : M unit :=
  Cur <- getCurrentScope ;;
  s <- derefScope Cur ;;
  if Nat.eqb (getLoc (Term s)) (getLoc S) then popScope
  else abort "scope imbalance".

(** Modelled from the spec: [pushScope] puts a saved scope on the scope
    stack.  The stack is kept as the current scope with the parent links
    under it: this is the stack of the spec when the scope pushed was
    entered from the scope that is current, and only then does closing it
    lead back to that scope. *)
Definition pushScope (Sc : option ScopeRef) : M unit :=
  match Sc with
  | Some _ => modify (setCurrentScope Sc)
  | None => abort "Invalid scope"
  end.

(** Modelled from the spec: the stack of declarations being elaborated
    ([pushDecl], [popDecl], [getCurrentDecl]) and the declaration context of
    the current declaration are kept by [Sema]. *)
Definition pushDecl (D : DeclRef) : M unit :=
  modify (λ st, setDeclStack (D :: DeclStack st) st).

Definition popDecl : M unit :=
  λ st, match DeclStack st with
        | _ :: k => Ok (tt, setDeclStack k st)
        | [] => Abort "no current declaration"
        end.

Definition getCurrentDecl : M (option DeclRef) :=
  λ st, Ok (head (DeclStack st), st).

Definition getCurrentCxxDeclContext : M CxxRef :=
  Cur <- getCurrentDecl ;;
  match Cur with
  | None => abort "no current declaration"
  | Some D =>
      d <- getDecl D ;;
      match Cxx d with
      | Some C => ret C
      | None => abort "the current declaration has no host object"
      end
  end.

Definition getTranslationUnitDecl : CxxRef := 0.

(** [Owner->addDecl(C)]. *)
Definition addToContext (Owner_ : CxxRef) (C : CxxRef) : M unit :=
  o <- getCxx Owner_ ;;
  putCxx Owner_
    (mkCxxDecl (CKind o) (Owner o) (CLoc o) (CName o) (CType o) (CStorage o)
       (CParams o) (CBody o) (CInit o) (Members o ++ [C])).

Definition PushFunctionScope : M unit :=
  modify (λ st, setFunctionScopes (S (FunctionScopes st)) st).

Definition PopFunctionScopeInfo : M unit :=
  λ st, match FunctionScopes st with
        | S n => Ok (tt, setFunctionScopes n st)
        | 0 => Abort "mismatched push/pop"
        end.

(** ** Redeclaration chains *)

Definition setNext (d : Declaration) (n : DeclRef) : Declaration :=
  mkDeclaration (Cxt d) (Op d) (Decl d) (Init d) (SavedScope d) (Id d)
    (Cxx d) (First d) n.
Definition setFirst (d : Declaration) (f : DeclRef) : Declaration :=
  mkDeclaration (Cxt d) (Op d) (Decl d) (Init d) (SavedScope d) (Id d)
    (Cxx d) f (Next d).
Definition setCxx (d : Declaration) (c : option CxxRef) : Declaration :=
  mkDeclaration (Cxt d) (Op d) (Decl d) (Init d) (SavedScope d) (Id d)
    c (First d) (Next d).
Definition setId (d : Declaration) (i : option string) : Declaration :=
  mkDeclaration (Cxt d) (Op d) (Decl d) (Init d) (SavedScope d) i
    (Cxx d) (First d) (Next d).
Definition setSavedScope (d : Declaration) (s : option ScopeRef)
  : Declaration :=
  mkDeclaration (Cxt d) (Op d) (Decl d) (Init d) s (Id d)
    (Cxx d) (First d) (Next d).

(** [D->Id = I], [D->SavedScope = Sc] and [D->Cxx = C] on the declaration
    [D] of the store. *)
Definition setDeclId (D : DeclRef) (I : option string) : M unit :=
  d <- getDecl D ;; putDecl D (setId d I).

Definition setDeclSavedScope (D : DeclRef) (Sc : option ScopeRef) : M unit :=
  d <- getDecl D ;; putDecl D (setSavedScope d Sc).

Definition setDeclCxx (D : DeclRef) (C : CxxRef) : M unit :=
  d <- getDecl D ;; putDecl D (setCxx d (Some C)).

(** [This->setPreviousDecl(Prev)]:
    [Prev->Next = this; First = Prev->First; Next = First;] *)
Definition setPreviousDecl (This Prev : DeclRef) : M unit :=
  p <- getDecl Prev ;;
  putDecl Prev (setNext p This) ;;
  p' <- getDecl Prev ;;
  t <- getDecl This ;;
  putDecl This (setFirst t (First p')) ;;
  t' <- getDecl This ;;
  putDecl This (setNext t' (First t')).

(** ** The host compiler and the type and expression bridge *)

(** The collaborators whose code is outside the elaborator: the host's name
    lookup and checks and the expression, type and statement elaborators.
    The bridge works on the declarator chain of a declaration in place, so
    it is given the declaration that owns the chain. *)
Record Host : Type := mkHost {
  lookupUnqualifiedName : string → option ScopeRef → Sema → bool;
  elaborateTypeExpr : DeclRef → M Expression;
  elaborateExpr : Syntax → M Expression;
  elaborateBlock : Syntax → M (option Stmt);
  checkForRedefinition : DeclRef → M bool;
  CheckMain : CxxRef → M unit;
  DeduceAutoType :
    QualType → option Expr → DeduceAutoResult * option QualType;
  AddInitializerToDecl : CxxRef → option Expr → M unit
}.

Module Elaborator.
Section WithHost.

Context (H : Host).

(** The lookup of the leaf case of [makeDeclarator]: a tag-name lookup of
    the spelling, starting from the current scope. *)
Definition lookupTagName (st : Sema) (sp : string) : bool :=
  lookupUnqualifiedName H sp (CurrentScope st) st.

(** [makeDeclarator(SemaRef, S)], starting from the null declarator. *)
Definition makeDeclarator (S : Syntax) : M Declarator :=
  λ st,
    match makeDeclaratorWith (lookupTagName st) S [] with
    | Ok D => Ok (D, st)
    | Abort w => Abort w
    end.

(** [getIdentifier(Elab, D)]: the interned spelling of the identifier. *)
Definition getIdentifier (D : Declarator) : option string :=
  match getId D with
  | Some (AtomSyntax _ sp) => Some sp
  | _ => None
  end.

(** The block "Unpack the declarator" of [identifyDecl]: the declarator,
    the initializer and whether the node is an [operator'='] call; [None]
    when the node is syntactically not a declaration. *)
Definition unpackDeclarator (S : Syntax) (Op_ : string) (Args : Syntax)
  : M (option (Syntax * option Syntax * bool)) :=
  if String.eqb Op_ "operator'='" then
    match Args with
    | ListSyntax _ (Decl_ :: Init_ :: _) => ret (Some (Decl_, Some Init_, true))
    | ListSyntax _ _ => abort "getChild: no such child"
    | _ => abort "cast<ListSyntax>: the arguments are not a list"
    end
  else if String.eqb Op_ "operator'!'" then
    match Args with
    | ListSyntax _ cs =>
        Cur <- getCurrentScope ;;
        s <- derefScope Cur ;;
        if isParameterScope s then abort "Function definition"
        else
          match cs with
          | Decl_ :: Init_ :: _ => ret (Some (Decl_, Some Init_, false))
          | _ => abort "getChild: no such child"
          end
    | _ => abort "cast<ListSyntax>: the arguments are not a list"
    end
  else if String.eqb Op_ "operator':'" then
    ret (Some (S, None, false))
  else
    ret None.

(** [Elaborator::identifyDecl] (GoldElaborator.cpp, lines 511-621). *)
Definition identifyDecl (S : Syntax) : M unit :=
  match S with
  | CallSyntax _ (AtomSyntax _ Op_) Args =>
      unpacked <- unpackDeclarator S Op_ Args ;;
      match unpacked with
      | None => ret tt
      | Some (Decl_, Init_, OperatorEquals) =>
          Dcl <- makeDeclarator Decl_ ;;
          match Dcl with
          | [] => ret tt
          | _ :: _ =>
              Cur <- getCurrentScope ;;
              s <- derefScope Cur ;;
              if isParameterScope s && negb (isIdentifier Dcl)
              then abort "Invalid parameter declaration"
              else
                let Id_ := getIdentifier Dcl in
                CurScope <- getCurrentScope ;;
                cs <- derefScope CurScope ;;
                Bound <- findDeclId CurScope Id_ ;;
                if isBlockScope cs && (bool_decide (is_Some Bound)
                                       && OperatorEquals)
                then ret tt
                else
                  ParentDecl <- getCurrentDecl ;;
                  TheDecl <- newDecl (λ this,
                    mkDeclaration ParentDecl S Dcl Init_ None None None
                      this this) ;;
                  setDeclId TheDecl Id_ ;;
                  (if isNamespaceScope cs || isParameterScope cs then
                     OldDecl <- findDeclId CurScope Id_ ;;
                     match OldDecl with
                     | Some Old => setPreviousDecl TheDecl Old
                     | None => ret tt
                     end
                   else ret tt) ;;
                  Cur' <- getCurrentScope ;;
                  addDecl Cur' TheDecl
          end
      end
  | _ => ret tt
  end.

(** *** Pass 2: the types *)

(** [getFunctionDeclarator], on a declarator and on a declaration: the
    function fragment is the second one, after the identifier. *)
Definition getFunctionDeclarator (D : Declarator) : M Fragment :=
  match D with
  | DK_Identifier _ :: (DK_Function _ _ _ as F) :: _ => ret F
  | DK_Identifier _ :: _ => abort "assert(D->Next->isFunction())"
  | _ => abort "assert(D->isIdentifier())"
  end.

Definition getFunctionDeclaratorOf (D : DeclRef) : M Fragment :=
  d <- getDecl D ;;
  match Decl d with
  | [] => abort "assert(D->Decl)"
  | Dcl => getFunctionDeclarator Dcl
  end.

(** [cast<Ty>(C)]: the pointer must not be null and the object must be of
    class [Ty]; a [ParmVarDecl] is a [VarDecl]. *)
Definition castTo (ok : CxxKind → bool) (C : option CxxRef) : M CxxRef :=
  match C with
  | None => abort "isa<> used on a null pointer"
  | Some r =>
      c <- getCxx r ;;
      if ok (CKind c) then ret r
      else abort "cast<Ty>() argument of incompatible type"
  end.

Definition isaFunctionDecl (k : CxxKind) : bool :=
  match k with FunctionDecl => true | _ => false end.
Definition isaVarDecl (k : CxxKind) : bool :=
  match k with VarDecl | ParmVarDecl => true | _ => false end.
Definition isaParmVarDecl (k : CxxKind) : bool :=
  match k with ParmVarDecl => true | _ => false end.

(** [getFunctionParameters] (lines 118-128): the host parameters of the
    declarations that the saved parameter scope binds to the nodes of the
    parameter list. *)
Definition getFunctionParameters (D : DeclRef) : M (list CxxRef) :=
  FnDecl <- getFunctionDeclaratorOf D ;;
  match FnDecl with
  | DK_Function _ ParamList ParamScope =>
      collect (children ParamList) (λ P,
        PD <- findDecl ParamScope P ;;
        match PD with
        | None => abort "null Declaration"
        | Some pd =>
            p <- getDecl pd ;;
            match Cxx p with
            | None => abort "No corresponding declaration"
            | Some _ => castTo isaParmVarDecl (Cxx p)
            end
        end)
  | _ => abort "not a function declarator"
  end.

(** [TypeExpr.get<clang::TypeSourceInfo *>()]. *)
Definition getTypeSourceInfo (E : Expression) : M QualType :=
  match E with
  | IsType T => ret T
  | IsExpr _ => abort "get<TypeSourceInfo *>: the union holds an expression"
  end.

(** [FD->isMain()]: a function named [main] of the translation unit. *)
Definition isMain (c : CxxDecl) (AST : list CxxDecl) : bool :=
  match CName c, Owner c with
  | Some n, Some o =>
      String.eqb n "main" &&
      match AST !! o with
      | Some oc =>
          match CKind oc with TranslationUnitDecl => true | _ => false end
      | None => false
      end
  | _, _ => false
  end.

Definition setParams (FD : CxxRef) (Params : list CxxRef) : M unit :=
  c <- getCxx FD ;;
  putCxx FD (mkCxxDecl (CKind c) (Owner c) (CLoc c) (CName c) (CType c)
               (CStorage c) Params (CBody c) (CInit c) (Members c)).

(** [Elaborator::elaborateFunctionDecl] (lines 130-171). *)
Definition elaborateFunctionDecl (D : DeclRef) : M (option CxxRef) :=
  Owner_ <- getCurrentCxxDeclContext ;;
  TypeExpr <- elaborateTypeExpr H D ;;
  d <- getDecl D ;;
  if isNull TypeExpr then
    Report (getLoc (Op d)) err_failed_to_translate_type ;; ret None
  else
    TInfo <- getTypeSourceInfo TypeExpr ;;
    let Name := Id d in
    let Loc := getLoc (Op d) in
    FD <- newCxx (mkCxxDecl FunctionDecl (Some Owner_) Loc Name (Some TInfo)
                    SC_Extern [] None None []) ;;
    fd <- getCxx FD ;;
    st <- get ;;
    (if isMain fd (CxxAST st) then CheckMain H FD else ret tt) ;;
    Params <- getFunctionParameters D ;;
    setParams FD Params ;;
    addToContext Owner_ FD ;;
    setDeclCxx D FD ;;
    PushFunctionScope ;;
    ret (Some FD).

(** [getStorageClass] (lines 173-179). *)
Definition getStorageClass : M StorageClass :=
  Cur <- getCurrentScope ;;
  s <- derefScope Cur ;;
  ret (if isBlockScope s then SC_Auto else SC_Static).

(** [Elaborator::elaborateParameterDecl] (lines 210-233): the parameter is
    created but not added to its owner. *)
Definition elaborateParameterDecl (D : DeclRef) : M (option CxxRef) :=
  Owner_ <- getCurrentCxxDeclContext ;;
  TypeExpr <- elaborateTypeExpr H D ;;
  d <- getDecl D ;;
  if isNull TypeExpr then
    Report (getLoc (Op d)) err_failed_to_translate_type ;; ret None
  else
    TInfo <- getTypeSourceInfo TypeExpr ;;
    P <- newCxx (mkCxxDecl ParmVarDecl (Some Owner_) (getLoc (Op d)) (Id d)
                   (Some TInfo) SC_None [] None None []) ;;
    setDeclCxx D P ;;
    ret (Some P).

(** [Elaborator::elaborateVariableDecl] (lines 181-208). *)
Definition elaborateVariableDecl (D : DeclRef) : M (option CxxRef) :=
  Cur <- getCurrentScope ;;
  s <- derefScope Cur ;;
  if isParameterScope s then elaborateParameterDecl D
  else
    Owner_ <- getCurrentCxxDeclContext ;;
    TypeExpr <- elaborateTypeExpr H D ;;
    d <- getDecl D ;;
    if isNull TypeExpr then
      Report (getLoc (Op d)) err_failed_to_translate_type ;; ret None
    else
      TInfo <- getTypeSourceInfo TypeExpr ;;
      SC <- getStorageClass ;;
      VD <- newCxx (mkCxxDecl VarDecl (Some Owner_) (getLoc (Op d)) (Id d)
                      (Some TInfo) SC [] None None []) ;;
      addToContext Owner_ VD ;;
      setDeclCxx D VD ;;
      ret (Some VD).

(** [Elaborator::elaborateDecl] and [Elaborator::elaborateDeclType]
    (lines 75-101). *)
Definition elaborateDecl (D : DeclRef) : M (option CxxRef) :=
  d <- getDecl D ;;
  if declaresFunction d then elaborateFunctionDecl D
  else elaborateVariableDecl D.

Definition elaborateDeclType (S : Syntax) : M (option CxxRef) :=
  Cur <- getCurrentScope ;;
  D <- findDecl Cur S ;;
  match D with
  | None => ret None
  | Some D => elaborateDecl D
  end.

(** *** Pass 3: the definitions *)

Definition setBody (FD : CxxRef) (Body : option Stmt) : M unit :=
  c <- getCxx FD ;;
  putCxx FD (mkCxxDecl (CKind c) (Owner c) (CLoc c) (CName c) (CType c)
               (CStorage c) (CParams c) (Some Body) (CInit c) (Members c)).

Definition setType (VD : CxxRef) (Ty : option QualType) : M unit :=
  c <- getCxx VD ;;
  putCxx VD (mkCxxDecl (CKind c) (Owner c) (CLoc c) (CName c) Ty
               (CStorage c) (CParams c) (CBody c) (CInit c) (Members c)).

(** [Elaborator::elaborateFunctionDef] (lines 265-294). *)
Definition elaborateFunctionDef (D : DeclRef) : M unit :=
  d <- getDecl D ;;
  FD <- castTo isaFunctionDecl (Cxx d) ;;
  match Init d with
  | None => ret tt
  | Some Init_ =>
      Redefined <- checkForRedefinition H D ;;
      if (Redefined : bool) then ret tt
      else
        pushDecl D ;;
        FnDecl <- getFunctionDeclaratorOf D ;;
        match FnDecl with
        | DK_Function _ _ ParamScope =>
            pushScope ParamScope ;;
            enterScope SK_Function Init_ ;;
            Body <- elaborateBlock H Init_ ;;
            setBody FD Body ;;
            leaveScope Init_ ;;
            popScope ;;
            PopFunctionScopeInfo ;;
            popDecl
        | _ => abort "not a function declarator"
        end
  end.

(** [Elaborator::elaborateVariableInit] (lines 296-345). *)
Definition elaborateVariableInit (D : DeclRef) : M unit :=
  d <- getDecl D ;;
  match Cxx d with
  | None => ret tt
  | Some _ =>
      VD <- castTo isaVarDecl (Cxx d) ;;
      match Init d with
      | None => ret tt
      | Some Init_ =>
          Redefined <- checkForRedefinition H D ;;
          if (Redefined : bool) then ret tt
          else
            Init' <- elaborateExpr H Init_ ;;
            match Init' with
            | IsType _ => errs "Expected expression."
            | IsExpr InitExpr =>
                vd <- getCxx VD ;;
                match CType vd with
                | None => abort "null type"
                | Some T =>
                    if isUndeducedType T then
                      match DeduceAutoType H T InitExpr with
                      | (DAR_Failed, _) =>
                          errs "Failed to deduce type of expression."
                      | (_, Ty) =>
                          setType VD Ty ;;
                          AddInitializerToDecl H VD InitExpr
                      end
                    else AddInitializerToDecl H VD InitExpr
                end
            end
      end
  end.

(** [Elaborator::elaborateDef], [Elaborator::elaborateDeclInit] and
    [Elaborator::elaborateDeclSyntax] (lines 235-263). *)
Definition elaborateDef (D : DeclRef) : M unit :=
  d <- getDecl D ;;
  if declaresFunction d then elaborateFunctionDef D
  else elaborateVariableInit D.

Definition elaborateDeclInit (S : Syntax) : M unit :=
  Cur <- getCurrentScope ;;
  D <- findDecl Cur S ;;
  match D with
  | None => ret tt
  | Some D => elaborateDef D
  end.

Definition elaborateDeclSyntax (S : Syntax) : M (option CxxRef) :=
  identifyDecl S ;;
  Cur <- getCurrentScope ;;
  D <- findDecl Cur S ;;
  match D with
  | Some D =>
      elaborateDecl D ;;
      elaborateDef D ;;
      d <- getDecl D ;;
      ret (Cxx d)
  | None => ret None
  end.

(** *** The file *)

(** [Elaborator::startFile], [Elaborator::finishFile] and
    [Elaborator::elaborateFile] (lines 33-73). *)
Definition startFile (S : Syntax) : M unit :=
  enterScope SK_Namespace S ;;
  D <- newDecl (λ this, mkDeclaration None S [] None None None None
                          this this) ;;
  Cur <- getCurrentScope ;;
  setDeclSavedScope D Cur ;;
  setDeclCxx D getTranslationUnitDecl ;;
  pushDecl D.

Definition finishFile (S : Syntax) : M unit :=
  popDecl ;;
  leaveScope S.

Definition elaborateFile (S : Syntax) : M CxxRef :=
  match S with
  | FileSyntax _ _ =>
      startFile S ;;
      forEach (children S) identifyDecl ;;
      forEach (children S) (λ SS, elaborateDeclType SS ;; ret tt) ;;
      forEach (children S) elaborateDeclInit ;;
      finishFile S ;;
      ret getTranslationUnitDecl
  | _ => abort "S is not a file"
  end.

End WithHost.
End Elaborator.

(** ** A small host, for running the elaborator on examples *)

Module SampleHost.

(** The built-in types of the sample host. *)
Definition builtinType (sp : string) : option QualType :=
  if String.eqb sp "int" then Some (BuiltinType "int")
  else if String.eqb sp "bool" then Some (BuiltinType "bool")
  else if String.eqb sp "auto" then Some AutoType
  else None.

(** The type a declarator chain denotes, when all its type names are
    built in. *)
Fixpoint typeOf (D : Declarator) : option QualType :=
  match D with
  | [] => Some AutoType
  | DK_Identifier _ :: rest => typeOf rest
  | DK_Type _ (Some (AtomSyntax _ sp)) :: _ => builtinType sp
  | DK_Type _ _ :: _ => None
  | DK_Pointer _ :: rest => PointerType <$> typeOf rest
  | DK_Function _ _ _ :: rest => FunctionProtoType <$> typeOf rest
  end.

(** Functions are supported when they have no parameters: the bridge saves
    an empty parameter scope on the function fragment. *)
Definition typeExpr (D : DeclRef) : M Expression :=
  d <- getDecl D ;;
  match typeOf (Decl d) with
  | None => ret (IsExpr None)
  | Some T =>
      match Decl d with
      | DK_Identifier i :: DK_Function c (ListSyntax a []) _ :: rest =>
          Cur <- getCurrentScope ;;
          enterScope SK_Parameter c ;;
          Sc <- getCurrentScope ;;
          modify (setCurrentScope Cur) ;;
          putDecl D (mkDeclaration (Cxt d) (Op d)
                       (DK_Identifier i :: DK_Function c (ListSyntax a []) Sc
                          :: rest)
                       (Init d) (SavedScope d) (Id d) (Cxx d) (First d)
                       (Next d)) ;;
          ret (IsType T)
      | DK_Identifier _ :: DK_Function _ _ _ :: _ => ret (IsExpr None)
      | _ => ret (IsType T)
      end
  end.

Definition setInit (VD : CxxRef) (E : option Expr) : M unit :=
  c <- getCxx VD ;;
  putCxx VD (mkCxxDecl (CKind c) (Owner c) (CLoc c) (CName c) (CType c)
               (CStorage c) (CParams c) (CBody c) (Some E) (Members c)).

Definition host : Host :=
  {| lookupUnqualifiedName := λ _ _ _, false;
     elaborateTypeExpr := typeExpr;
     elaborateExpr := λ S, ret (IsExpr (Some (getLoc S)));
     elaborateBlock := λ S, ret (Some (getLoc S));
     checkForRedefinition := λ _, ret false;
     CheckMain := λ _, ret tt;
     DeduceAutoType := λ _ _, (DAR_Succeeded, Some (BuiltinType "int"));
     AddInitializerToDecl := setInit |}.

End SampleHost.

(** ** Example syntax *)

Module Examples.

(** [x : T], [x = e], [x ! e], [^T] and [f()] as the parser builds them: a
    call whose callee names the operator.  The callee and the argument list
    take the two addresses after the call's. *)
Definition colon (a : nat) (x T : Syntax) : Syntax :=
  CallSyntax a (AtomSyntax (a + 1) "operator':'") (ListSyntax (a + 2) [x; T]).
Definition equals (a : nat) (x e : Syntax) : Syntax :=
  CallSyntax a (AtomSyntax (a + 1) "operator'='") (ListSyntax (a + 2) [x; e]).
Definition bang (a : nat) (x e : Syntax) : Syntax :=
  CallSyntax a (AtomSyntax (a + 1) "operator'!'") (ListSyntax (a + 2) [x; e]).
Definition call0 (a : nat) (f : string) : Syntax :=
  CallSyntax a (AtomSyntax (a + 1) f) (ListSyntax (a + 2) []).

(** A state whose current scope is a fresh scope of kind [K], inside the
    global namespace of a file. *)
Definition inScope (K : ScopeKind) : Sema :=
  match (Elaborator.startFile (FileSyntax 1 []) ;;
         enterScope K (AtomSyntax 2 "anchor")) initialSema with
  | Ok (_, st) => st
  | Abort _ => initialSema
  end.

(** The state that a run leaves; the initial one if the run aborts. *)
Definition after {A} (m : M A) (st : Sema) : Sema :=
  match m st with
  | Ok (_, st') => st'
  | Abort _ => st
  end.

Definition x_equals_3 : Syntax :=
  equals 10 (AtomSyntax 13 "x") (AtomSyntax 14 "3").
Definition x_equals_4 : Syntax :=
  equals 20 (AtomSyntax 23 "x") (AtomSyntax 24 "4").
Definition x_int : Syntax := colon 10 (AtomSyntax 13 "x") (AtomSyntax 14 "int").
Definition x_int_again : Syntax :=
  colon 20 (AtomSyntax 23 "x") (AtomSyntax 24 "int").


(** A parameter with a default value, [x : int = 0], and the definition
    form [x ! e]. *)
Definition x_int_default : Syntax :=
  equals 30 (colon 33 (AtomSyntax 36 "x") (AtomSyntax 37 "int"))
    (AtomSyntax 38 "0").
Definition x_bang : Syntax :=
  bang 40 (AtomSyntax 43 "x") (AtomSyntax 44 "e").

(** The file [x : auto]. *)
Definition auto_file : Syntax :=
  FileSyntax 1 [colon 10 (AtomSyntax 13 "x") (AtomSyntax 14 "auto")].

(** The file [f() : nosuch ! body], a function whose return type the host
    cannot translate. *)
Definition f_nosuch : Syntax :=
  bang 10 (colon 13 (call0 16 "f") (AtomSyntax 19 "nosuch"))
    (AtomSyntax 20 "body").
Definition nosuch_file : Syntax := FileSyntax 1 [f_nosuch].

(** The file [v : nosuch = 1], a variable of such a type. *)
Definition v_nosuch : Syntax :=
  equals 10 (colon 13 (AtomSyntax 16 "v") (AtomSyntax 17 "nosuch"))
    (AtomSyntax 18 "1").

(** The file [x : int], [f() : int ! body], [y = 3]. *)
Definition three_file : Syntax :=
  FileSyntax 1
    [colon 10 (AtomSyntax 13 "x") (AtomSyntax 14 "int");
     bang 20 (colon 23 (call0 26 "f") (AtomSyntax 29 "int"))
       (AtomSyntax 30 "body");
     equals 40 (AtomSyntax 43 "y") (AtomSyntax 44 "3")].

(** The state of the file [F] once its nodes are identified and their types
    elaborated. *)
Definition typed (F : Syntax) : Sema :=
  after (forEach (children F)
           (λ SS, Elaborator.elaborateDeclType SampleHost.host SS ;; ret tt))
    (after (forEach (children F) (Elaborator.identifyDecl SampleHost.host))
       (after (Elaborator.startFile F) initialSema)).

End Examples.

(** ** The staged pipeline as a state machine *)

(** Modelled from the spec: the pipeline has the states Identify,
    TypeElaborate, InitElaborate and Done, strictly sequential across the
    whole file.  The machine holds its state and the top-level nodes still
    to process in it; it processes one node at a time and moves to the next
    state, with all the nodes of the file pending again, only when no node
    is pending. *)
Inductive Phase : Type := Identify | TypeElaborate | InitElaborate | Done.

Definition pipelineStep (H : Host) (file : list Syntax)
    (p : Phase * list Syntax) : M (Phase * list Syntax) :=
  match p with
  | (Identify, SS :: rest) =>
      Elaborator.identifyDecl H SS ;; ret (Identify, rest)
  | (Identify, []) => ret (TypeElaborate, file)
  | (TypeElaborate, SS :: rest) =>
      Elaborator.elaborateDeclType H SS ;; ret (TypeElaborate, rest)
  | (TypeElaborate, []) => ret (InitElaborate, file)
  | (InitElaborate, SS :: rest) =>
      Elaborator.elaborateDeclInit H SS ;; ret (InitElaborate, rest)
  | (InitElaborate, []) => ret (Done, [])
  | (Done, _) => ret (Done, [])
  end.

Fixpoint pipelineRun (H : Host) (file : list Syntax) (steps : nat)
    (p : Phase * list Syntax) : M (Phase * list Syntax) :=
  match steps with
  | 0 => ret p
  | S n => p' <- pipelineStep H file p ;; pipelineRun H file n p'
  end.

(** The three passes of [elaborateFile], one after the other. *)
Definition passes (H : Host) (cs : list Syntax) : M unit :=
  forEach cs (Elaborator.identifyDecl H) ;;
  forEach cs (λ SS, Elaborator.elaborateDeclType H SS ;; ret tt) ;;
  forEach cs (Elaborator.elaborateDeclInit H).

(** ** Independent declarations *)

(** The declarations that a declaration context holds, in the order in which
    they were added, and the source location of a host declaration. *)
Definition membersOf (st : Sema) (C : nat) : list nat :=
  match CxxAST st !! C with
  | Some c => Members c
  | None => []
  end.

Definition locOf (st : Sema) (C : nat) : nat :=
  match CxxAST st !! C with
  | Some c => CLoc c
  | None => 0
  end.

(** What a run keeps of the objects that exist: the scopes, the syntax of
    the declarations and the location of the host declarations. *)
Definition grows (st st' : Sema) : Prop :=
  (∀ r s, Scopes st !! r = Some s → Scopes st' !! r = Some s)
  ∧ (∀ D d, Decls st !! D = Some d →
            ∃ d', Decls st' !! D = Some d' ∧ Op d' = Op d)
  ∧ (∀ C c, CxxAST st !! C = Some c →
            ∃ c', CxxAST st' !! C = Some c' ∧ CLoc c' = CLoc c).

(** A run that in addition ends in the scope it started in and adds nothing
    to the translation unit. *)
Definition keeps (st st' : Sema) : Prop :=
  CurrentScope st' = CurrentScope st
  ∧ grows st st'
  ∧ membersOf st' getTranslationUnitDecl
    = membersOf st getTranslationUnitDecl.

(** A run that keeps the locations of the host declarations and adds
    nothing to the translation unit. *)
Definition keepsAST (st st' : Sema) : Prop :=
  (∀ C c, CxxAST st !! C = Some c →
          ∃ c', CxxAST st' !! C = Some c' ∧ CLoc c' = CLoc c)
  ∧ membersOf st' getTranslationUnitDecl
    = membersOf st getTranslationUnitDecl.

Definition preserves (R : Sema → Sema → Prop) {A} (m : M A) : Prop :=
  ∀ st a st', m st = Ok (a, st') → R st st'.

(** The declarations of a file are mutually independent for the host when
    the work the host does for one of them leaves the others alone: it keeps
    the objects that exist and adds nothing to the translation unit. *)
Record Independent (H : Host) : Prop := mkIndependent {
  type_independent : ∀ D, preserves keeps (elaborateTypeExpr H D);
  main_independent : ∀ C, preserves keeps (CheckMain H C);
  expr_independent : ∀ S, preserves keepsAST (elaborateExpr H S);
  block_independent : ∀ S, preserves keepsAST (elaborateBlock H S);
  redefinition_independent :
    ∀ D, preserves keepsAST (checkForRedefinition H D);
  initializer_independent :
    ∀ C E, preserves keepsAST (AddInitializerToDecl H C E)
}.

(** In the first [n] scopes every node is bound to a declaration of that
    node. *)
Definition boundByAddress (n : nat) (st : Sema) : Prop :=
  ∀ r s k D,
    r < n → Scopes st !! r = Some s → DeclMap s !! k = Some D →
    ∃ d, Decls st !! D = Some d ∧ getLoc (Op d) = k.

(** A run that keeps the objects that exist and adds at most one
    declaration, located at [L], to the translation unit. *)
Definition addsAt (L : nat) (st st' : Sema) : Prop :=
  CurrentScope st' = CurrentScope st
  ∧ grows st st'
  ∧ ∃ news,
      membersOf st' getTranslationUnitDecl
      = membersOf st getTranslationUnitDecl ++ news
      ∧ (news = []
         ∨ ∃ n c, news = [n] ∧ CxxAST st' !! n = Some c ∧ CLoc c = L).

(** What identification keeps: the host declarations, the current scope,
    the number of scopes, and the binding by address in the first [n]
    scopes. *)
Definition identifies (n : nat) (st st' : Sema) : Prop :=
  CxxAST st' = CxxAST st
  ∧ CurrentScope st' = CurrentScope st
  ∧ length (Scopes st') = length (Scopes st)
  ∧ (boundByAddress n st → boundByAddress n st').

(** The host declaration [n] exists and is located at [L]. *)
Definition locatedAt (st : Sema) (n L : nat) : Prop :=
  ∃ c, CxxAST st !! n = Some c ∧ CLoc c = L.

(** The state of the type pass: the current scope is one of the first [n]
    scopes, which bind every node to a declaration of that node. *)
Definition typePassState (n : nat) (st : Sema) : Prop :=
  n ≤ length (Scopes st)
  ∧ (∃ cur, CurrentScope st = Some cur ∧ cur < n)
  ∧ boundByAddress n st.

(** ** What identification leaves in the state *)

(** The declaration that [identifyDecl] creates for the node [S] with the
    declarator [Dcl] and the initializer [Init_], with its redeclaration
    links [F] and [N]. *)
Definition identified (st : Sema) (S : Syntax) (Dcl : Declarator)
    (Init_ : option Syntax) (F N : DeclRef) : Declaration :=
  mkDeclaration (head (DeclStack st)) S Dcl Init_ None
    (Elaborator.getIdentifier Dcl) None F N.

(** The state once the declaration [d] is allocated after the declarations
    [ds] and bound in the scope [sc]. *)
Definition declared (st : Sema) (sc : ScopeRef) (s : Scope)
    (ds : list Declaration) (d : Declaration) : Sema :=
  setScopes (<[sc := bindDecl s (length (Decls st)) d]> (Scopes st))
    (setDecls (ds ++ [d]) st).

(** The test of the block-scope branch of [identifyDecl]. *)
Definition returnsEarly (s : Scope) (Bound : option DeclRef)
    (OperatorEquals : bool) : bool :=
  isBlockScope s && (bool_decide (is_Some Bound) && OperatorEquals).

(** * Further definitions *)

(** ** Declaration forms *)

(** The declarator, the initializer and the [operator'='] flag that
    [identifyDecl] unpacks from a declaration form, when the form has the
    operands it reads. *)
Definition unpacked (S : Syntax) : option (Syntax * option Syntax * bool) :=
  match S with
  | CallSyntax _ (AtomSyntax _ Op_) Args =>
      if String.eqb Op_ "operator'='" then
        match Args with
        | ListSyntax _ (Decl_ :: Init_ :: _) => Some (Decl_, Some Init_, true)
        | _ => None
        end
      else if String.eqb Op_ "operator'!'" then
        match Args with
        | ListSyntax _ (Decl_ :: Init_ :: _) => Some (Decl_, Some Init_, false)
        | _ => None
        end
      else if String.eqb Op_ "operator':'" then Some (S, None, false)
      else None
  | _ => None
  end.

(** The name operand of a declarator: the node reached through the left
    operands of the [operator':'] calls of the declarator. *)
Fixpoint nameOperand (S : Syntax) : Syntax :=
  match S with
  | CallSyntax _ (AtomSyntax _ op) (ListSyntax _ (a0 :: _ :: _)) =>
      if String.eqb op "operator':'" then nameOperand a0 else S
  | _ => S
  end.

Definition isAtomOrCall (S : Syntax) : bool :=
  match S with AtomSyntax _ _ | CallSyntax _ _ _ => true | _ => false end.

(** ** Redeclaration rings *)

(** The declarations [rs] form the chain of redeclarations of one entity:
    they are distinct, [First] of each of them is the first one, and [Next]
    leads from each of them to the one after it and from the last one back
    to the first. *)
Definition ringNext (rs : list nat) (i : nat) : option nat :=
  match rs !! (i + 1) with
  | Some n => Some n
  | None => head rs
  end.

Definition isRing (ds : list Declaration) (rs : list nat) : Prop :=
  NoDup rs
  ∧ ∀ i r, rs !! i = Some r →
      ∃ d, ds !! r = Some d
           ∧ Some (First d) = head rs ∧ Some (Next d) = ringNext rs i.

(** ** Reports and function scopes *)

(** A run that reports nothing and leaves the depth of the host's
    function-scope stack as it is. *)
Definition passive (st st' : Sema) : Prop :=
  Diags st' = Diags st ∧ Errs st' = Errs st
  ∧ FunctionScopes st' = FunctionScopes st.

(** A host whose operations are passive: what is reported during a run, and
    the function scopes pushed and popped, are then the elaborator's own. *)
Record Passive (H : Host) : Prop := mkPassive {
  type_passive : ∀ D, preserves passive (elaborateTypeExpr H D);
  main_passive : ∀ C, preserves passive (CheckMain H C);
  expr_passive : ∀ S, preserves passive (elaborateExpr H S);
  block_passive : ∀ S, preserves passive (elaborateBlock H S);
  redefinition_passive : ∀ D, preserves passive (checkForRedefinition H D);
  initializer_passive : ∀ C E, preserves passive (AddInitializerToDecl H C E)
}.

(** The diagnostic of the type pass for the declaration [d]. *)
Definition untranslatable (d : Declaration) : Diagnostic :=
  mkDiagnostic (getLoc (Op d)) err_failed_to_translate_type.

(** What the type pass leaves for the declaration [D] when it returns [r]
    and creates a host declaration that opens [pushed] function scopes:
    nothing is written to the error stream; a null result comes with one
    diagnostic, at the declaration; any other result is the host
    declaration now recorded in [D]. *)
Definition typeOutcome (D : DeclRef) (pushed : nat) (st : Sema)
    (r : option CxxRef) (st' : Sema) : Prop :=
  Errs st' = Errs st
  ∧ match r with
    | None =>
        FunctionScopes st' = FunctionScopes st
        ∧ ∃ d', Decls st' !! D = Some d'
                ∧ Diags st' = Diags st ++ [untranslatable d']
    | Some C =>
        Diags st' = Diags st
        ∧ FunctionScopes st' = FunctionScopes st + pushed
        ∧ ∃ d', Decls st' !! D = Some d' ∧ Cxx d' = Some C
    end.

(** The two lines that the definition pass writes to the error stream. *)
Definition initErrors : list string :=
  ["Expected expression."; "Failed to deduce type of expression."].

(** What the definition pass leaves for the declaration [d]: it reports no
    diagnostic; for a function it writes no line and closes at most one
    function scope, for a variable it keeps the function scopes and writes
    at most one line; and it does either only for a declaration that has an
    initializer. *)
Definition defOutcome (d : Declaration) (st st' : Sema) : Prop :=
  Diags st' = Diags st
  ∧ if declaresFunction d then
      Errs st' = Errs st
      ∧ (FunctionScopes st' = FunctionScopes st
         ∨ is_Some (Init d) ∧ FunctionScopes st' + 1 = FunctionScopes st)
    else
      FunctionScopes st' = FunctionScopes st
      ∧ (Errs st' = Errs st
         ∨ is_Some (Init d)
           ∧ ∃ line, line ∈ initErrors ∧ Errs st' = Errs st ++ [line]).

(** A run that reports at most [nd] diagnostics and writes at most [ne]
    lines, each of them a line of the definition pass, to the error
    stream, after what was reported and written before. *)
Definition reports (nd ne : nat) (st st' : Sema) : Prop :=
  ∃ ds es,
    Diags st' = Diags st ++ ds ∧ Errs st' = Errs st ++ es
    ∧ length ds ≤ nd ∧ length es ≤ ne
    ∧ Forall (λ line, line ∈ initErrors) es.

(** ** Parameters *)

(** The host parameter [C] of the parameter node [P]: the parameter scope
    [Sc] binds [P] to a declaration whose host declaration is the
    [ParmVarDecl] [C]. *)
Definition paramOf (st : Sema) (Sc : option ScopeRef) (P : Syntax)
    (C : CxxRef) : Prop :=
  ∃ pd p c,
    findDeclIn st Sc P = Some pd ∧ Decls st !! pd = Some p
    ∧ Cxx p = Some C ∧ CxxAST st !! C = Some c ∧ CKind c = ParmVarDecl.

(** ** Host declarations of variables *)

(** The host declaration that the type pass creates for the declaration
    [d]: of class [K], owned by [O], located at the syntax of [d], with the
    name of [d], the type [T] and the storage class [SC]. *)
Definition newVariable (K : CxxKind) (O : CxxRef) (d : Declaration)
    (T : QualType) (SC : StorageClass) : CxxDecl :=
  mkCxxDecl K (Some O) (getLoc (Op d)) (Id d) (Some T) SC [] None None [].

(** The declaration context [o] once [C] is added to it. *)
Definition addMember (o : CxxDecl) (C : CxxRef) : CxxDecl :=
  mkCxxDecl (CKind o) (Owner o) (CLoc o) (CName o) (CType o) (CStorage o)
    (CParams o) (CBody o) (CInit o) (Members o ++ [C]).

(** ** The bracket of a file *)

(** The state that [startFile] leaves: the global scope of the file is
    entered and the declaration of the file, which owns the translation
    unit and saves that scope, is the current declaration. *)
Definition started (S : Syntax) (st : Sema) : Sema :=
  let Sc := length (Scopes st) in
  let D := length (Decls st) in
  setDeclStack (D :: DeclStack st)
    (setDecls
       (Decls st
        ++ [mkDeclaration None S [] None (Some Sc) None
              (Some getTranslationUnitDecl) D D])
       (setCurrentScope (Some Sc)
          (setScopes (Scopes st ++ [mkScope SK_Namespace (CurrentScope st) S ∅ ∅])
             st))).

(** A run that ends in the scope and with the stack of declarations it
    started with, and keeps the parent and the syntax of every scope. *)
Definition balanced (st st' : Sema) : Prop :=
  CurrentScope st' = CurrentScope st ∧ DeclStack st' = DeclStack st
  ∧ ∀ r s, Scopes st !! r = Some s →
      ∃ s', Scopes st' !! r = Some s'
            ∧ Parent s' = Parent s ∧ Term s' = Term s.

(** ** Redeclarations in a namespace *)

(** The node [S] declares the name [x]: it is a declaration form whose
    declarator has the name [x], whatever the state in which the host looks
    up the tag names. *)
Definition declaresName (H : Host) (x : string) (S : Syntax) : Prop :=
  ∃ Decl_ Init_ OpEq,
    unpacked S = Some (Decl_, Init_, OpEq)
    ∧ ∀ st, ∃ Dcl,
        Elaborator.makeDeclarator H Decl_ st = Ok (Dcl, st)
        ∧ Elaborator.getIdentifier Dcl = Some x.

(** The current scope is the namespace scope [sc], and the declarations
    [rs] are the chain of redeclarations of the name [x], which the scope
    binds to the last of them. *)
Definition nameRing (x : string) (sc : ScopeRef) (rs : list DeclRef)
    (st : Sema) : Prop :=
  CurrentScope st = Some sc
  ∧ (∃ s, Scopes st !! sc = Some s ∧ isNamespaceScope s = true)
  ∧ isRing (Decls st) rs
  ∧ findIdIn st (Some sc) (Some x) = last rs.

(** The declarations [Ds] are those of the nodes [cs], in this order. *)
Definition declarationsOf (st : Sema) (cs : list Syntax) (Ds : list DeclRef)
  : Prop :=
  Forall2 (λ S D, ∃ d, Decls st !! D = Some d ∧ Op d = S) cs Ds.

(** The node [S] assigns to the name [x]: it is an [operator'='] form whose
    declarator has the name [x]. *)
Definition assignsName (H : Host) (x : string) (S : Syntax) : Prop :=
  ∃ Decl_ Init_,
    unpacked S = Some (Decl_, Init_, true)
    ∧ ∀ st, ∃ Dcl,
        Elaborator.makeDeclarator H Decl_ st = Ok (Dcl, st)
        ∧ Elaborator.getIdentifier Dcl = Some x.

(** * GoldDeclaration.cpp: what a declaration declares *)

Module GoldDeclaration.

(** The kinds of token that the predicates test; every other kind of the
    lexer is [OtherToken]. *)
Inductive TokenKind : Type :=
| ClassKeyword | UnionKeyword | EnumKeyword | NamespaceKeyword
| DefaultKeyword | DeleteKeyword | OtherToken.

Definition TokenKind_eqb (a b : TokenKind) : bool :=
  match a, b with
  | ClassKeyword, ClassKeyword | UnionKeyword, UnionKeyword
  | EnumKeyword, EnumKeyword | NamespaceKeyword, NamespaceKeyword
  | DefaultKeyword, DefaultKeyword | DeleteKeyword, DeleteKeyword
  | OtherToken, OtherToken => true
  | _, _ => false
  end.

(** The classes of the host's declarations that the predicates test with
    [isa<>], in the hierarchy of the host: a constructor and a destructor
    are methods. *)
Inductive ClangDecl : Type :=
| CXXRecordDecl | NamespaceDecl | FieldDecl | CXXMethodDecl
| CXXConstructorDecl | CXXDestructorDecl | TypeAliasDecl | OtherDecl.

Definition isaCXXRecordDecl (c : ClangDecl) : bool :=
  match c with CXXRecordDecl => true | _ => false end.
Definition isaNamespaceDecl (c : ClangDecl) : bool :=
  match c with NamespaceDecl => true | _ => false end.
Definition isaCXXMethodDecl (c : ClangDecl) : bool :=
  match c with
  | CXXMethodDecl | CXXConstructorDecl | CXXDestructorDecl => true
  | _ => false
  end.
Definition isaCXXConstructorDecl (c : ClangDecl) : bool :=
  match c with CXXConstructorDecl => true | _ => false end.
Definition isaCXXDestructorDecl (c : ClangDecl) : bool :=
  match c with CXXDestructorDecl => true | _ => false end.

(** The kinds of declarator, and a declarator of the chain with its kind
    and its syntax. *)
Inductive DeclaratorKind : Type :=
| DK_Identifier | DK_Type | DK_Function | DK_Pointer | DK_TemplateParams.

Definition DeclaratorKind_eqb (a b : DeclaratorKind) : bool :=
  match a, b with
  | DK_Identifier, DK_Identifier | DK_Type, DK_Type
  | DK_Function, DK_Function | DK_Pointer, DK_Pointer
  | DK_TemplateParams, DK_TemplateParams => true
  | _, _ => false
  end.

Record Declarator : Type := mkDeclarator {
  getKind : DeclaratorKind;
  getSyntax : Syntax
}.

(** The members of [Declaration] that the predicates read: the syntax
    [Op], the chain [Decl], the initializer [Init], the host declaration
    [Cxx], and whether the function declarator [FunctionDcl] and the
    template parameters [TemplateParameters] are present. *)
Record Declaration : Type := mkDeclaration {
  Op : option Syntax;
  Decl : list Declarator;
  Init : option Syntax;
  Cxx : option ClangDecl;
  FunctionDcl : bool;
  TemplateParameters : bool
}.

Section WithLexer.

(** The kind of the token of an atom, as the lexer has set it. *)
Variable kindOf : Syntax → TokenKind.

Definition hasToken (S : Syntax) (K : TokenKind) : bool :=
  TokenKind_eqb (kindOf S) K.

(** The test shared by [declaresTag] and [getTagName]. *)
Definition hasTagToken (S : Syntax) : bool :=
  hasToken S ClassKeyword || hasToken S UnionKeyword
  || hasToken S EnumKeyword.

Definition declaresFunction (d : Declaration) : bool := FunctionDcl d.

(** [Declaration::declaresTag] (lines 78-95). *)
Definition declaresTag (d : Declaration) : bool :=
  match Cxx d with
  | Some c => isaCXXRecordDecl c
  | None =>
      match Init d with
      | Some (MacroSyntax _ Call _) =>
          match Call with
          | AtomSyntax _ _ => hasTagToken Call
          | CallSyntax _ (AtomSyntax _ _ as Callee) _ => hasTagToken Callee
          | _ => false
          end
      | _ => false
      end
  end.

(** [Declaration::getTagName] (lines 97-118): the name node, when the
    function returns true. *)
Definition getTagName (d : Declaration) : option Syntax :=
  match Init d with
  | Some (MacroSyntax _ Call _) =>
      match Call with
      | AtomSyntax _ _ => if hasTagToken Call then Some Call else None
      | CallSyntax _ (AtomSyntax _ _ as Callee) _ =>
          if hasTagToken Callee then Some Callee else None
      | _ => None
      end
  | _ => None
  end.

(** [Declaration::declaresNamespace] (lines 120-126); the head of the
    macro is cast to an atom. *)
Definition declaresNamespace (d : Declaration) : Result bool :=
  match Cxx d with
  | Some c => Ok (isaNamespaceDecl c)
  | None =>
      match Init d with
      | Some (MacroSyntax _ Call _) =>
          match Call with
          | AtomSyntax _ _ => Ok (hasToken Call NamespaceKeyword)
          | _ => Abort "cast<AtomSyntax>() argument of incompatible type"
          end
      | _ => Ok false
      end
  end.

(** [Declaration::declaresFunctionTemplate] (lines 218-223). *)
Definition declaresFunctionTemplate (d : Declaration) : bool :=
  FunctionDcl d && TemplateParameters d.

(** [Declaration::declaresFunctionWithImplicitReturn] (lines 138-152). *)
Definition declaresFunctionWithImplicitReturn (d : Declaration) : bool :=
  if declaresFunction d || declaresFunctionTemplate d then
    match Op d with
    | None => false
    | Some (CallSyntax _ (AtomSyntax _ Name) _) =>
        String.eqb Name "operator'='"
    | Some _ => false
    end
  else false.

(** [isSpecialExpectedAssignedFuncValue] (lines 170-178): the syntax is an
    [operator'='] call whose second argument is an atom of the token kind
    [TK]. *)
Definition isSpecialExpectedAssignedFuncValue (Op_ : Syntax) (TK : TokenKind)
  : Result bool :=
  match Op_ with
  | CallSyntax _ (AtomSyntax _ Name) _ =>
      if String.eqb Name "operator'='" then
        rbind (getArgument Op_ 1)
          (λ A, match A with
                | AtomSyntax _ _ => Ok (TokenKind_eqb (kindOf A) TK)
                | _ => Ok false
                end)
      else Ok false
  | _ => Ok false
  end.

(** [Declaration::declaresDefaultedFunction] and
    [Declaration::declaresDeletedFunction] (lines 180-197). *)
Definition declaresDefaultedFunction (d : Declaration) : Result bool :=
  if declaresFunction d || declaresFunctionTemplate d then
    match Op d with
    | None => Ok false
    | Some Op_ => isSpecialExpectedAssignedFuncValue Op_ DefaultKeyword
    end
  else Ok false.

Definition declaresDeletedFunction (d : Declaration) : Result bool :=
  if declaresFunction d || declaresFunctionTemplate d then
    match Op d with
    | None => Ok false
    | Some Op_ => isSpecialExpectedAssignedFuncValue Op_ DeleteKeyword
    end
  else Ok false.

End WithLexer.

(** [Declaration::declaresMemberFunction], [declaresConstructor] and
    [declaresDestructor] (lines 203-214). *)
Definition declaresMemberFunction (d : Declaration) : bool :=
  declaresFunction d
  && match Cxx d with Some c => isaCXXMethodDecl c | None => false end.

Definition declaresConstructor (d : Declaration) : bool :=
  declaresFunction d
  && match Cxx d with Some c => isaCXXConstructorDecl c | None => false end.

Definition declaresDestructor (d : Declaration) : bool :=
  declaresFunction d
  && match Cxx d with Some c => isaCXXConstructorDecl c | None => false end.

(** [Declaration::getFirstDeclarator] and
    [Declaration::getFirstTemplateDeclarator] (lines 278-316): the chain
    from the first declarator of the kind on; null when there is none. *)
Fixpoint firstOfKind (DK : DeclaratorKind) (D : list Declarator)
  : list Declarator :=
  match D with
  | [] => []
  | d :: Next =>
      if DeclaratorKind_eqb (getKind d) DK then D else firstOfKind DK Next
  end.

Definition getFirstDeclarator (d : Declaration) (DK : DeclaratorKind)
  : list Declarator :=
  firstOfKind DK (Decl d).

Fixpoint firstTemplateParams (D : list Declarator) : list Declarator :=
  match D with
  | [] => []
  | d :: Next =>
      match getKind d with
      | DK_TemplateParams => D
      | _ => firstTemplateParams Next
      end
  end.

Definition getFirstTemplateDeclarator (d : Declaration) : list Declarator :=
  firstTemplateParams (Decl d).

End GoldDeclaration.

(** ** The iterative [makeDeclarator] *)

(** The disabled iterative [makeDeclarator(SemaRef, S)]
    (GoldElaborator.cpp, lines 463-502), with the declarator [D] built so
    far: each turn of the loop builds one fragment and goes on with the
    left operand of an [operator':'] call or with the callee of any other
    call. *)
Fixpoint makeDeclaratorIter (S : Syntax) (D : Declarator) {struct S}
  : Result Declarator :=
  match S with
  | AtomSyntax _ _ => Ok (buildIdDeclarator S D)
  | CallSyntax _ Callee Args =>
      match Callee with
      | AtomSyntax _ op =>
          if String.eqb op "operator':'" then
            rbind (buildTypeDeclarator S D)
              (λ D',
                 match Args with
                 | ListSyntax _ (a0 :: _) => makeDeclaratorIter a0 D'
                 | ListSyntax _ _ => Abort "getArgument: no such argument"
                 | _ => Abort "getArgument: not an argument list"
                 end)
          else makeDeclaratorIter Callee (buildFunctionDeclarator S D)
      | _ => Ok []
      end
  | _ => Ok []
  end.

(** The declarators on which the loop is enough: a name, a call of a
    name, or an [operator':'] call whose type operand is not a call and
    whose left operand is such a declarator; no [operator'^'] call and no
    call of anything but a name. *)
Fixpoint isPlainDeclarator (S : Syntax) : bool :=
  match S with
  | CallSyntax _ (AtomSyntax _ op) Args =>
      if String.eqb op "operator':'" then
        match Args with
        | ListSyntax _ (a0 :: a1 :: _) =>
            negb (isCallSyntax a1) && isPlainDeclarator a0
        | _ => false
        end
      else negb (String.eqb op "operator'^'")
  | CallSyntax _ _ _ => false
  | _ => true
  end.

(** ** Deduction of the type of a variable *)

(** The host declaration [c] with the type [Ty]. *)
Definition retyped (c : CxxDecl) (Ty : option QualType) : CxxDecl :=
  mkCxxDecl (CKind c) (Owner c) (CLoc c) (CName c) Ty (CStorage c)
    (CParams c) (CBody c) (CInit c) (Members c).

(** ** The scopes of a function definition *)

(** A host whose elaboration of a block is balanced and whose check for a
    redefinition is balanced and keeps the declarations. *)
Record BalancedHost (H : Host) : Prop := mkBalancedHost {
  block_balanced : ∀ S, preserves balanced (elaborateBlock H S);
  redefinition_balanced :
    ∀ D, preserves (λ st st', balanced st st' ∧ Decls st' = Decls st)
           (checkForRedefinition H D)
}.

(** ** Host declarations of functions *)

(** The host function that the type pass creates for the declaration [d],
    and a host function with its parameters set. *)
Definition newFunction (O : CxxRef) (d : Declaration) (T : QualType)
  : CxxDecl :=
  mkCxxDecl FunctionDecl (Some O) (getLoc (Op d)) (Id d) (Some T) SC_Extern
    [] None None [].

Definition withParams (c : CxxDecl) (Ps : list CxxRef) : CxxDecl :=
  mkCxxDecl (CKind c) (Owner c) (CLoc c) (CName c) (CType c) (CStorage c)
    Ps (CBody c) (CInit c) (Members c).

(** * Properties *)

(** ** Running the monad *)

Lemma bind_Ok {A B} (m : M A) (k : A → M B) st a st' :
  m st = Ok (a, st') → bind m k st = k a st'.
Proof. intros E. unfold bind. rewrite E. reflexivity. Qed.

Lemma bind_Abort {A B} (m : M A) (k : A → M B) st w :
  m st = Abort w → bind m k st = Abort w.
Proof. intros E. unfold bind. rewrite E. reflexivity. Qed.

Lemma bind_inv {A B} (m : M A) (k : A → M B) st b st2 :
  bind m k st = Ok (b, st2) →
  ∃ a st1, m st = Ok (a, st1) ∧ k a st1 = Ok (b, st2).
Proof.
  unfold bind. destruct (m st) as [[a st1]|w]; [eauto|discriminate].
Qed.

Lemma bind_assoc {A B C} (m : M A) (f : A → M B) (g : B → M C) st :
  bind (bind m f) g st = bind m (λ x, bind (f x) g) st.
Proof. unfold bind. destruct (m st) as [[a st']|]; reflexivity. Qed.

Lemma getDecl_Ok D d st : Decls st !! D = Some d → getDecl D st = Ok (d, st).
Proof. intros E. unfold getDecl. rewrite E. reflexivity. Qed.

Lemma getCxx_Ok C c st : CxxAST st !! C = Some c → getCxx C st = Ok (c, st).
Proof. intros E. unfold getCxx. rewrite E. reflexivity. Qed.

Lemma derefScope_Ok r s st :
  Scopes st !! r = Some s → derefScope (Some r) st = Ok (s, st).
Proof. intros E. unfold derefScope. rewrite E. reflexivity. Qed.

Lemma getCurrentScope_Ok st : getCurrentScope st = Ok (CurrentScope st, st).
Proof. reflexivity. Qed.

Lemma findDeclId_Ok r s I st :
  Scopes st !! r = Some s →
  findDeclId (Some r) I st = Ok (findIdIn st (Some r) I, st).
Proof.
  intros E. unfold findDeclId. erewrite bind_Ok by (apply derefScope_Ok, E).
  reflexivity.
Qed.

Lemma findDecl_Ok r s S st :
  Scopes st !! r = Some s →
  findDecl (Some r) S st = Ok (findDeclIn st (Some r) S, st).
Proof.
  intros E. unfold findDecl. erewrite bind_Ok by (apply derefScope_Ok, E).
  reflexivity.
Qed.

Lemma list_insert_snoc {A} (l : list A) (x y : A) (n : nat) :
  n = length l → <[n := y]> (l ++ [x]) = l ++ [y].
Proof.
  intros ->. rewrite insert_app_r_alt by lia. rewrite Nat.sub_diag.
  reflexivity.
Qed.

Lemma list_lookup_snoc {A} (l : list A) (x : A) (n : nat) :
  n = length l → (l ++ [x]) !! n = Some x.
Proof. apply list_lookup_middle. Qed.

(** One step of a run: the first action of a sequence is evaluated by
    [tac]. *)
Ltac step tac := erewrite bind_Ok by tac; cbv beta iota.

Lemma lookupFrom_here ss r s look d :
  ss !! r = Some s → look s = Some d → lookupFrom (r + 1) ss r look = Some d.
Proof.
  intros Hs Hl. rewrite Nat.add_1_r. cbn [lookupFrom]. rewrite Hs, Hl.
  reflexivity.
Qed.

(** ** Redeclaration links and bindings *)

Lemma setPreviousDecl_Ok st l t Old o :
  Decls st = l ++ [t] → l !! Old = Some o →
  setPreviousDecl (length l) Old st
  = Ok (tt, setDecls (<[Old := setNext o (length l)]> l
                      ++ [setNext (setFirst t (First o)) (First o)]) st).
Proof.
  intros E Ho.
  assert (Hlt : Old < length l) by (eapply lookup_lt_Some; eauto).
  unfold setPreviousDecl.
  step ltac:(apply getDecl_Ok; rewrite E; apply lookup_app_l_Some, Ho).
  step ltac:(reflexivity).
  step ltac:(apply getDecl_Ok; cbn; rewrite E, insert_app_l by exact Hlt;
             apply lookup_app_l_Some, list_lookup_insert_eq, Hlt).
  step ltac:(apply getDecl_Ok; cbn; rewrite E, insert_app_l by exact Hlt;
             apply list_lookup_snoc; rewrite length_insert; reflexivity).
  step ltac:(reflexivity).
  step ltac:(apply getDecl_Ok; cbn; rewrite E, insert_app_l by exact Hlt;
             rewrite list_insert_snoc by (rewrite length_insert; reflexivity);
             apply list_lookup_snoc; rewrite length_insert; reflexivity).
  unfold putDecl, modify. cbn.
  rewrite E, insert_app_l by exact Hlt.
  rewrite !list_insert_snoc by (rewrite length_insert; reflexivity).
  reflexivity.
Qed.

Lemma addDecl_Ok st r s D d :
  Scopes st !! r = Some s → Decls st !! D = Some d →
  addDecl (Some r) D st
  = Ok (tt, setScopes (<[r := bindDecl s D d]> (Scopes st)) st).
Proof.
  intros Hs Hd. unfold addDecl.
  step ltac:(apply derefScope_Ok, Hs).
  step ltac:(apply getDecl_Ok, Hd).
  reflexivity.
Qed.

(** ** Identification *)

Section Identification.

Context (H : Host).

(** The run of [identifyDecl] on a node that unpacks to a declarator: it
    returns early on a re-assignment in block scope, links the new
    declaration behind the one bound to its name in namespace and parameter
    scope, and otherwise declares the name afresh. *)
Lemma identifyDecl_unfold st sc s a b Op_ Args Decl_ Init_ OpEq Dcl :
  let S := CallSyntax a (AtomSyntax b Op_) Args in
  let Bound := findIdIn st (Some sc) (Elaborator.getIdentifier Dcl) in
  let New := length (Decls st) in
  CurrentScope st = Some sc → Scopes st !! sc = Some s →
  Elaborator.unpackDeclarator S Op_ Args st
  = Ok (Some (Decl_, Init_, OpEq), st) →
  Elaborator.makeDeclarator H Decl_ st = Ok (Dcl, st) →
  Dcl ≠ [] →
  isParameterScope s && negb (isIdentifier Dcl) = false →
  (isNamespaceScope s || isParameterScope s = true →
   ∀ Old, Bound = Some Old → is_Some (Decls st !! Old)) →
  Elaborator.identifyDecl H S st
  = if returnsEarly s Bound OpEq then Ok (tt, st)
    else
      match (if isNamespaceScope s || isParameterScope s then Bound else None)
      with
      | Some Old =>
          match Decls st !! Old with
          | Some o =>
              Ok (tt, declared st sc s
                        (<[Old := setNext o New]> (Decls st))
                        (identified st S Dcl Init_ (First o) (First o)))
          | None => Abort "no such Declaration"
          end
      | None =>
          Ok (tt, declared st sc s (Decls st)
                    (identified st S Dcl Init_ New New))
      end.
Proof.
  intros S Bound New Hc Hs Hu Hm Hn Hp Hv.
  destruct Dcl as [|F0 Dcl]; [done|].
  unfold S, Elaborator.identifyDecl.
  step ltac:(exact Hu). step ltac:(exact Hm).
  step ltac:(rewrite getCurrentScope_Ok, Hc; reflexivity).
  step ltac:(apply derefScope_Ok, Hs).
  rewrite Hp.
  step ltac:(rewrite getCurrentScope_Ok, Hc; reflexivity).
  step ltac:(apply derefScope_Ok, Hs).
  step ltac:(eapply findDeclId_Ok, Hs).
  fold Bound. fold (returnsEarly s Bound OpEq).
  destruct (returnsEarly s Bound OpEq); [reflexivity|].
  step ltac:(reflexivity).
  step ltac:(reflexivity).
  step ltac:(unfold setDeclId;
             erewrite bind_Ok
               by (apply getDecl_Ok; cbn; apply list_lookup_snoc;
                   reflexivity);
             reflexivity).
  cbn [Decls setDecls]. rewrite list_insert_snoc by reflexivity.
  change (setId _ _) with (identified st S (F0 :: Dcl) Init_ New New).
  set (st1 := setDecls _ (setDecls _ st)).
  assert (Hs1 : Scopes st1 !! sc = Some s) by exact Hs.
  assert (Hc1 : CurrentScope st1 = Some sc) by exact Hc.
  assert (Hb1 : findIdIn st1 (Some sc)
                  (Elaborator.getIdentifier (F0 :: Dcl)) = Bound)
    by reflexivity.
  destruct (isNamespaceScope s || isParameterScope s).
  - rewrite bind_assoc.
    step ltac:(eapply findDeclId_Ok, Hs1). rewrite Hb1.
    destruct Bound as [Old|].
    + destruct (Hv eq_refl Old eq_refl) as [o Ho]. rewrite Ho.
      step ltac:(eapply (setPreviousDecl_Ok st1 (Decls st) _ Old o);
                 [reflexivity|exact Ho]).
      step ltac:(rewrite getCurrentScope_Ok; reflexivity).
      cbn [CurrentScope setDecls]. rewrite Hc1.
      erewrite addDecl_Ok;
        [|exact Hs|cbn; apply list_lookup_snoc; rewrite length_insert;
                   reflexivity].
      reflexivity.
    + step ltac:(reflexivity).
      step ltac:(rewrite getCurrentScope_Ok; reflexivity).
      rewrite Hc1.
      erewrite addDecl_Ok;
        [|exact Hs1|cbn; apply list_lookup_snoc; reflexivity].
      reflexivity.
  - step ltac:(reflexivity).
    step ltac:(rewrite getCurrentScope_Ok; reflexivity).
    rewrite Hc1.
    erewrite addDecl_Ok; [|exact Hs1|cbn; apply list_lookup_snoc; reflexivity].
    reflexivity.
Qed.

Lemma blockScope_kind s :
  isBlockScope s = true →
  isParameterScope s = false ∧ isNamespaceScope s = false.
Proof.
  unfold isBlockScope, isParameterScope, isNamespaceScope.
  destruct (Kind s); simpl; intros; split; congruence.
Qed.

Lemma makeDeclarator_identifier st a x :
  Elaborator.lookupTagName H st x = false →
  Elaborator.makeDeclarator H (AtomSyntax a x) st
  = Ok ([DK_Identifier (AtomSyntax a x)], st).
Proof.
  intros E. unfold Elaborator.makeDeclarator. simpl. rewrite E. reflexivity.
Qed.

(** C2. In block scope, identifying an [operator'='] form whose name is
    bound in the current scope changes nothing: no Declaration is created
    and the bindings stay as they are.  So when [x] is not bound yet (and is
    not a tag name), [x = e1] followed by [x = e2] adds exactly one
    Declaration, named [x], and the second form adds none. *)
Theorem identifyDecl_block_reassignment :
  (∀ st sc s a b c Decl_ Init_ rest Dcl x,
     CurrentScope st = Some sc → Scopes st !! sc = Some s →
     isBlockScope s = true →
     Elaborator.makeDeclarator H Decl_ st = Ok (Dcl, st) →
     Elaborator.getIdentifier Dcl = Some x →
     is_Some (IdMap s !! x) →
     Elaborator.identifyDecl H
       (CallSyntax a (AtomSyntax b "operator'='")
          (ListSyntax c (Decl_ :: Init_ :: rest))) st
     = Ok (tt, st))
  ∧ (∀ st sc s x a1 b1 c1 n1 e1 a2 b2 c2 n2 e2,
       CurrentScope st = Some sc → Scopes st !! sc = Some s →
       isBlockScope s = true →
       (∀ st', Elaborator.lookupTagName H st' x = false) →
       findIdIn st (Some sc) (Some x) = None →
       ∃ st1 d,
         Elaborator.identifyDecl H
           (CallSyntax a1 (AtomSyntax b1 "operator'='")
              (ListSyntax c1 [AtomSyntax n1 x; e1])) st
         = Ok (tt, st1)
         ∧ Elaborator.identifyDecl H
             (CallSyntax a2 (AtomSyntax b2 "operator'='")
                (ListSyntax c2 [AtomSyntax n2 x; e2])) st1
           = Ok (tt, st1)
         ∧ Decls st1 = Decls st ++ [d]
         ∧ Id d = Some x).
Proof.
  split.
  - intros st sc s a b c Decl_ Init_ rest Dcl x Hc Hs Hb Hm Hx [D HD].
    destruct (blockScope_kind s Hb) as [Hp Hn].
    erewrite identifyDecl_unfold; [|exact Hc|exact Hs|reflexivity|exact Hm|..].
    + rewrite Hx. unfold findIdIn.
      erewrite lookupFrom_here by eauto.
      unfold returnsEarly. rewrite Hb. reflexivity.
    + intros ->. discriminate.
    + rewrite Hp. reflexivity.
    + rewrite Hp, Hn. discriminate.
  - intros st sc s x a1 b1 c1 n1 e1 a2 b2 c2 n2 e2 Hc Hs Hb Ht Hf.
    destruct (blockScope_kind s Hb) as [Hp Hn].
    assert (Hlt : sc < length (Scopes st)) by (eapply lookup_lt_Some; eauto).
    eexists _, _. split; [|split; [|split]].
    + erewrite identifyDecl_unfold;
        [|exact Hc|exact Hs|reflexivity
         |apply makeDeclarator_identifier, Ht|discriminate
         |rewrite Hp; reflexivity|rewrite Hp, Hn; discriminate].
      cbn [Elaborator.getIdentifier getId]. rewrite Hf.
      unfold returnsEarly. rewrite Hn, Hp, Hb. reflexivity.
    + erewrite identifyDecl_unfold;
        [|exact Hc|cbn; apply list_lookup_insert_eq, Hlt|reflexivity
         |apply makeDeclarator_identifier, Ht|discriminate
         |change (isParameterScope _) with (isParameterScope s);
          rewrite Hp; reflexivity
         |change (isNamespaceScope _) with (isNamespaceScope s);
          change (isParameterScope _) with (isParameterScope s);
          rewrite Hp, Hn; discriminate].
      cbn [Elaborator.getIdentifier getId]. unfold findIdIn.
      erewrite lookupFrom_here;
        [|cbn; apply list_lookup_insert_eq, Hlt
         |cbn; apply lookup_insert_eq].
      unfold returnsEarly.
      change (isBlockScope _) with (isBlockScope s). rewrite Hb. reflexivity.
    + reflexivity.
    + reflexivity.
Qed.

Lemma declared_lookup st sc s ds d :
  Scopes st !! sc = Some s →
  findDeclIn (declared st sc s ds d) (Some sc) (Op d)
  = Some (length (Decls st)).
Proof.
  intros Hs.
  assert (Hlt : sc < length (Scopes st)) by (eapply lookup_lt_Some; eauto).
  unfold findDeclIn. eapply lookupFrom_here.
  - cbn. apply list_lookup_insert_eq, Hlt.
  - cbn. apply lookup_insert_eq.
Qed.

Lemma declared_lookup_id st sc s ds d x :
  Scopes st !! sc = Some s → Id d = Some x →
  findIdIn (declared st sc s ds d) (Some sc) (Some x)
  = Some (length (Decls st)).
Proof.
  intros Hs Hx.
  assert (Hlt : sc < length (Scopes st)) by (eapply lookup_lt_Some; eauto).
  unfold findIdIn. eapply lookupFrom_here.
  - cbn. apply list_lookup_insert_eq, Hlt.
  - cbn. rewrite Hx. apply lookup_insert_eq.
Qed.

(** C3. In namespace or parameter scope, identifying a declaration whose
    name is bound to the Declaration [Old] creates one more Declaration,
    bound to the node and to the name.  [Old] is linked to it through
    [Next], nothing else is changed, and the links of the new Declaration
    are the head [First] of the chain of [Old]; when [Old] is the first
    declaration of the name, the new Declaration points at [Old]. *)
Theorem identifyDecl_redeclaration st sc s a b Op_ Args Decl_ Init_ OpEq Dcl
    x Old o :
  let S := CallSyntax a (AtomSyntax b Op_) Args in
  let New := length (Decls st) in
  CurrentScope st = Some sc → Scopes st !! sc = Some s →
  isNamespaceScope s || isParameterScope s = true →
  Elaborator.unpackDeclarator S Op_ Args st
  = Ok (Some (Decl_, Init_, OpEq), st) →
  Elaborator.makeDeclarator H Decl_ st = Ok (Dcl, st) →
  Elaborator.getIdentifier Dcl = Some x →
  findIdIn st (Some sc) (Some x) = Some Old →
  Decls st !! Old = Some o →
  ∃ st',
    Elaborator.identifyDecl H S st = Ok (tt, st')
    ∧ length (Decls st') = New + 1
    ∧ Decls st' !! New
      = Some (mkDeclaration (head (DeclStack st)) S Dcl Init_ None (Some x)
                None (First o) (First o))
    ∧ Decls st' !! Old = Some (setNext o New)
    ∧ (∀ D, D ≠ Old → D ≠ New → Decls st' !! D = Decls st !! D)
    ∧ findDeclIn st' (CurrentScope st') S = Some New
    ∧ findIdIn st' (CurrentScope st') (Some x) = Some New
    ∧ (First o = Old →
       ∃ d, Decls st' !! New = Some d ∧ First d = Old ∧ Next d = Old).
Proof.
  intros S New Hc Hs Hk Hu Hm Hx Hf Ho.
  assert (Hlt : Old < length (Decls st)) by (eapply lookup_lt_Some; eauto).
  assert (Hi : isIdentifier Dcl = true).
  { unfold Elaborator.getIdentifier, getId in Hx.
    destruct Dcl as [|[] ?]; try discriminate. reflexivity. }
  eexists. split.
  { unfold S.
    erewrite identifyDecl_unfold; [|exact Hc|exact Hs|exact Hu|exact Hm|..].
    - rewrite Hx, Hf, Hk, Ho. unfold returnsEarly.
      replace (isBlockScope s) with false; [reflexivity|].
      unfold isNamespaceScope, isParameterScope, isBlockScope in *.
      destruct (Kind s); simpl in *; congruence.
    - intros ->. discriminate.
    - rewrite Hi. apply andb_false_r.
    - intros _ Old'. rewrite Hx, Hf. intros [= <-]. eauto. }
  fold S New.
  assert (Hnew : (<[Old := setNext o New]> (Decls st)
                  ++ [identified st S Dcl Init_ (First o) (First o)]) !! New
                 = Some (mkDeclaration (head (DeclStack st)) S Dcl Init_ None
                           (Some x) None (First o) (First o))).
  { rewrite list_lookup_snoc by (rewrite length_insert; reflexivity).
    unfold identified. rewrite Hx. reflexivity. }
  split; [|split; [|split; [|split; [|split; [|split]]]]].
  - cbn. rewrite length_app, length_insert. reflexivity.
  - exact Hnew.
  - cbn. apply lookup_app_l_Some, list_lookup_insert_eq, Hlt.
  - intros D HD HN. cbn.
    destruct (decide (D < New)) as [Hl|Hl].
    + rewrite lookup_app_l by (rewrite length_insert; exact Hl).
      apply list_lookup_insert_ne. congruence.
    + rewrite lookup_ge_None_2
        by (rewrite length_app, length_insert; simpl; unfold New in *; lia).
      symmetry. apply lookup_ge_None_2. unfold New in *. lia.
  - cbn [CurrentScope declared setScopes setDecls]. rewrite Hc.
    apply (declared_lookup st sc s _
             (identified st S Dcl Init_ (First o) (First o))), Hs.
  - cbn [CurrentScope declared setScopes setDecls]. rewrite Hc.
    apply declared_lookup_id; [exact Hs|exact Hx].
  - intros HF. eexists. split; [exact Hnew|]. split; exact HF.
Qed.

(** C9. In block scope, the bare declaration [x : T] of a name that is
    already bound creates a new Declaration all the same: it is allocated
    after the existing Declarations, which are left as they are, its links
    [First] and [Next] designate itself (no redeclaration chain), and it is
    bound to the node and to the name in the scope. *)
Theorem identifyDecl_block_redeclaration st sc s a b Args Dcl x Old :
  let S := CallSyntax a (AtomSyntax b "operator':'") Args in
  let New := length (Decls st) in
  CurrentScope st = Some sc → Scopes st !! sc = Some s →
  isBlockScope s = true →
  Elaborator.makeDeclarator H S st = Ok (Dcl, st) →
  Elaborator.getIdentifier Dcl = Some x →
  findIdIn st (Some sc) (Some x) = Some Old →
  ∃ st',
    Elaborator.identifyDecl H S st = Ok (tt, st')
    ∧ Decls st'
      = Decls st ++ [mkDeclaration (head (DeclStack st)) S Dcl None None
                       (Some x) None New New]
    ∧ findDeclIn st' (CurrentScope st') S = Some New
    ∧ findIdIn st' (CurrentScope st') (Some x) = Some New.
Proof.
  intros S New Hc Hs Hb Hm Hx Hf.
  destruct (blockScope_kind s Hb) as [Hp Hn].
  eexists. split.
  { unfold S.
    erewrite identifyDecl_unfold;
      [|exact Hc|exact Hs|reflexivity|exact Hm|..].
    - unfold returnsEarly. rewrite Hn, Hp, andb_false_r, andb_false_r.
      reflexivity.
    - intros ->. discriminate.
    - rewrite Hp. reflexivity.
    - rewrite Hp, Hn. discriminate. }
  fold S New. split; [|split].
  - cbn. unfold identified. rewrite Hx. reflexivity.
  - cbn [CurrentScope declared setScopes setDecls]. rewrite Hc.
    apply (declared_lookup st sc s _ (identified st S Dcl None New New)), Hs.
  - cbn [CurrentScope declared setScopes setDecls]. rewrite Hc.
    apply declared_lookup_id; [exact Hs|exact Hx].
Qed.

End Identification.


(** ** The declarator builder *)

Section Declarators.

Context (H : Host).

(** C7. For a leaf node the tag-name lookup against the current scopes
    decides the fragment: when the lookup resolves the spelling the builder
    prepends a Type fragment holding the leaf, otherwise an Identifier
    fragment holding the leaf; the rest of the chain is the given one and the
    state is not changed. *)
Theorem makeDeclarator_leaf (st : Sema) (a : nat) (sp : string)
    (Next : Declarator) :
  makeDeclaratorWith (Elaborator.lookupTagName H st) (AtomSyntax a sp) Next
  = Ok ((if Elaborator.lookupTagName H st sp
         then DK_Type None (Some (AtomSyntax a sp))
         else DK_Identifier (AtomSyntax a sp)) :: Next)
  ∧ Elaborator.makeDeclarator H (AtomSyntax a sp) st
    = Ok ([if lookupUnqualifiedName H sp (CurrentScope st) st
           then DK_Type None (Some (AtomSyntax a sp))
           else DK_Identifier (AtomSyntax a sp)], st).
Proof.
  unfold Elaborator.makeDeclarator, Elaborator.lookupTagName. simpl.
  destruct (lookupUnqualifiedName H sp (CurrentScope st) st); auto.
Qed.




End Declarators.

(** [x = 3] then [x = 4] in a block: the second form changes nothing, and
    the block holds one Declaration besides the file's. *)
Lemma identifyDecl_block_reassignment_witness :
  let st := Examples.after
              (Elaborator.identifyDecl SampleHost.host Examples.x_equals_3)
              (Examples.inScope SK_Block) in
  Id <$> Decls st = [None; Some "x"]
  ∧ Elaborator.identifyDecl SampleHost.host Examples.x_equals_4 st
    = Ok (tt, st).
Proof.
  split; [reflexivity|].
  eapply (proj1 (identifyDecl_block_reassignment SampleHost.host))
    with (sc := 1) (x := "x"); try reflexivity.
  eexists. vm_compute. reflexivity.
Defined.

(** [x : int] twice at the top of a file: the second Declaration points at
    the first, and the first one's [Next] is the second. *)
Lemma identifyDecl_redeclaration_witness :
  let st := Examples.after
              (Elaborator.identifyDecl SampleHost.host Examples.x_int)
              (Examples.after (Elaborator.startFile (FileSyntax 1 []))
                 initialSema) in
  ∃ st' d1 d2,
    Elaborator.identifyDecl SampleHost.host Examples.x_int_again st
    = Ok (tt, st')
    ∧ Decls st' !! 1 = Some d1 ∧ Decls st' !! 2 = Some d2
    ∧ Next d1 = 2 ∧ First d2 = 1 ∧ Next d2 = 1.
Proof.
  intros st.
  destruct (identifyDecl_redeclaration SampleHost.host st 0
              (mkScope SK_Namespace None (FileSyntax 1 [])
                 {[10 := 1]} {["x" := 1]})
              20 21 "operator':'"
              (ListSyntax 22 [AtomSyntax 23 "x"; AtomSyntax 24 "int"])
              Examples.x_int_again None false
              [DK_Identifier (AtomSyntax 23 "x");
               DK_Type (Some Examples.x_int_again) (Some (AtomSyntax 24 "int"))]
              "x" 1
              (mkDeclaration (Some 0) Examples.x_int
                 [DK_Identifier (AtomSyntax 13 "x");
                  DK_Type (Some Examples.x_int) (Some (AtomSyntax 14 "int"))]
                 None None (Some "x") None 1 1))
    as (st' & Hrun & _ & Hnew & Hold & _ & _ & _ & Hpoint);
    try (vm_compute; reflexivity).
  destruct (Hpoint eq_refl) as (d2 & Hd2 & HF & HN).
  eexists st', _, d2.
  split; [exact Hrun|]. split; [exact Hold|]. split; [exact Hd2|].
  split; [reflexivity|]. split; [exact HF|exact HN].
Defined.

(** [x : int] twice in a block: two Declarations, each the head of its own
    chain. *)
Lemma identifyDecl_block_redeclaration_witness :
  let st := Examples.after
              (Elaborator.identifyDecl SampleHost.host Examples.x_int)
              (Examples.inScope SK_Block) in
  ∃ st' d1 d2,
    Elaborator.identifyDecl SampleHost.host Examples.x_int_again st
    = Ok (tt, st')
    ∧ Decls st' !! 1 = Some d1 ∧ Decls st' !! 2 = Some d2
    ∧ First d1 = 1 ∧ Next d1 = 1 ∧ First d2 = 2 ∧ Next d2 = 2.
Proof.
  intros st.
  destruct (identifyDecl_block_redeclaration SampleHost.host st 1
              (mkScope SK_Block (Some 0) (AtomSyntax 2 "anchor")
                 {[10 := 1]} {["x" := 1]})
              20 21
              (ListSyntax 22 [AtomSyntax 23 "x"; AtomSyntax 24 "int"])
              [DK_Identifier (AtomSyntax 23 "x");
               DK_Type (Some Examples.x_int_again) (Some (AtomSyntax 24 "int"))]
              "x" 1)
    as (st' & Hrun & HD & _); try (vm_compute; reflexivity).
  exists st'. rewrite HD. eexists _, _.
  split; [exact Hrun|]. repeat split; reflexivity.
Defined.

(** ** Parameter scope *)

(** In parameter scope the definition form [x ! e] stops the elaborator. *)
Lemma identifyDecl_definition_in_parameter_scope (H : Host) st sc s a b c cs :
  CurrentScope st = Some sc → Scopes st !! sc = Some s →
  isParameterScope s = true →
  Elaborator.identifyDecl H
    (CallSyntax a (AtomSyntax b "operator'!'") (ListSyntax c cs)) st
  = Abort "Function definition".
Proof.
  intros Hc Hs Hp. unfold Elaborator.identifyDecl.
  apply bind_Abort. unfold Elaborator.unpackDeclarator. simpl.
  step ltac:(rewrite getCurrentScope_Ok, Hc; reflexivity).
  step ltac:(apply derefScope_Ok, Hs).
  rewrite Hp. reflexivity.
Qed.

(** C6, on the code.  In a parameter scope the form [x : int = 0] is
    identified like any declaration: a Declaration holding the default value
    as its initializer is created and nothing is reported.  The form [x ! e]
    stops the elaborator at the assertion; it is not reported and the run
    does not continue. *)
Theorem identifyDecl_parameter_scope_forms :
  let st := Examples.inScope SK_Parameter in
  (∃ st' d,
     Elaborator.identifyDecl SampleHost.host Examples.x_int_default st
     = Ok (tt, st')
     ∧ Decls st' = Decls st ++ [d]
     ∧ Id d = Some "x" ∧ Init d = Some (AtomSyntax 38 "0")
     ∧ Diags st' = [] ∧ Errs st' = [])
  ∧ Elaborator.identifyDecl SampleHost.host Examples.x_bang st
    = Abort "Function definition".
Proof.
  split.
  - eexists _, _. split; [vm_compute; reflexivity|].
    repeat split; reflexivity.
  - vm_compute. reflexivity.
Qed.

(** ** Nodes that declare nothing *)

(** C10. When the current scope binds no Declaration to the node, the type
    pass and the initializer pass return at once: the state is the one they
    were given, so no host object is created, nothing is reported and no
    scope or Declaration is changed. *)
Theorem elaborate_unbound_node (H : Host) st sc s S :
  CurrentScope st = Some sc → Scopes st !! sc = Some s →
  findDeclIn st (CurrentScope st) S = None →
  Elaborator.elaborateDeclType H S st = Ok (None, st)
  ∧ Elaborator.elaborateDeclInit H S st = Ok (tt, st).
Proof.
  intros Hc Hs Hf. rewrite Hc in Hf.
  unfold Elaborator.elaborateDeclType, Elaborator.elaborateDeclInit. split.
  - step ltac:(rewrite getCurrentScope_Ok, Hc; reflexivity).
    step ltac:(eapply findDecl_Ok, Hs). rewrite Hf. reflexivity.
  - step ltac:(rewrite getCurrentScope_Ok, Hc; reflexivity).
    step ltac:(eapply findDecl_Ok, Hs). rewrite Hf. reflexivity.
Qed.

(** The call [g()] at the top of a file declares nothing; both passes leave
    the state alone. *)
Lemma elaborate_unbound_node_witness :
  let st := Examples.after
              (Elaborator.identifyDecl SampleHost.host
                 (Examples.call0 10 "g"))
              (Examples.after (Elaborator.startFile (FileSyntax 1 []))
                 initialSema) in
  findDeclIn st (CurrentScope st) (Examples.call0 10 "g") = None
  ∧ Elaborator.elaborateDeclType SampleHost.host (Examples.call0 10 "g") st
    = Ok (None, st)
  ∧ Elaborator.elaborateDeclInit SampleHost.host (Examples.call0 10 "g") st
    = Ok (tt, st).
Proof.
  split; [reflexivity|].
  eapply (elaborate_unbound_node SampleHost.host) with (sc := 0);
    reflexivity.
Defined.

(** ** Initializers *)

(** A variable without an initializer: the initializer pass returns without
    a report, whatever the type of the variable. *)
Lemma elaborateVariableInit_no_initializer (H : Host) st D d C c :
  Decls st !! D = Some d → Init d = None →
  Cxx d = Some C → CxxAST st !! C = Some c →
  Elaborator.isaVarDecl (CKind c) = true →
  Elaborator.elaborateVariableInit H D st = Ok (tt, st).
Proof.
  intros Hd Hi Hx Hc Hk. unfold Elaborator.elaborateVariableInit.
  step ltac:(apply getDecl_Ok, Hd). rewrite Hx.
  step ltac:(unfold Elaborator.castTo;
             erewrite bind_Ok by (apply getCxx_Ok, Hc);
             rewrite Hk; reflexivity).
  rewrite Hi. reflexivity.
Qed.

(** A declaration without a host object: the initializer pass of a variable
    returns at once. *)
Lemma elaborateVariableInit_skips (H : Host) st D d :
  Decls st !! D = Some d → Cxx d = None →
  Elaborator.elaborateVariableInit H D st = Ok (tt, st).
Proof.
  intros Hd Hx. unfold Elaborator.elaborateVariableInit.
  step ltac:(apply getDecl_Ok, Hd). rewrite Hx. reflexivity.
Qed.

(** C4, on the code.  The file [x : auto] is elaborated to the end: the
    variable [x] is created with the undeduced type, it has no initializer,
    and neither a diagnostic nor a line on the error stream is produced. *)
Theorem auto_without_initializer_unreported :
  ∃ st' x,
    Elaborator.elaborateFile SampleHost.host Examples.auto_file initialSema
    = Ok (getTranslationUnitDecl, st')
    ∧ CxxAST st' !! 1 = Some x
    ∧ CKind x = VarDecl ∧ CName x = Some "x"
    ∧ CType x = Some AutoType ∧ CInit x = None
    ∧ Diags st' = [] ∧ Errs st' = [].
Proof.
  eexists _, _. split; [vm_compute; reflexivity|].
  repeat split; reflexivity.
Qed.

(** ** Types that cannot be translated *)

(** A variable whose type the bridge cannot translate: the error is reported
    once, at the declaration, and the elaborator changes nothing else in the
    state the bridge left. *)
Lemma elaborateVariableDecl_untranslatable (H : Host) st st1 sc s D0 d0 C d D :
  CurrentScope st = Some sc → Scopes st !! sc = Some s →
  isParameterScope s = false →
  head (DeclStack st) = Some D0 → Decls st !! D0 = Some d0 →
  Cxx d0 = Some C →
  elaborateTypeExpr H D st = Ok (IsExpr None, st1) →
  Decls st1 !! D = Some d →
  Elaborator.elaborateVariableDecl H D st
  = Ok (None,
        setDiags
          (Diags st1
           ++ [mkDiagnostic (getLoc (Op d)) err_failed_to_translate_type])
          st1).
Proof.
  intros Hc Hs Hp Hh H0 HC Ht Hd. unfold Elaborator.elaborateVariableDecl.
  step ltac:(rewrite getCurrentScope_Ok, Hc; reflexivity).
  step ltac:(apply derefScope_Ok, Hs). rewrite Hp.
  step ltac:(unfold getCurrentCxxDeclContext, getCurrentDecl;
             erewrite bind_Ok by reflexivity; rewrite Hh;
             erewrite bind_Ok by (apply getDecl_Ok, H0);
             rewrite HC; reflexivity).
  step ltac:(exact Ht).
  step ltac:(apply getDecl_Ok, Hd).
  reflexivity.
Qed.

(** A function whose host object is absent: the definition pass stops at
    the cast of the null handle, before it looks at the initializer. *)
Lemma elaborateDef_function_absent_handle (H : Host) st D d :
  Decls st !! D = Some d → declaresFunction d = true → Cxx d = None →
  Elaborator.elaborateDef H D st = Abort "isa<> used on a null pointer".
Proof.
  intros Hd Hf Hx. unfold Elaborator.elaborateDef.
  step ltac:(apply getDecl_Ok, Hd). rewrite Hf.
  unfold Elaborator.elaborateFunctionDef.
  step ltac:(apply getDecl_Ok, Hd). rewrite Hx. reflexivity.
Qed.

(** C5, on the code.  In the file [f() : nosuch ! body] the return type of
    [f] cannot be translated.  The type pass reports the error once and
    leaves the Declaration of [f] without a host object, but the definition
    pass does not skip the Declaration: it casts the absent host object and
    the elaborator stops there.  For the variable [v : nosuch = 1] the
    definition pass returns at once. *)
Theorem untranslatable_function_not_skipped :
  let st := Examples.typed Examples.nosuch_file in
  (∃ f, Decls st !! 1 = Some f
        ∧ Id f = Some "f" ∧ declaresFunction f = true ∧ Cxx f = None)
  ∧ Diags st = [mkDiagnostic 10 err_failed_to_translate_type]
  ∧ Elaborator.elaborateDeclInit SampleHost.host Examples.f_nosuch st
    = Abort "isa<> used on a null pointer"
  ∧ Elaborator.elaborateFile SampleHost.host Examples.nosuch_file initialSema
    = Abort "isa<> used on a null pointer"
  ∧ let sv := Examples.typed (FileSyntax 1 [Examples.v_nosuch]) in
    Diags sv = [mkDiagnostic 10 err_failed_to_translate_type]
    ∧ Elaborator.elaborateDeclInit SampleHost.host Examples.v_nosuch sv
      = Ok (tt, sv).
Proof.
  split; [eexists; split; [reflexivity|]; repeat split; reflexivity|].
  repeat split; vm_compute; reflexivity.
Qed.

(** ** The pipeline *)

Lemma bind_ext {A B} (m : M A) (k k' : A → M B) st :
  (∀ a st', k a st' = k' a st') → bind m k st = bind m k' st.
Proof.
  intros E. unfold bind. destruct (m st) as [[a st']|]; [apply E|reflexivity].
Qed.

Lemma bind_ret_l {A B} (a : A) (k : A → M B) st : bind (ret a) k st = k a st.
Proof. reflexivity. Qed.

Lemma bind_ext_l {A B} (m m' : M A) (k : A → M B) st :
  (∀ st, m st = m' st) → bind m k st = bind m' k st.
Proof. intros E. unfold bind. rewrite E. reflexivity. Qed.

Section Pipeline.

Context (H : Host) (file : list Syntax).

Lemma pipelineRun_Done n st :
  pipelineRun H file n (Done, []) st = Ok ((Done, []), st).
Proof. induction n as [|n IH]; [reflexivity|]. simpl. apply IH. Qed.

Lemma pipelineRun_InitElaborate pend k st :
  pipelineRun H file (length pend + 1 + k) (InitElaborate, pend) st
  = (forEach pend (Elaborator.elaborateDeclInit H) ;; ret (Done, [])) st.
Proof.
  revert st. induction pend as [|SS rest IH]; intros st.
  - simpl. apply pipelineRun_Done.
  - cbn [length Nat.add pipelineRun pipelineStep forEach].
    rewrite !bind_assoc. apply bind_ext. intros _ st'.
    rewrite bind_ret_l. apply IH.
Qed.

Lemma pipelineRun_TypeElaborate pend k st :
  pipelineRun H file (length pend + 1 + k) (TypeElaborate, pend) st
  = (forEach pend (λ SS, Elaborator.elaborateDeclType H SS ;; ret tt) ;;
     pipelineRun H file k (InitElaborate, file)) st.
Proof.
  revert st. induction pend as [|SS rest IH]; intros st.
  - reflexivity.
  - cbn [length Nat.add pipelineRun pipelineStep forEach].
    rewrite !bind_assoc. apply bind_ext. intros _ st'.
    rewrite !bind_ret_l. apply IH.
Qed.

Lemma pipelineRun_Identify pend k st :
  pipelineRun H file (length pend + 1 + k) (Identify, pend) st
  = (forEach pend (Elaborator.identifyDecl H) ;;
     pipelineRun H file k (TypeElaborate, file)) st.
Proof.
  revert st. induction pend as [|SS rest IH]; intros st.
  - reflexivity.
  - cbn [length Nat.add pipelineRun pipelineStep forEach].
    rewrite !bind_assoc. apply bind_ext. intros _ st'.
    rewrite bind_ret_l. apply IH.
Qed.

(** The machine, started in Identify with the whole file pending, runs the
    three passes one after the other and stops in Done. *)
Lemma pipelineRun_passes st :
  pipelineRun H file (3 * (length file + 1)) (Identify, file) st
  = (passes H file ;; ret (Done, [])) st.
Proof.
  replace (3 * (length file + 1))
    with (length file + 1 + (length file + 1 + (length file + 1 + 0)))
    by lia.
  rewrite pipelineRun_Identify. unfold passes.
  rewrite !bind_assoc. apply bind_ext. intros _ st1.
  rewrite pipelineRun_TypeElaborate.
  rewrite !bind_assoc. apply bind_ext. intros _ st2.
  apply pipelineRun_InitElaborate.
Qed.

End Pipeline.

(** ** What the runs keep *)

Global Instance grows_preorder : PreOrder grows.
Proof.
  split.
  - intros st. unfold grows. eauto 10.
  - intros st1 st2 st3 (S1 & D1 & C1) (S2 & D2 & C2). split; [|split].
    + eauto.
    + intros D d Hd. destruct (D1 D d Hd) as (d' & Hd' & E').
      destruct (D2 D d' Hd') as (d'' & Hd'' & E''). exists d''.
      split; [exact Hd''|congruence].
    + intros C c Hc. destruct (C1 C c Hc) as (c' & Hc' & E').
      destruct (C2 C c' Hc') as (c'' & Hc'' & E''). exists c''.
      split; [exact Hc''|congruence].
Qed.

Global Instance keeps_preorder : PreOrder keeps.
Proof.
  split.
  - intros st. split; [reflexivity|]. split; reflexivity.
  - intros st1 st2 st3 (A1 & G1 & M1) (A2 & G2 & M2).
    split; [congruence|]. split; [etrans; eauto|congruence].
Qed.

Global Instance keepsAST_preorder : PreOrder keepsAST.
Proof.
  split.
  - intros st. split; [eauto|reflexivity].
  - intros st1 st2 st3 (C1 & M1) (C2 & M2). split; [|congruence].
    intros C c Hc. destruct (C1 C c Hc) as (c' & Hc' & E').
    destruct (C2 C c' Hc') as (c'' & Hc'' & E''). exists c''.
    split; [exact Hc''|congruence].
Qed.

Global Instance identifies_preorder n : PreOrder (identifies n).
Proof.
  split.
  - intros st. unfold identifies. auto.
  - intros st1 st2 st3 (A1 & B1 & C1 & D1) (A2 & B2 & C2 & D2).
    unfold identifies. repeat split; try congruence. auto.
Qed.

Lemma keeps_keepsAST st st' : keeps st st' → keepsAST st st'.
Proof. intros (_ & (_ & _ & C) & Hm). split; assumption. Qed.

Lemma preserves_ret R `{!Reflexive R} {A} (a : A) : preserves R (ret a).
Proof. intros st a' st' [= _ <-]. reflexivity. Qed.

Lemma preserves_abort R {A} w : preserves R (@abort A w).
Proof. intros st a st' [=]. Qed.

Lemma preserves_bind R `{!Transitive R} {A B} (m : M A) (k : A → M B) :
  preserves R m → (∀ a, preserves R (k a)) → preserves R (bind m k).
Proof.
  intros Hm Hk st b st2 Hrun.
  apply bind_inv in Hrun as (a & st1 & H1 & H2).
  etrans; [eapply Hm, H1|eapply Hk, H2].
Qed.

Lemma preserves_weaken (R R' : Sema → Sema → Prop) {A} (m : M A) :
  (∀ st st', R st st' → R' st st') → preserves R m → preserves R' m.
Proof. intros HR Hm st a st' Hrun. eapply HR, Hm, Hrun. Qed.

Lemma preserves_read R `{!Reflexive R} {A} (m : M A) :
  preserves eq m → preserves R m.
Proof. apply preserves_weaken. intros st st' <-. reflexivity. Qed.

Lemma preserves_forEach R `{!PreOrder R} {A} (l : list A) (f : A → M unit) :
  (∀ x, preserves R (f x)) → preserves R (forEach l f).
Proof.
  intros Hf. induction l as [|x l IH]; simpl.
  - apply preserves_ret; apply _.
  - apply preserves_bind; [apply _|apply Hf|intros _; apply IH].
Qed.

Lemma preserves_collect R `{!PreOrder R} {A B} (l : list A) (f : A → M B) :
  (∀ x, preserves R (f x)) → preserves R (collect l f).
Proof.
  intros Hf. induction l as [|x l IH]; simpl.
  - apply preserves_ret; apply _.
  - apply preserves_bind; [apply _|apply Hf|intros b].
    apply preserves_bind; [apply _|apply IH|intros bs].
    apply preserves_ret; apply _.
Qed.

(** Decomposition of a goal [preserves R m] along the structure of [m];
    the facts about the primitive operations are the hints of [pres]. *)
Create HintDb pres.

Ltac pres :=
  repeat first
    [ solve [auto with pres]
    | apply preserves_read; [apply _|solve [auto with pres]]
    | apply (preserves_weaken keeps keepsAST);
        [apply keeps_keepsAST|solve [auto with pres]]
    | apply preserves_ret; [apply _]
    | apply preserves_abort
    | apply preserves_bind; [apply _| |intros ?]
    | match goal with
      | |- preserves _ (match ?x with _ => _ end) => destruct x
      end ].

(** *** Reads *)

Lemma getDecl_read D : preserves eq (getDecl D).
Proof.
  intros st a st'. unfold getDecl. destruct (Decls st !! D); congruence.
Qed.

Lemma getCxx_read C : preserves eq (getCxx C).
Proof.
  intros st a st'. unfold getCxx. destruct (CxxAST st !! C); congruence.
Qed.

Lemma derefScope_read r : preserves eq (derefScope r).
Proof.
  intros st a st'. unfold derefScope. destruct r as [i|]; [|congruence].
  destruct (Scopes st !! i); congruence.
Qed.

Lemma getCurrentScope_read : preserves eq getCurrentScope.
Proof. intros st a st' [= _ <-]. reflexivity. Qed.

Lemma get_read : preserves eq get.
Proof. intros st a st' [= _ <-]. reflexivity. Qed.

Lemma getCurrentDecl_read : preserves eq getCurrentDecl.
Proof. intros st a st' [= _ <-]. reflexivity. Qed.

#[export] Hint Resolve getDecl_read getCxx_read derefScope_read
  getCurrentScope_read get_read getCurrentDecl_read : pres.

Lemma findDecl_read Sc S : preserves eq (findDecl Sc S).
Proof. unfold findDecl. pres. Qed.

Lemma findDeclId_read Sc I : preserves eq (findDeclId Sc I).
Proof. unfold findDeclId. pres. Qed.

Lemma getCurrentCxxDeclContext_read : preserves eq getCurrentCxxDeclContext.
Proof. unfold getCurrentCxxDeclContext. pres. Qed.

Lemma getTypeSourceInfo_read E :
  preserves eq (Elaborator.getTypeSourceInfo E).
Proof. unfold Elaborator.getTypeSourceInfo. pres. Qed.

Lemma getStorageClass_read : preserves eq Elaborator.getStorageClass.
Proof. unfold Elaborator.getStorageClass. pres. Qed.

Lemma castTo_read ok C : preserves eq (Elaborator.castTo ok C).
Proof. unfold Elaborator.castTo. pres. Qed.

Lemma getFunctionDeclaratorOf_read D :
  preserves eq (Elaborator.getFunctionDeclaratorOf D).
Proof.
  unfold Elaborator.getFunctionDeclaratorOf, Elaborator.getFunctionDeclarator.
  pres.
Qed.

#[export] Hint Resolve findDecl_read findDeclId_read
  getCurrentCxxDeclContext_read getTypeSourceInfo_read getStorageClass_read
  castTo_read getFunctionDeclaratorOf_read : pres.

Lemma getFunctionParameters_read D :
  preserves eq (Elaborator.getFunctionParameters D).
Proof.
  unfold Elaborator.getFunctionParameters. pres.
  apply preserves_collect; [apply _|]. intros P. pres.
Qed.

Lemma makeDeclarator_read H S : preserves eq (Elaborator.makeDeclarator H S).
Proof.
  intros st a st'. unfold Elaborator.makeDeclarator.
  destruct (makeDeclaratorWith _ _ _); congruence.
Qed.

Lemma unpackDeclarator_read S Op_ Args :
  preserves eq (Elaborator.unpackDeclarator S Op_ Args).
Proof.
  unfold Elaborator.unpackDeclarator.
  pres.
Qed.

#[export] Hint Resolve getFunctionParameters_read makeDeclarator_read
  unpackDeclarator_read : pres.

(** *** Changes that keep the objects *)

Lemma keeps_same st st' :
  CurrentScope st' = CurrentScope st → Scopes st' = Scopes st →
  Decls st' = Decls st → CxxAST st' = CxxAST st → keeps st st'.
Proof.
  intros Hc Hs Hd Ha. split; [exact Hc|]. split.
  - unfold grows. rewrite Hs, Hd, Ha. eauto 10.
  - unfold membersOf. rewrite Ha. reflexivity.
Qed.

Lemma keepsAST_same st st' : CxxAST st' = CxxAST st → keepsAST st st'.
Proof.
  intros Ha. split; [rewrite Ha; eauto|].
  unfold membersOf. rewrite Ha. reflexivity.
Qed.

Lemma modify_keeps f :
  (∀ st, CurrentScope (f st) = CurrentScope st) →
  (∀ st, Scopes (f st) = Scopes st) → (∀ st, Decls (f st) = Decls st) →
  (∀ st, CxxAST (f st) = CxxAST st) → preserves keeps (modify f).
Proof. intros ? ? ? ? st a st' [= _ <-]. apply keeps_same; auto. Qed.

Lemma modify_keepsAST f :
  (∀ st, CxxAST (f st) = CxxAST st) → preserves keepsAST (modify f).
Proof. intros ? st a st' [= _ <-]. apply keepsAST_same; auto. Qed.

Lemma Report_keeps L I : preserves keeps (Report L I).
Proof. apply modify_keeps; reflexivity. Qed.

Lemma errs_keeps Line : preserves keeps (errs Line).
Proof. apply modify_keeps; reflexivity. Qed.

Lemma PushFunctionScope_keeps : preserves keeps PushFunctionScope.
Proof. apply modify_keeps; reflexivity. Qed.

Lemma newCxx_keeps c : Members c = [] → preserves keeps (newCxx c).
Proof.
  intros Hm st a st' [= _ <-]. split; [reflexivity|]. split.
  - split; [|split]; cbn; eauto using lookup_app_l_Some.
  - unfold membersOf, getTranslationUnitDecl. cbn.
    destruct (CxxAST st) as [|c0 l]; [cbn; exact Hm|reflexivity].
Qed.

(** Writing back an object of the host with its location and its members
    unchanged. *)
Lemma updateCxx_keeps C (f : CxxDecl → CxxDecl) :
  (∀ c, CLoc (f c) = CLoc c) → (∀ c, Members (f c) = Members c) →
  preserves keeps (c <- getCxx C ;; putCxx C (f c)).
Proof.
  intros HL HM st a st' Hrun.
  apply bind_inv in Hrun as (c & st1 & H1 & H2).
  unfold getCxx in H1. destruct (CxxAST st !! C) as [c0|] eqn:E; [|done].
  injection H1 as -> <-. injection H2 as _ <-.
  split; [reflexivity|]. split.
  - split; [|split]; cbn; eauto. intros C' c' Hc'.
    destruct (decide (C' = C)) as [->|Hne].
    + exists (f c). split; [|rewrite HL; congruence].
      apply list_lookup_insert_eq. eapply lookup_lt_Some, E.
    + exists c'. split; [|reflexivity].
      rewrite list_lookup_insert_ne by congruence. exact Hc'.
  - unfold membersOf. cbn.
    destruct (decide (getTranslationUnitDecl = C)) as [<-|Hne].
    + rewrite list_lookup_insert_eq by (eapply lookup_lt_Some, E).
      rewrite E, HM. reflexivity.
    + rewrite list_lookup_insert_ne by congruence. reflexivity.
Qed.

Lemma setParams_keeps FD Ps : preserves keeps (Elaborator.setParams FD Ps).
Proof.
  apply (updateCxx_keeps FD
           (λ c, mkCxxDecl (CKind c) (Owner c) (CLoc c) (CName c) (CType c)
                   (CStorage c) Ps (CBody c) (CInit c) (Members c)));
    reflexivity.
Qed.

Lemma setBody_keeps FD B : preserves keeps (Elaborator.setBody FD B).
Proof.
  apply (updateCxx_keeps FD
           (λ c, mkCxxDecl (CKind c) (Owner c) (CLoc c) (CName c) (CType c)
                   (CStorage c) (CParams c) (Some B) (CInit c) (Members c)));
    reflexivity.
Qed.

Lemma setType_keeps VD T : preserves keeps (Elaborator.setType VD T).
Proof.
  apply (updateCxx_keeps VD
           (λ c, mkCxxDecl (CKind c) (Owner c) (CLoc c) (CName c) T
                   (CStorage c) (CParams c) (CBody c) (CInit c) (Members c)));
    reflexivity.
Qed.

(** Writing back a declaration with its syntax unchanged. *)
Lemma updateDecl_keeps D (f : Declaration → Declaration) :
  (∀ d, Op (f d) = Op d) →
  preserves keeps (d <- getDecl D ;; putDecl D (f d)).
Proof.
  intros HO st a st' Hrun.
  apply bind_inv in Hrun as (d & st1 & H1 & H2).
  unfold getDecl in H1. destruct (Decls st !! D) as [d0|] eqn:E; [|done].
  injection H1 as -> <-. injection H2 as _ <-.
  split; [reflexivity|]. split; [|reflexivity].
  split; [|split]; cbn; eauto. intros D' d' Hd'.
  destruct (decide (D' = D)) as [->|Hne].
  - exists (f d). split; [|rewrite HO; congruence].
    apply list_lookup_insert_eq. eapply lookup_lt_Some, E.
  - exists d'. split; [|reflexivity].
    rewrite list_lookup_insert_ne by congruence. exact Hd'.
Qed.

Lemma setDeclCxx_keeps D C : preserves keeps (setDeclCxx D C).
Proof. apply (updateDecl_keeps D (λ d, setCxx d (Some C))). reflexivity. Qed.

#[export] Hint Resolve Report_keeps errs_keeps PushFunctionScope_keeps
  setParams_keeps setBody_keeps setType_keeps setDeclCxx_keeps : pres.

(** *** The definition pass adds nothing to the translation unit *)

Lemma pushDecl_keepsAST D : preserves keepsAST (pushDecl D).
Proof. apply modify_keepsAST. reflexivity. Qed.

Lemma popDecl_keepsAST : preserves keepsAST popDecl.
Proof.
  intros st a st'. unfold popDecl. destruct (DeclStack st); [done|].
  intros [= _ <-]. apply keepsAST_same. reflexivity.
Qed.

Lemma pushScope_keepsAST Sc : preserves keepsAST (pushScope Sc).
Proof.
  unfold pushScope. destruct Sc; [|apply preserves_abort].
  apply modify_keepsAST. reflexivity.
Qed.

Lemma enterScope_keepsAST K S : preserves keepsAST (enterScope K S).
Proof. intros st a st' [= _ <-]. apply keepsAST_same. reflexivity. Qed.

Lemma setCurrentScope_keepsAST c :
  preserves keepsAST (modify (setCurrentScope c)).
Proof. apply modify_keepsAST. reflexivity. Qed.

#[export] Hint Resolve pushDecl_keepsAST popDecl_keepsAST pushScope_keepsAST
  enterScope_keepsAST setCurrentScope_keepsAST : pres.

Lemma popScope_keepsAST : preserves keepsAST popScope.
Proof. unfold popScope. pres. Qed.

#[export] Hint Resolve popScope_keepsAST : pres.

Lemma leaveScope_keepsAST S : preserves keepsAST (leaveScope S).
Proof. unfold leaveScope. pres. Qed.

Lemma PopFunctionScopeInfo_keepsAST : preserves keepsAST PopFunctionScopeInfo.
Proof.
  intros st a st'. unfold PopFunctionScopeInfo.
  destruct (FunctionScopes st); [done|].
  intros [= _ <-]. apply keepsAST_same. reflexivity.
Qed.

#[export] Hint Resolve leaveScope_keepsAST PopFunctionScopeInfo_keepsAST
  : pres.

Section Independence.

Context (H : Host) (HI : Independent H).

Lemma host_type D : preserves keeps (elaborateTypeExpr H D).
Proof. apply HI. Qed.
Lemma host_main C : preserves keeps (CheckMain H C).
Proof. apply HI. Qed.
Lemma host_expr S : preserves keepsAST (elaborateExpr H S).
Proof. apply HI. Qed.
Lemma host_block S : preserves keepsAST (elaborateBlock H S).
Proof. apply HI. Qed.
Lemma host_redefinition D : preserves keepsAST (checkForRedefinition H D).
Proof. apply HI. Qed.
Lemma host_initializer C E : preserves keepsAST (AddInitializerToDecl H C E).
Proof. apply HI. Qed.

Local Hint Resolve host_type host_main host_expr host_block
  host_redefinition host_initializer : pres.

Lemma elaborateDeclInit_keepsAST S :
  preserves keepsAST (Elaborator.elaborateDeclInit H S).
Proof.
  unfold Elaborator.elaborateDeclInit, Elaborator.elaborateDef,
    Elaborator.elaborateFunctionDef, Elaborator.elaborateVariableInit.
  pres.
Qed.

(** *** The type pass adds at most one declaration per node *)

Lemma keeps_addsAt L st st' : keeps st st' → addsAt L st st'.
Proof.
  intros (Hc & Hg & Hm). split; [exact Hc|]. split; [exact Hg|].
  exists []. rewrite app_nil_r. auto.
Qed.

Lemma keeps_then_adds L st st1 st2 :
  keeps st st1 → addsAt L st1 st2 → addsAt L st st2.
Proof.
  intros (Hc & Hg & Hm) (Hc' & Hg' & news & Hn & Hl).
  split; [congruence|]. split; [etrans; eauto|].
  exists news. rewrite <- Hm. auto.
Qed.

Lemma adds_then_keeps L st st1 st2 :
  addsAt L st st1 → keeps st1 st2 → addsAt L st st2.
Proof.
  intros (Hc & Hg & news & Hn & Hl) (Hc' & Hg' & Hm).
  split; [congruence|]. split; [etrans; eauto|].
  exists news. split; [congruence|].
  destruct Hl as [->|(n & c & -> & Hc1 & HL)]; [auto|right].
  destruct Hg' as (_ & _ & HC). destruct (HC n c Hc1) as (c' & Hc2 & E).
  exists n, c'. split; [reflexivity|]. split; [exact Hc2|congruence].
Qed.

Lemma addToContext_adds Owner_ C st st' c :
  addToContext Owner_ C st = Ok (tt, st') → CxxAST st !! C = Some c →
  addsAt (CLoc c) st st'.
Proof.
  intros Hrun HC. unfold addToContext in Hrun.
  apply bind_inv in Hrun as (o & st1 & H1 & H2).
  unfold getCxx in H1.
  destruct (CxxAST st !! Owner_) as [o0|] eqn:E; [|done].
  injection H1 as -> <-. injection H2 as <-.
  assert (Hlt : Owner_ < length (CxxAST st)) by (eapply lookup_lt_Some, E).
  split; [reflexivity|]. split.
  - split; [|split]; cbn; eauto. intros C' c' Hc'.
    destruct (decide (C' = Owner_)) as [->|Hne].
    + eexists. split; [apply list_lookup_insert_eq, Hlt|]. cbn. congruence.
    + exists c'. split; [|reflexivity].
      rewrite list_lookup_insert_ne by congruence. exact Hc'.
  - unfold membersOf. cbn.
    destruct (decide (getTranslationUnitDecl = Owner_)) as [<-|Hne].
    + rewrite list_lookup_insert_eq by exact Hlt. rewrite E. cbn.
      exists [C]. split; [reflexivity|]. right.
      destruct (decide (C = getTranslationUnitDecl)) as [->|Hne].
      * eexists _, _. split; [reflexivity|].
        split; [apply list_lookup_insert_eq, Hlt|]. cbn. congruence.
      * exists C, c. split; [reflexivity|]. split; [|reflexivity].
        rewrite list_lookup_insert_ne by congruence. exact HC.
    + rewrite list_lookup_insert_ne by congruence.
      exists []. rewrite app_nil_r. auto.
Qed.

Lemma read_eq {A} (m : M A) st a st' :
  preserves eq m → m st = Ok (a, st') → st' = st.
Proof. intros Hm Hrun. symmetry. eapply Hm, Hrun. Qed.

Lemma newCxx_inv c st C st' :
  newCxx c st = Ok (C, st') →
  Members c = [] → keeps st st' ∧ CxxAST st' !! C = Some c.
Proof.
  intros Hrun Hm. split; [eapply newCxx_keeps; eauto|].
  injection Hrun as <- <-. cbn. apply list_lookup_snoc. reflexivity.
Qed.

Lemma elaborateParameterDecl_keeps D :
  preserves keeps (Elaborator.elaborateParameterDecl H D).
Proof.
  unfold Elaborator.elaborateParameterDecl. pres.
  apply newCxx_keeps. reflexivity.
Qed.

Lemma elaborateVariableDecl_adds D d st r st' :
  Decls st !! D = Some d →
  Elaborator.elaborateVariableDecl H D st = Ok (r, st') →
  addsAt (getLoc (Op d)) st st'.
Proof.
  intros Hd Hrun. unfold Elaborator.elaborateVariableDecl in Hrun.
  apply bind_inv in Hrun as (Cur & st0 & H0 & Hrun).
  apply read_eq in H0 as ->; [|auto with pres].
  apply bind_inv in Hrun as (s & st0 & H0 & Hrun).
  apply read_eq in H0 as ->; [|auto with pres].
  destruct (isParameterScope s).
  { apply keeps_addsAt. eapply elaborateParameterDecl_keeps, Hrun. }
  apply bind_inv in Hrun as (Owner_ & st0 & H0 & Hrun).
  apply read_eq in H0 as ->; [|auto with pres].
  apply bind_inv in Hrun as (TypeExpr & st1 & Ht & Hrun).
  apply host_type in Ht.
  apply bind_inv in Hrun as (d1 & st0 & H0 & Hrun).
  pose proof (read_eq _ _ _ _ (getDecl_read D) H0) as ->.
  assert (Hd1 : Op d1 = Op d).
  { destruct Ht as (_ & (_ & HD & _) & _).
    destruct (HD D d Hd) as (d' & Hd' & E).
    unfold getDecl in H0. rewrite Hd' in H0. congruence. }
  eapply keeps_then_adds; [exact Ht|]. rewrite <- Hd1.
  destruct (isNull TypeExpr).
  { apply keeps_addsAt. revert Hrun. generalize st1 r st'.
    change (preserves keeps
              (Report (getLoc (Op d1)) err_failed_to_translate_type ;;
               ret (@None nat))).
    pres. }
  apply bind_inv in Hrun as (TInfo & st0 & H1 & Hrun).
  apply read_eq in H1 as ->; [|auto with pres].
  apply bind_inv in Hrun as (SC & st0 & H1 & Hrun).
  apply read_eq in H1 as ->; [|auto with pres].
  apply bind_inv in Hrun as (VD & st2 & Hnew & Hrun).
  apply newCxx_inv in Hnew as (Hk2 & HVD); [|reflexivity].
  apply bind_inv in Hrun as ([] & st3 & Hadd & Hrun).
  eapply addToContext_adds in Hadd; [|exact HVD].
  eapply keeps_then_adds; [exact Hk2|].
  eapply adds_then_keeps; [exact Hadd|].
  revert Hrun. generalize st3 r st'.
  change (preserves keeps (setDeclCxx D VD ;; ret (Some VD))). pres.
Qed.

Lemma elaborateFunctionDecl_adds D d st r st' :
  Decls st !! D = Some d →
  Elaborator.elaborateFunctionDecl H D st = Ok (r, st') →
  addsAt (getLoc (Op d)) st st'.
Proof.
  intros Hd Hrun. unfold Elaborator.elaborateFunctionDecl in Hrun.
  apply bind_inv in Hrun as (Owner_ & st0 & H0 & Hrun).
  apply read_eq in H0 as ->; [|auto with pres].
  apply bind_inv in Hrun as (TypeExpr & st1 & Ht & Hrun).
  apply host_type in Ht.
  apply bind_inv in Hrun as (d1 & st0 & H0 & Hrun).
  pose proof (read_eq _ _ _ _ (getDecl_read D) H0) as ->.
  assert (Hd1 : Op d1 = Op d).
  { destruct Ht as (_ & (_ & HD & _) & _).
    destruct (HD D d Hd) as (d' & Hd' & E).
    unfold getDecl in H0. rewrite Hd' in H0. congruence. }
  eapply keeps_then_adds; [exact Ht|]. rewrite <- Hd1.
  destruct (isNull TypeExpr).
  { apply keeps_addsAt. revert Hrun. generalize st1 r st'.
    change (preserves keeps
              (Report (getLoc (Op d1)) err_failed_to_translate_type ;;
               ret (@None nat))).
    pres. }
  apply bind_inv in Hrun as (TInfo & st0 & H1 & Hrun).
  apply read_eq in H1 as ->; [|auto with pres].
  apply bind_inv in Hrun as (FD & st2 & Hnew & Hrun).
  apply newCxx_inv in Hnew as (Hk2 & HFD); [|reflexivity].
  eapply keeps_then_adds; [exact Hk2|].
  apply bind_inv in Hrun as (fd & st0 & H1 & Hrun).
  apply read_eq in H1 as ->; [|auto with pres].
  apply bind_inv in Hrun as (stc & st0 & H1 & Hrun).
  apply read_eq in H1 as ->; [|auto with pres].
  apply bind_inv in Hrun as ([] & st3 & Hmain & Hrun).
  assert (Hk3 : keeps st2 st3).
  { destruct (Elaborator.isMain fd (CxxAST stc)).
    - eapply host_main, Hmain.
    - injection Hmain as <-. reflexivity. }
  apply bind_inv in Hrun as (Params & st0 & H1 & Hrun).
  apply read_eq in H1 as ->; [|auto with pres].
  apply bind_inv in Hrun as ([] & st4 & Hset & Hrun).
  apply setParams_keeps in Hset.
  assert (Hk4 : keeps st2 st4) by (etrans; eauto).
  destruct Hk4 as (Hc4 & (HS4 & HD4 & HC4) & Hm4).
  destruct (HC4 FD _ HFD) as (c4 & Hc4' & E4). cbn in E4.
  eapply keeps_then_adds; [split; [exact Hc4|]; split; [|exact Hm4]|].
  { split; [exact HS4|]. split; [exact HD4|exact HC4]. }
  apply bind_inv in Hrun as ([] & st5 & Hadd & Hrun).
  eapply addToContext_adds in Hadd; [|exact Hc4']. rewrite E4 in Hadd.
  eapply adds_then_keeps; [exact Hadd|].
  revert Hrun. generalize st5 r st'.
  change (preserves keeps
            (setDeclCxx D FD ;; PushFunctionScope ;; ret (Some FD))).
  pres.
Qed.

Lemma elaborateDecl_adds D d st r st' :
  Decls st !! D = Some d →
  Elaborator.elaborateDecl H D st = Ok (r, st') →
  addsAt (getLoc (Op d)) st st'.
Proof.
  intros Hd Hrun. unfold Elaborator.elaborateDecl in Hrun.
  apply bind_inv in Hrun as (d0 & st0 & H0 & Hrun).
  apply read_eq in H0 as ->; [|auto with pres].
  destruct (declaresFunction d0).
  - eapply elaborateFunctionDecl_adds; eauto.
  - eapply elaborateVariableDecl_adds; eauto.
Qed.

Lemma lookupFrom_bound fuel ss r look D :
  lookupFrom fuel ss r look = Some D →
  ∃ r' s, r' ≤ r ∧ ss !! r' = Some s ∧ look s = Some D.
Proof.
  revert r. induction fuel as [|fuel IH]; intros r; [done|]. simpl.
  destruct (ss !! r) as [s|] eqn:Es; [|done].
  destruct (look s) as [d|] eqn:El.
  - intros [= <-]. exists r, s. auto.
  - destruct (Parent s) as [p|]; [|done].
    destruct (Nat.ltb p r) eqn:Elt; [|done].
    apply Nat.ltb_lt in Elt. intros Hl.
    destruct (IH p Hl) as (r' & s' & Hle & Hs' & Hl').
    exists r', s'. split; [lia|auto].
Qed.

Lemma findDecl_inv Sc S st Do st' :
  findDecl Sc S st = Ok (Do, st') → st' = st ∧ Do = findDeclIn st Sc S.
Proof.
  intros Hrun. unfold findDecl in Hrun.
  apply bind_inv in Hrun as (s & st0 & H0 & Hrun).
  apply read_eq in H0 as ->; [|auto with pres].
  injection Hrun as <- <-. auto.
Qed.

Lemma elaborateDeclType_adds n S st r st' :
  typePassState n st →
  Elaborator.elaborateDeclType H S st = Ok (r, st') →
  addsAt (getLoc S) st st'.
Proof.
  intros (Hn & (cur & Hc & Hlt) & HJ) Hrun.
  unfold Elaborator.elaborateDeclType in Hrun.
  apply bind_inv in Hrun as (Cur & st0 & H0 & Hrun).
  injection H0 as <- <-.
  apply bind_inv in Hrun as (Do & st0 & H0 & Hrun).
  apply findDecl_inv in H0 as (-> & ->).
  destruct (findDeclIn st (CurrentScope st) S) as [D|] eqn:Ef.
  - rewrite Hc in Ef. unfold findDeclIn in Ef.
    apply lookupFrom_bound in Ef as (r' & s & Hle & Hs & Hl).
    destruct (HJ r' s (getLoc S) D) as (d & Hd & Hloc);
      [lia|exact Hs|exact Hl|].
    rewrite <- Hloc. eapply elaborateDecl_adds; eauto.
  - injection Hrun as _ <-. apply keeps_addsAt. reflexivity.
Qed.

Lemma typePassState_adds n L st st' :
  typePassState n st → addsAt L st st' → typePassState n st'.
Proof.
  intros (Hn & (cur & Hc & Hlt) & HJ) (Hc' & (HS & HD & HC) & _).
  assert (Hpre : ∀ r, r < n → Scopes st' !! r = Scopes st !! r).
  { intros r Hr. destruct (lookup_lt_is_Some_2 (Scopes st) r) as [s Hs];
      [lia|]. rewrite Hs. apply HS, Hs. }
  split; [|split].
  - destruct (lookup_lt_is_Some_2 (Scopes st) cur) as [s Hs]; [lia|].
    destruct (decide (n ≤ length (Scopes st'))) as [|Hgt]; [done|].
    assert (Hn1 : n - 1 < n) by lia.
    pose proof (Hpre (n - 1) Hn1) as E.
    destruct (lookup_lt_is_Some_2 (Scopes st) (n - 1)) as [s1 Hs1]; [lia|].
    rewrite Hs1 in E. apply lookup_lt_Some in E. lia.
  - exists cur. split; [congruence|exact Hlt].
  - intros r s k D Hr Hs Hk. rewrite Hpre in Hs by exact Hr.
    destruct (HJ r s k D Hr Hs Hk) as (d & Hd & Hloc).
    destruct (HD D d Hd) as (d' & Hd' & E). exists d'.
    split; [exact Hd'|congruence].
Qed.

Lemma locatedAt_grows st st' n L :
  (∀ C c, CxxAST st !! C = Some c →
          ∃ c', CxxAST st' !! C = Some c' ∧ CLoc c' = CLoc c) →
  locatedAt st n L → locatedAt st' n L.
Proof.
  intros HC (c & Hc & HL). destruct (HC n c Hc) as (c' & Hc' & E).
  exists c'. split; [exact Hc'|congruence].
Qed.

Lemma locatedAt_locOf st news locs :
  Forall2 (locatedAt st) news locs → locOf st <$> news = locs.
Proof.
  induction 1 as [|n L news locs (c & Hc & HL) _ IH]; [reflexivity|].
  cbn. unfold locOf at 1. rewrite Hc, HL, IH. reflexivity.
Qed.

(** The type pass over the nodes [cs]: the declarations it adds to the
    translation unit are located at nodes of [cs], in the order of [cs]. *)
Lemma typePass_adds n cs st st' :
  typePassState n st →
  forEach cs (λ SS, Elaborator.elaborateDeclType H SS ;; ret tt) st
  = Ok (tt, st') →
  typePassState n st'
  ∧ grows st st'
  ∧ ∃ news locs,
      membersOf st' getTranslationUnitDecl
      = membersOf st getTranslationUnitDecl ++ news
      ∧ Forall2 (locatedAt st') news locs
      ∧ locs `sublist_of` (getLoc <$> cs).
Proof.
  revert st. induction cs as [|c cs IH]; intros st Hst Hrun.
  - injection Hrun as <-. split; [exact Hst|]. split; [reflexivity|].
    exists [], []. rewrite app_nil_r. repeat split; constructor.
  - cbn [forEach] in Hrun.
    apply bind_inv in Hrun as ([] & st1 & H1 & Hrun).
    apply bind_inv in H1 as (r & st0 & H1 & H0). injection H0 as ->.
    pose proof (elaborateDeclType_adds n c st r st1 Hst H1) as Hadd.
    pose proof (typePassState_adds n _ st st1 Hst Hadd) as Hst1.
    destruct (IH st1 Hst1 Hrun)
      as (Hst' & Hg & news2 & locs2 & Hm2 & HF2 & Hsub).
    destruct Hadd as (_ & Hg1 & news1 & Hm1 & Hl1).
    split; [exact Hst'|]. split; [etrans; eauto|].
    destruct Hl1 as [->|(x & cx & -> & Hx & HL)].
    + exists news2, locs2. rewrite app_nil_r in Hm1.
      split; [congruence|]. split; [exact HF2|].
      cbn. apply sublist_cons, Hsub.
    + exists (x :: news2), (getLoc c :: locs2).
      split; [rewrite Hm2, Hm1, <- app_assoc; reflexivity|]. split.
      * constructor; [|exact HF2].
        eapply locatedAt_grows; [apply Hg|]. exists cx. auto.
      * cbn. apply sublist_skip, Hsub.
Qed.

End Independence.

(** *** Identification binds nodes by address *)

Lemma boundByAddress_decls n st st' :
  Scopes st' = Scopes st →
  (∀ D d, Decls st !! D = Some d →
          ∃ d', Decls st' !! D = Some d' ∧ Op d' = Op d) →
  boundByAddress n st → boundByAddress n st'.
Proof.
  intros HS HD HJ r s k D Hr Hs Hk. rewrite HS in Hs.
  destruct (HJ r s k D Hr Hs Hk) as (d & Hd & Hloc).
  destruct (HD D d Hd) as (d' & Hd' & E). exists d'.
  split; [exact Hd'|congruence].
Qed.

Lemma putDecl_identifies n D d d' st :
  Decls st !! D = Some d → Op d' = Op d →
  identifies n st (setDecls (<[D := d']> (Decls st)) st).
Proof.
  intros Hd HO. repeat split. apply boundByAddress_decls; [reflexivity|].
  cbn. intros D0 d0 Hd0. destruct (decide (D0 = D)) as [->|Hne].
  - exists d'. split; [|congruence].
    apply list_lookup_insert_eq. eapply lookup_lt_Some, Hd.
  - exists d0. split; [|reflexivity].
    rewrite list_lookup_insert_ne by congruence. exact Hd0.
Qed.

Lemma updateDecl_identifies n D (f : Declaration → Declaration) :
  (∀ d, Op (f d) = Op d) →
  preserves (identifies n) (d <- getDecl D ;; putDecl D (f d)).
Proof.
  intros HO st a st' Hrun.
  apply bind_inv in Hrun as (d & st1 & H1 & H2).
  unfold getDecl in H1. destruct (Decls st !! D) as [d0|] eqn:E; [|done].
  injection H1 as -> <-. injection H2 as _ <-.
  eapply putDecl_identifies; eauto.
Qed.

Lemma setDeclId_identifies n D I : preserves (identifies n) (setDeclId D I).
Proof. apply (updateDecl_identifies n D (λ d, setId d I)). reflexivity. Qed.

Lemma setDeclSavedScope_identifies n D Sc :
  preserves (identifies n) (setDeclSavedScope D Sc).
Proof.
  apply (updateDecl_identifies n D (λ d, setSavedScope d Sc)). reflexivity.
Qed.

Lemma setDeclCxx_identifies n D C :
  preserves (identifies n) (setDeclCxx D C).
Proof.
  apply (updateDecl_identifies n D (λ d, setCxx d (Some C))). reflexivity.
Qed.

Lemma newDecl_identifies n mk : preserves (identifies n) (newDecl mk).
Proof.
  intros st a st' [= _ <-]. repeat split.
  apply boundByAddress_decls; [reflexivity|]. cbn.
  eauto using lookup_app_l_Some.
Qed.

Lemma pushDecl_identifies n D : preserves (identifies n) (pushDecl D).
Proof. intros st a st' [= _ <-]. repeat split. auto. Qed.

Lemma getDecl_inv D st d st' :
  getDecl D st = Ok (d, st') → st' = st ∧ Decls st !! D = Some d.
Proof.
  unfold getDecl. destruct (Decls st !! D); [|done].
  intros [= <- <-]. auto.
Qed.

Lemma setPreviousDecl_identifies n This Prev :
  preserves (identifies n) (setPreviousDecl This Prev).
Proof.
  intros st a st' Hrun. unfold setPreviousDecl in Hrun.
  apply bind_inv in Hrun as (p & st0 & H0 & Hrun).
  apply getDecl_inv in H0 as (-> & Hp).
  apply bind_inv in Hrun as ([] & st1 & H1 & Hrun). injection H1 as <-.
  etrans; [eapply (putDecl_identifies n Prev p (setNext p This)); eauto|].
  apply bind_inv in Hrun as (p' & st0 & H0 & Hrun).
  apply getDecl_inv in H0 as (-> & Hp').
  apply bind_inv in Hrun as (t & st0 & H0 & Hrun).
  apply getDecl_inv in H0 as (-> & Ht).
  apply bind_inv in Hrun as ([] & st2 & H2 & Hrun). injection H2 as <-.
  etrans; [eapply (putDecl_identifies n This t (setFirst t (First p')));
           eauto|].
  apply bind_inv in Hrun as (t' & st0 & H0 & Hrun).
  apply getDecl_inv in H0 as (-> & Ht').
  injection Hrun as _ <-.
  eapply (putDecl_identifies n This t' (setNext t' (First t'))); eauto.
Qed.

Lemma addDecl_identifies n Sc D : preserves (identifies n) (addDecl Sc D).
Proof.
  intros st a st' Hrun. unfold addDecl in Hrun.
  apply bind_inv in Hrun as (s & st0 & H0 & Hrun).
  pose proof (read_eq _ _ _ _ (derefScope_read Sc) H0) as ->.
  apply bind_inv in Hrun as (d & st0 & H1 & Hrun).
  apply getDecl_inv in H1 as (-> & Hd).
  destruct Sc as [r|]; [|done]. injection Hrun as _ <-.
  unfold derefScope in H0.
  destruct (Scopes st !! r) as [s0|] eqn:Es; [|done]. injection H0 as ->.
  assert (Hlt : r < length (Scopes st)) by (eapply lookup_lt_Some, Es).
  split; [reflexivity|]. split; [reflexivity|].
  split; [cbn; apply length_insert|].
  intros HJ r0 s0 k D0 Hr Hs Hk. cbn in Hs |- *.
  destruct (decide (r0 = r)) as [->|Hne].
  - rewrite list_lookup_insert_eq in Hs by exact Hlt.
    injection Hs as <-. cbn in Hk.
    destruct (decide (k = getLoc (Op d))) as [->|Hk'].
    + rewrite lookup_insert_eq in Hk. injection Hk as <-. eauto.
    + rewrite lookup_insert_ne in Hk by congruence. eapply HJ; eauto.
  - rewrite list_lookup_insert_ne in Hs by congruence. eapply HJ; eauto.
Qed.

#[export] Hint Resolve setDeclId_identifies setDeclSavedScope_identifies
  setDeclCxx_identifies newDecl_identifies pushDecl_identifies
  setPreviousDecl_identifies addDecl_identifies : pres.

Lemma identifyDecl_identifies H n S :
  preserves (identifies n) (Elaborator.identifyDecl H S).
Proof. unfold Elaborator.identifyDecl. pres. Qed.

(** [startFile] opens the global scope, the only one that binds nothing
    yet, and leaves the host declarations alone. *)
Lemma startFile_identifies S st st' :
  boundByAddress (length (Scopes st)) st →
  Elaborator.startFile S st = Ok (tt, st') →
  CxxAST st' = CxxAST st ∧ typePassState (length (Scopes st) + 1) st'.
Proof.
  intros HJ Hrun. unfold Elaborator.startFile in Hrun.
  apply bind_inv in Hrun as ([] & st1 & H1 & Hrun).
  injection H1 as <-.
  revert Hrun. set (st1 := setCurrentScope _ _). intros Hrun.
  assert (H1 : typePassState (length (Scopes st) + 1) st1).
  { split; [|split].
    - unfold st1. cbn. rewrite length_app. reflexivity.
    - exists (length (Scopes st)). split; [reflexivity|lia].
    - intros r s k D Hr Hs Hk. unfold st1 in Hs. cbn in Hs.
      destruct (decide (r < length (Scopes st))) as [Hlt|Hge].
      + rewrite lookup_app_l in Hs by exact Hlt.
        destruct (HJ r s k D Hlt Hs Hk) as (d & Hd & E). eauto.
      + assert (r = length (Scopes st)) as -> by lia.
        rewrite list_lookup_snoc in Hs by reflexivity.
        injection Hs as <-. cbn in Hk. rewrite lookup_empty in Hk. done. }
  assert (Hid : identifies (length (Scopes st) + 1) st1 st').
  { revert Hrun. generalize st1 tt st'.
    change (preserves (identifies (length (Scopes st) + 1))
              (D <- newDecl (λ this, mkDeclaration None S [] None None None
                                       None this this) ;;
               Cur <- getCurrentScope ;;
               setDeclSavedScope D Cur ;;
               setDeclCxx D getTranslationUnitDecl ;;
               pushDecl D)).
    pres. }
  destruct Hid as (HA & HC & HL & HJ').
  destruct H1 as (Hn & (cur & Hc & Hlt) & HJ1).
  split; [exact HA|]. split; [lia|]. split; [|auto].
  exists cur. split; [congruence|exact Hlt].
Qed.

(** ** The staged pipeline *)

Lemma identifies_typePassState n st st' :
  identifies n st st' → typePassState n st → typePassState n st'.
Proof.
  intros (HA & HC & HL & HJ) (Hn & (cur & Hc & Hlt) & HJ0).
  split; [lia|]. split; [|auto]. exists cur. split; [congruence|exact Hlt].
Qed.

Lemma finishFile_keepsAST S : preserves keepsAST (Elaborator.finishFile S).
Proof. unfold Elaborator.finishFile. pres. Qed.

(** C1. [elaborateFile] is the run of the pipeline machine between
    [startFile] and [finishFile]: started in Identify with every top-level
    node pending, the machine runs the Identify pass over all the nodes,
    then the TypeElaborate pass over all the nodes, then the InitElaborate
    pass over all the nodes, and stops in Done.  When the declarations are
    independent for the host, the declarations that a completed run adds to
    the translation unit are located at top-level nodes of the file, in the
    order of the nodes in the file. *)
Theorem elaborateFile_staged (H : Host) (a : nat) (cs : list Syntax) :
  let F := FileSyntax a cs in
  (∀ st,
     Elaborator.elaborateFile H F st
     = (Elaborator.startFile F ;;
        pipelineRun H cs (3 * (length cs + 1)) (Identify, cs) ;;
        Elaborator.finishFile F ;;
        ret getTranslationUnitDecl) st)
  ∧ (∀ st,
       pipelineRun H cs (3 * (length cs + 1)) (Identify, cs) st
       = (forEach cs (Elaborator.identifyDecl H) ;;
          forEach cs (λ SS, Elaborator.elaborateDeclType H SS ;; ret tt) ;;
          forEach cs (Elaborator.elaborateDeclInit H) ;;
          ret (Done, [])) st)
  ∧ (Independent H →
     ∀ st st',
       boundByAddress (length (Scopes st)) st →
       Elaborator.elaborateFile H F st = Ok (getTranslationUnitDecl, st') →
       ∃ news,
         membersOf st' getTranslationUnitDecl
         = membersOf st getTranslationUnitDecl ++ news
         ∧ (locOf st' <$> news) `sublist_of` (getLoc <$> cs)).
Proof.
  intros F.
  assert (Hpipe : ∀ st,
            pipelineRun H cs (3 * (length cs + 1)) (Identify, cs) st
            = (forEach cs (Elaborator.identifyDecl H) ;;
               forEach cs
                 (λ SS, Elaborator.elaborateDeclType H SS ;; ret tt) ;;
               forEach cs (Elaborator.elaborateDeclInit H) ;;
               ret (Done, [])) st).
  { intros st. rewrite pipelineRun_passes. unfold passes.
    rewrite !bind_assoc. apply bind_ext. intros _ st1.
    rewrite !bind_assoc. reflexivity. }
  split; [|split; [exact Hpipe|]].
  - intros st. unfold Elaborator.elaborateFile, F. cbn [children].
    apply bind_ext. intros _ st1. symmetry.
    rewrite (bind_ext_l _ _ _ _ Hpipe).
    rewrite !bind_assoc. apply bind_ext. intros _ st2.
    rewrite !bind_assoc. apply bind_ext. intros _ st3.
    rewrite !bind_assoc. apply bind_ext. intros _ st4. reflexivity.
  - intros HI st st' HJ Hrun.
    unfold Elaborator.elaborateFile, F in Hrun. cbn [children] in Hrun.
    apply bind_inv in Hrun as ([] & st1 & H1 & Hrun).
    apply bind_inv in Hrun as ([] & st2 & H2 & Hrun).
    apply bind_inv in Hrun as ([] & st3 & H3 & Hrun).
    apply bind_inv in Hrun as ([] & st4 & H4 & Hrun).
    apply bind_inv in Hrun as ([] & st5 & H5 & Hrun).
    injection Hrun as <-.
    apply startFile_identifies in H1 as (HA1 & Hst1); [|exact HJ].
    apply (preserves_forEach (identifies (length (Scopes st) + 1))) in H2;
      [|intros x; apply identifyDecl_identifies].
    pose proof (identifies_typePassState _ _ _ H2 Hst1) as Hst2.
    destruct H2 as (HA2 & _).
    apply (typePass_adds H HI) with (n := length (Scopes st) + 1) in H3
        as (_ & _ & news & locs & Hm & HF & Hsub); [|exact Hst2].
    apply (preserves_forEach keepsAST) in H4;
      [|intros x; apply elaborateDeclInit_keepsAST, HI].
    apply finishFile_keepsAST in H5.
    assert (H45 : keepsAST st3 st5) by (etrans; eauto).
    destruct H45 as (HC & HM).
    exists news. split.
    + rewrite HM, Hm. unfold membersOf. rewrite HA2, HA1. reflexivity.
    + erewrite locatedAt_locOf; [exact Hsub|].
      eapply Forall2_impl; [exact HF|].
      intros n L. apply locatedAt_grows, HC.
Qed.

(** The sample host treats the declarations independently. *)
Lemma sampleHost_independent : Independent SampleHost.host.
Proof.
  split; cbn.
  - intros D st a st' Hrun. unfold SampleHost.typeExpr in Hrun.
    apply bind_inv in Hrun as (d & st0 & H0 & Hrun).
    apply getDecl_inv in H0 as (-> & Hd).
    assert (Hret : ∀ E : Expression, ret E st = Ok (a, st') → keeps st st').
    { intros E [= _ <-]. reflexivity. }
    destruct (SampleHost.typeOf (Decl d)) as [T|]; [|eauto].
    repeat (match type of Hrun with
            | context [match ?x with _ => _ end] => destruct x
            end; eauto).
    injection Hrun as _ <-. split; [reflexivity|]. split; [|reflexivity].
    split; [|split]; cbn.
    + intros r s Hs. apply lookup_app_l_Some, Hs.
    + intros D' d' Hd'. destruct (decide (D' = D)) as [->|Hne].
      * eexists. split.
        -- apply list_lookup_insert_eq. eapply lookup_lt_Some, Hd.
        -- cbn. congruence.
      * exists d'. split; [|reflexivity].
        rewrite list_lookup_insert_ne by congruence. exact Hd'.
    + eauto.
  - intros C. apply preserves_ret. apply _.
  - intros S. apply preserves_ret. apply _.
  - intros S. apply preserves_ret. apply _.
  - intros D. apply preserves_ret. apply _.
  - intros C E. unfold SampleHost.setInit.
    apply (preserves_weaken keeps keepsAST); [apply keeps_keepsAST|].
    apply (updateCxx_keeps C
             (λ c, mkCxxDecl (CKind c) (Owner c) (CLoc c) (CName c) (CType c)
                     (CStorage c) (CParams c) (CBody c) (Some E)
                     (Members c)));
      reflexivity.
Qed.

(** The file [x : int], [f() : int ! body], [y = 3]: the translation unit
    receives the three declarations, located at the three nodes in order. *)
Lemma elaborateFile_staged_witness :
  ∃ st',
    Elaborator.elaborateFile SampleHost.host Examples.three_file initialSema
    = Ok (getTranslationUnitDecl, st')
    ∧ membersOf st' getTranslationUnitDecl = [1; 2; 3]
    ∧ ∃ news,
        membersOf st' getTranslationUnitDecl
        = membersOf initialSema getTranslationUnitDecl ++ news
        ∧ (locOf st' <$> news) `sublist_of` [10; 20; 40].
Proof.
  eexists. split; [vm_compute; reflexivity|]. split; [reflexivity|].
  change [10; 20; 40] with (getLoc <$> children Examples.three_file).
  apply (proj2 (proj2 (elaborateFile_staged SampleHost.host 1
                         (children Examples.three_file)))
           sampleHost_independent initialSema).
  - intros r s k D Hr. cbn in Hr. lia.
  - vm_compute. reflexivity.
Defined.

(** * Further properties of the elaborator *)

(** ** Induction on syntax *)

(** Structural induction on syntax nodes, with the hypothesis for every
    child of a sequence. *)
Lemma Syntax_ind_children (P : Syntax → Prop) :
  (∀ a sp, P (AtomSyntax a sp)) →
  (∀ a c args, P c → P args → P (CallSyntax a c args)) →
  (∀ a cs, Forall P cs → P (ListSyntax a cs)) →
  (∀ a c b, P c → P b → P (MacroSyntax a c b)) →
  (∀ a cs, Forall P cs → P (FileSyntax a cs)) →
  ∀ S, P S.
Proof.
  intros HA HC HL HM HF.
  fix IH 1. intros [a sp|a c args|a cs|a c b|a cs].
  - apply HA.
  - apply HC; apply IH.
  - apply HL. induction cs as [|x cs IHcs]; constructor; [apply IH|exact IHcs].
  - apply HM; apply IH.
  - apply HF. induction cs as [|x cs IHcs]; constructor; [apply IH|exact IHcs].
Qed.

(** ** The head of a declarator chain *)

Lemma makeDeclarator_head_not_function isTag S :
  ∀ Next D, makeDeclaratorWith isTag S Next = Ok D → isFunction D = false.
Proof.
  pose (P := λ S, ∀ Next D,
    makeDeclaratorWith isTag S Next = Ok D → isFunction D = false).
  cut (P S ∧ Forall P (children S)); [intros [HP _]; exact HP|].
  induction S as [a sp|a c args _ [_ IHargs]|a cs IHcs|a c b _ _|a cs IHcs]
    using Syntax_ind_children.
  - split; [|constructor]. intros Next D Hrun. simpl in Hrun.
    destruct (isTag sp); injection Hrun as <-; reflexivity.
  - split; [|constructor]. intros Next D Hrun. simpl in Hrun.
    destruct c as [b op| | | |]; try discriminate.
    destruct (String.eqb op "operator':'").
    + destruct args as [|?|? [|a0 [|a1 rest]]| |]; try discriminate.
      inversion IHargs as [|? ? Ha0 _]; subst.
      destruct (isCallSyntax a1).
      * destruct (makeDeclaratorWith isTag a1 Next) as [N'|]; [|discriminate].
        eapply Ha0, Hrun.
      * match type of Hrun with
        | rbind ?m _ = _ => destruct m as [T|]; [|discriminate]
        end.
        eapply Ha0, Hrun.
    + destruct (String.eqb op "operator'^'").
      * destruct args as [|?|? [|a0 rest]| |]; try discriminate.
        destruct (makeDeclaratorWith isTag a0 Next); [|discriminate].
        simpl in Hrun. injection Hrun as <-. reflexivity.
      * simpl in Hrun.
        destruct (isTag op); simpl in Hrun; injection Hrun as <-; reflexivity.
  - split.
    + intros Next D Hrun. injection Hrun as <-. reflexivity.
    + eapply Forall_impl; [exact IHcs|]. intros x [Hx _]. exact Hx.
  - split; [|constructor]. intros Next D Hrun. injection Hrun as <-.
    reflexivity.
  - split.
    + intros Next D Hrun. injection Hrun as <-. reflexivity.
    + eapply Forall_impl; [exact IHcs|]. intros x [Hx _]. exact Hx.
Qed.

(** ** Every run of identification *)

Lemma setPreviousDecl_self st l t :
  Decls st = l ++ [t] → First t = length l → Next t = length l →
  setPreviousDecl (length l) (length l) st = Ok (tt, setDecls (l ++ [t]) st).
Proof.
  intros E HF HN. destruct t as [c o dc i sv id cx f n]; simpl in HF, HN.
  subst f n. unfold setPreviousDecl.
  step ltac:(apply getDecl_Ok; rewrite E; apply list_lookup_snoc; reflexivity).
  step ltac:(reflexivity).
  step ltac:(apply getDecl_Ok; cbn; rewrite E;
             rewrite list_insert_snoc by reflexivity;
             apply list_lookup_snoc; reflexivity).
  step ltac:(apply getDecl_Ok; cbn; rewrite E;
             rewrite list_insert_snoc by reflexivity;
             apply list_lookup_snoc; reflexivity).
  step ltac:(reflexivity).
  step ltac:(apply getDecl_Ok; cbn; rewrite E;
             rewrite !list_insert_snoc by reflexivity;
             apply list_lookup_snoc; reflexivity).
  unfold putDecl, modify. cbn. rewrite E.
  rewrite !list_insert_snoc by reflexivity. reflexivity.
Qed.

Lemma setPreviousDecl_dangling st l t Old :
  Decls st = l ++ [t] → length l < Old →
  ∃ w, setPreviousDecl (length l) Old st = Abort w.
Proof.
  intros E Hlt. unfold setPreviousDecl, bind, getDecl.
  rewrite E, lookup_ge_None_2; [eauto|].
  rewrite length_app. simpl. lia.
Qed.

(** The run of [identifyDecl] when the name is bound, in namespace or
    parameter scope, to a declaration that does not exist yet: the binding
    can only designate the declaration being created, which is then the
    only one of its chain. *)
Lemma identifyDecl_unfold_dangling H st sc s a b Op_ Args Decl_ Init_ OpEq
    Dcl Old :
  let S := CallSyntax a (AtomSyntax b Op_) Args in
  let New := length (Decls st) in
  CurrentScope st = Some sc → Scopes st !! sc = Some s →
  Elaborator.unpackDeclarator S Op_ Args st
  = Ok (Some (Decl_, Init_, OpEq), st) →
  Elaborator.makeDeclarator H Decl_ st = Ok (Dcl, st) →
  Dcl ≠ [] →
  isParameterScope s && negb (isIdentifier Dcl) = false →
  isNamespaceScope s || isParameterScope s = true →
  findIdIn st (Some sc) (Elaborator.getIdentifier Dcl) = Some Old →
  Decls st !! Old = None →
  (Old = New ∧
   Elaborator.identifyDecl H S st
   = Ok (tt, declared st sc s (Decls st) (identified st S Dcl Init_ New New)))
  ∨ ∃ w, Elaborator.identifyDecl H S st = Abort w.
Proof.
  intros S New Hc Hs Hu Hm Hn Hp Hk Hb Ho.
  destruct Dcl as [|F0 Dcl]; [done|].
  assert (Hblock : isBlockScope s = false).
  { revert Hk. unfold isBlockScope, isParameterScope, isNamespaceScope.
    destruct (Kind s); simpl; congruence. }
  assert (Hge : New ≤ Old) by (apply lookup_ge_None; exact Ho).
  assert (Hrun : Elaborator.identifyDecl H S st
    = (setPreviousDecl New Old ;; Cur' <- getCurrentScope ;;
       addDecl Cur' New)
        (setDecls (Decls st ++ [identified st S (F0 :: Dcl) Init_ New New])
           st)).
  { unfold S at 1, Elaborator.identifyDecl.
    step ltac:(exact Hu). step ltac:(exact Hm).
    step ltac:(rewrite getCurrentScope_Ok, Hc; reflexivity).
    step ltac:(apply derefScope_Ok, Hs).
    rewrite Hp.
    step ltac:(rewrite getCurrentScope_Ok, Hc; reflexivity).
    step ltac:(apply derefScope_Ok, Hs).
    step ltac:(eapply findDeclId_Ok, Hs).
    rewrite Hblock. cbn [andb].
    step ltac:(reflexivity).
    step ltac:(reflexivity).
    step ltac:(unfold setDeclId;
               erewrite bind_Ok
                 by (apply getDecl_Ok; cbn; apply list_lookup_snoc;
                     reflexivity);
               reflexivity).
    cbn [Decls setDecls]. rewrite list_insert_snoc by reflexivity.
    change (setId _ _) with (identified st S (F0 :: Dcl) Init_ New New).
    rewrite Hk. rewrite bind_assoc.
    set (st1 := setDecls _ (setDecls _ st)).
    assert (Hs1 : Scopes st1 !! sc = Some s) by exact Hs.
    step ltac:(eapply findDeclId_Ok, Hs1).
    change (findIdIn st1 (Some sc) (Elaborator.getIdentifier (F0 :: Dcl)))
      with (findIdIn st (Some sc) (Elaborator.getIdentifier (F0 :: Dcl))).
    rewrite Hb. reflexivity. }
  rewrite Hrun. clear Hrun.
  destruct (decide (Old = New)) as [->|Hne].
  - left. split; [reflexivity|].
    step ltac:(eapply (setPreviousDecl_self _ (Decls st)); reflexivity).
    step ltac:(rewrite getCurrentScope_Ok; reflexivity).
    cbn [CurrentScope setDecls]. rewrite Hc.
    erewrite addDecl_Ok; [|exact Hs|cbn; apply list_lookup_snoc; reflexivity].
    reflexivity.
  - right.
    destruct (setPreviousDecl_dangling
                (setDecls (Decls st ++ [identified st S (F0 :: Dcl) Init_
                                          New New]) st)
                (Decls st) _ Old eq_refl) as [w Hw]; [unfold New in *; lia|].
    exists w. apply bind_Abort. exact Hw.
Qed.

Lemma unpackDeclarator_inv a b Op_ Args st x st' :
  Elaborator.unpackDeclarator (CallSyntax a (AtomSyntax b Op_) Args) Op_ Args
    st = Ok (Some x, st') →
  unpacked (CallSyntax a (AtomSyntax b Op_) Args) = Some x.
Proof.
  unfold Elaborator.unpackDeclarator, unpacked.
  destruct (String.eqb Op_ "operator'='").
  { destruct Args as [| |? [|? [|? ?]]| |]; try discriminate.
    intros E. injection E as <- _. reflexivity. }
  destruct (String.eqb Op_ "operator'!'").
  { destruct Args as [| |? cs| |]; try discriminate.
    intros E.
    apply bind_inv in E as (Cur & st1 & _ & E).
    apply bind_inv in E as (s & st2 & _ & E).
    destruct (isParameterScope s); [discriminate|].
    destruct cs as [|? [|? ?]]; try discriminate.
    injection E as <- _. reflexivity. }
  destruct (String.eqb Op_ "operator':'").
  { intros E. injection E as <- _. reflexivity. }
  discriminate.
Qed.

Lemma derefScope_inv r s st st' :
  derefScope r st = Ok (s, st') →
  st' = st ∧ ∃ i, r = Some i ∧ Scopes st !! i = Some s.
Proof.
  unfold derefScope. destruct r as [i|]; [|discriminate].
  destruct (Scopes st !! i) as [s0|] eqn:E; [|discriminate].
  intros E'. injection E' as <- <-. eauto.
Qed.

(** Every successful run of [identifyDecl]: the state is unchanged, or one
    declaration of the node is allocated and bound in the current scope,
    behind the declaration [Old] of its name when it is linked. *)
Lemma identifyDecl_inv H S st u st' :
  Elaborator.identifyDecl H S st = Ok (u, st') →
  st' = st ∨
  ∃ sc s Decl_ Init_ OpEq Dcl ds F,
    unpacked S = Some (Decl_, Init_, OpEq)
    ∧ CurrentScope st = Some sc ∧ Scopes st !! sc = Some s
    ∧ makeDeclaratorWith (Elaborator.lookupTagName H st) Decl_ [] = Ok Dcl
    ∧ Dcl ≠ []
    ∧ (ds = Decls st ∧ F = length (Decls st)
       ∨ ∃ Old o,
           Decls st !! Old = Some o
           ∧ ds = <[Old := setNext o (length (Decls st))]> (Decls st)
           ∧ F = First o)
    ∧ st' = declared st sc s ds (identified st S Dcl Init_ F F).
Proof.
  intros Hrun0. pose proof Hrun0 as Hrun.
  destruct S as [|a [b Op_| | | |] Args| | |];
    try (injection Hrun as _ <-; left; reflexivity).
  unfold Elaborator.identifyDecl in Hrun.
  apply bind_inv in Hrun as (up & st1 & Hu & Hrun).
  assert (st1 = st) as ->
    by (eapply read_eq; [apply unpackDeclarator_read|exact Hu]).
  destruct up as [[[Decl_ Init_] OpEq]|];
    [|injection Hrun as _ <-; left; reflexivity].
  apply bind_inv in Hrun as (Dcl & st1 & Hm & Hrun).
  assert (st1 = st) as ->
    by (eapply read_eq; [apply makeDeclarator_read|exact Hm]).
  destruct Dcl as [|F0 Dcl]; [injection Hrun as _ <-; left; reflexivity|].
  apply bind_inv in Hrun as (Cur & st1 & Hc & Hrun).
  injection Hc as <- <-.
  apply bind_inv in Hrun as (s & st1 & Hs & Hrun).
  apply derefScope_inv in Hs as (-> & sc & Hc & Hs).
  destruct (isParameterScope s && negb (isIdentifier (F0 :: Dcl))) eqn:Hp;
    [discriminate|].
  clear Hrun.
  assert (Hmk : makeDeclaratorWith (Elaborator.lookupTagName H st) Decl_ []
                = Ok (F0 :: Dcl)).
  { unfold Elaborator.makeDeclarator in Hm.
    destruct (makeDeclaratorWith _ _ _); [|discriminate].
    injection Hm as ->. reflexivity. }
  pose proof (unpackDeclarator_inv _ _ _ _ _ _ _ Hu) as Hup.
  set (Bound := findIdIn st (Some sc)
                  (Elaborator.getIdentifier (F0 :: Dcl))).
  destruct (isNamespaceScope s || isParameterScope s) eqn:Hk.
  - destruct Bound as [Old|] eqn:Hb.
    + destruct (Decls st !! Old) as [o|] eqn:Ho.
      * rewrite (identifyDecl_unfold H st sc s a b Op_ Args Decl_ Init_ OpEq
                   (F0 :: Dcl)) in Hrun0; try done.
        2:{ intros _ Old' E. fold Bound in E. rewrite Hb in E.
            injection E as <-. eauto. }
        fold Bound in Hrun0. rewrite Hb, Hk, Ho in Hrun0.
        destruct (returnsEarly _ _ _);
          injection Hrun0 as _ <-; [left; reflexivity|right].
        exists sc, s, Decl_, Init_, OpEq, (F0 :: Dcl),
          (<[Old := setNext o (length (Decls st))]> (Decls st)), (First o).
        split_and!; try done. right. eauto.
      * destruct (identifyDecl_unfold_dangling H st sc s a b Op_ Args Decl_
                    Init_ OpEq (F0 :: Dcl) Old)
          as [[-> E]|[w E]]; try done;
          rewrite E in Hrun0; [|discriminate].
        injection Hrun0 as _ <-. right.
        exists sc, s, Decl_, Init_, OpEq, (F0 :: Dcl), (Decls st),
          (length (Decls st)).
        split_and!; try done. left. done.
    + rewrite (identifyDecl_unfold H st sc s a b Op_ Args Decl_ Init_ OpEq
                 (F0 :: Dcl)) in Hrun0; try done.
      2:{ intros _ Old' E. fold Bound in E. rewrite Hb in E. discriminate. }
      fold Bound in Hrun0. rewrite Hb, Hk in Hrun0.
      destruct (returnsEarly _ _ _);
        injection Hrun0 as _ <-; [left; reflexivity|right].
      exists sc, s, Decl_, Init_, OpEq, (F0 :: Dcl), (Decls st),
          (length (Decls st)).
        split_and!; try done. left. done.
  - rewrite (identifyDecl_unfold H st sc s a b Op_ Args Decl_ Init_ OpEq
               (F0 :: Dcl)) in Hrun0; try done.
    2:{ rewrite Hk. discriminate. }
    rewrite Hk in Hrun0.
    destruct (returnsEarly _ _ _);
      injection Hrun0 as _ <-; [left; reflexivity|right].
    exists sc, s, Decl_, Init_, OpEq, (F0 :: Dcl), (Decls st),
          (length (Decls st)).
        split_and!; try done. left. done.
Qed.

(** X1. A successful run of [identifyDecl] works on the declarations and on
    the current scope only: the host declarations, the diagnostics, the
    error stream, the current scope, the stack of declarations and the
    function scopes are as before, no scope is added and every scope but
    the current one is unchanged.  At most one declaration is added, and a
    declaration that existed changes at most in its [Next] link. *)
Theorem identifyDecl_frame H S st st' :
  Elaborator.identifyDecl H S st = Ok (tt, st') →
  CxxAST st' = CxxAST st ∧ Diags st' = Diags st ∧ Errs st' = Errs st
  ∧ CurrentScope st' = CurrentScope st ∧ DeclStack st' = DeclStack st
  ∧ FunctionScopes st' = FunctionScopes st
  ∧ length (Scopes st') = length (Scopes st)
  ∧ (∀ r, CurrentScope st ≠ Some r → Scopes st' !! r = Scopes st !! r)
  ∧ (∀ D d, Decls st !! D = Some d →
            ∃ d', Decls st' !! D = Some d' ∧ setNext d' (Next d) = d)
  ∧ length (Decls st) ≤ length (Decls st') ≤ length (Decls st) + 1.
Proof.
  intros Hrun.
  assert (Hsame : ∀ d, setNext d (Next d) = d) by (intros []; reflexivity).
  apply identifyDecl_inv in Hrun
    as [->|(sc & s & Decl_ & Init_ & OpEq & Dcl & ds & F & _ & Hc & Hs & _
            & _ & Hds & ->)].
  { split_and!; try done; [eauto|lia..]. }
  assert (Hlen : length ds = length (Decls st)).
  { destruct Hds as [[-> _]|(Old & o & _ & -> & _)];
      [reflexivity|apply length_insert]. }
  cbn. split_and!; try done.
  - apply length_insert.
  - intros r Hr. apply list_lookup_insert_ne. congruence.
  - intros D d Hd.
    assert (Hlt : D < length (Decls st)) by (eapply lookup_lt_Some; eauto).
    destruct Hds as [[-> _]|(Old & o & Ho & -> & _)].
    + exists d. split; [apply lookup_app_l_Some, Hd|apply Hsame].
    + destruct (decide (D = Old)) as [->|Hne].
      * exists (setNext o (length (Decls st))). split.
        -- apply lookup_app_l_Some, list_lookup_insert_eq, Hlt.
        -- rewrite Ho in Hd. injection Hd as <-. destruct o; reflexivity.
      * exists d. split; [|apply Hsame].
        apply lookup_app_l_Some. rewrite list_lookup_insert_ne by done.
        exact Hd.
  - rewrite length_app, Hlen. lia.
  - rewrite length_app, Hlen. simpl. lia.
Qed.

Lemma identifyDecl_frame_witness :
  let st := Examples.after (Elaborator.startFile Examples.three_file)
              initialSema in
  let st' := Examples.after
               (Elaborator.identifyDecl SampleHost.host Examples.x_int) st in
  CxxAST st' = CxxAST st ∧ Diags st' = Diags st ∧ Errs st' = Errs st
  ∧ CurrentScope st' = CurrentScope st ∧ DeclStack st' = DeclStack st
  ∧ FunctionScopes st' = FunctionScopes st
  ∧ length (Scopes st') = length (Scopes st)
  ∧ (∀ r, CurrentScope st ≠ Some r → Scopes st' !! r = Scopes st !! r)
  ∧ (∀ D d, Decls st !! D = Some d →
            ∃ d', Decls st' !! D = Some d' ∧ setNext d' (Next d) = d)
  ∧ length (Decls st) ≤ length (Decls st') ≤ length (Decls st) + 1.
Proof.
  intros st st'.
  apply (identifyDecl_frame SampleHost.host Examples.x_int st st').
  vm_compute. reflexivity.
Defined.

(** X2. When a run of [identifyDecl] on the node [S] changes the state, it
    has created the declaration of [S]: the new declaration has the syntax
    [S], the initializer that [S] carries, the declaration being elaborated
    as its context, the declarator chain of the declarator operand, the
    name of that chain and no host declaration yet; and [findDecl] finds it
    in the current scope, by the node and by the name. *)
Theorem identifyDecl_declares H S st st' :
  Elaborator.identifyDecl H S st = Ok (tt, st') →
  st' ≠ st →
  ∃ Decl_ Init_ OpEq d,
    unpacked S = Some (Decl_, Init_, OpEq)
    ∧ Decls st' !! length (Decls st) = Some d
    ∧ Op d = S ∧ Init d = Init_ ∧ Cxt d = head (DeclStack st)
    ∧ Cxx d = None ∧ SavedScope d = None
    ∧ Elaborator.makeDeclarator H Decl_ st = Ok (Decl d, st)
    ∧ Id d = Elaborator.getIdentifier (Decl d)
    ∧ findDeclIn st' (CurrentScope st') S = Some (length (Decls st))
    ∧ (is_Some (Id d) →
       findIdIn st' (CurrentScope st') (Id d) = Some (length (Decls st))).
Proof.
  intros Hrun Hne.
  apply identifyDecl_inv in Hrun
    as [->|(sc & s & Decl_ & Init_ & OpEq & Dcl & ds & F & Hu & Hc & Hs & Hm
            & _ & Hds & ->)]; [done|].
  assert (Hlen : length ds = length (Decls st)).
  { destruct Hds as [[-> _]|(Old & o & _ & -> & _)];
      [reflexivity|apply length_insert]. }
  exists Decl_, Init_, OpEq, (identified st S Dcl Init_ F F).
  split_and!; try done.
  - cbn. apply list_lookup_snoc. done.
  - cbn. unfold Elaborator.makeDeclarator. rewrite Hm. reflexivity.
  - cbn [CurrentScope declared setScopes setDecls]. rewrite Hc.
    apply (declared_lookup st sc s ds (identified st S Dcl Init_ F F) Hs).
  - intros [x Hx]. cbn [CurrentScope declared setScopes setDecls].
    rewrite Hc, Hx.
    apply (declared_lookup_id st sc s ds _ x Hs Hx).
Qed.

Lemma identifyDecl_declares_witness :
  let st := Examples.after (Elaborator.startFile Examples.three_file)
              initialSema in
  let st' := Examples.after
               (Elaborator.identifyDecl SampleHost.host Examples.x_equals_3)
               st in
  ∃ Decl_ Init_ OpEq d,
    unpacked Examples.x_equals_3 = Some (Decl_, Init_, OpEq)
    ∧ Decls st' !! length (Decls st) = Some d
    ∧ Op d = Examples.x_equals_3 ∧ Init d = Init_
    ∧ Cxt d = head (DeclStack st)
    ∧ Cxx d = None ∧ SavedScope d = None
    ∧ Elaborator.makeDeclarator SampleHost.host Decl_ st = Ok (Decl d, st)
    ∧ Id d = Elaborator.getIdentifier (Decl d)
    ∧ findDeclIn st' (CurrentScope st') Examples.x_equals_3
      = Some (length (Decls st))
    ∧ (is_Some (Id d) →
       findIdIn st' (CurrentScope st') (Id d) = Some (length (Decls st))).
Proof.
  intros st st'.
  apply (identifyDecl_declares SampleHost.host Examples.x_equals_3 st st').
  - vm_compute. reflexivity.
  - vm_compute. intros E. discriminate E.
Defined.

(** X3. The layout that [getFunctionDeclarator] asserts holds for every
    chain that [makeDeclarator] builds: when a declaration with such a
    chain declares a function, the chain starts with the identifier and
    its second fragment is the function fragment, which
    [getFunctionDeclarator] returns. *)
Theorem makeDeclarator_function_layout H S st st' d :
  Elaborator.makeDeclarator H S st = Ok (Decl d, st') →
  declaresFunction d = true →
  ∃ Id_ Call Params Sc rest,
    Decl d = DK_Identifier Id_ :: DK_Function Call Params Sc :: rest
    ∧ Elaborator.getFunctionDeclarator (Decl d) st'
      = Ok (DK_Function Call Params Sc, st').
Proof.
  unfold Elaborator.makeDeclarator, declaresFunction.
  destruct (makeDeclaratorWith _ S []) as [D|] eqn:Hm; [|discriminate].
  intros E. injection E as <- _.
  apply makeDeclarator_head_not_function in Hm.
  destruct D as [|[i| | |] [|[| |c p sc|] rest]]; simpl in *;
    try discriminate.
  intros _. exists i, c, p, sc, rest. split; reflexivity.
Qed.

Lemma makeDeclarator_function_layout_witness :
  let S := Examples.colon 23 (Examples.call0 26 "f") (AtomSyntax 29 "int") in
  let Dcl := [DK_Identifier (AtomSyntax 27 "f");
              DK_Function (Examples.call0 26 "f") (ListSyntax 28 []) None;
              DK_Type (Some S) (Some (AtomSyntax 29 "int"))] in
  let d := mkDeclaration None S Dcl None None (Some "f") None 0 0 in
  ∃ Id_ Call Params Sc rest,
    Decl d = DK_Identifier Id_ :: DK_Function Call Params Sc :: rest
    ∧ Elaborator.getFunctionDeclarator (Decl d) initialSema
      = Ok (DK_Function Call Params Sc, initialSema).
Proof.
  intros S Dcl d.
  apply (makeDeclarator_function_layout SampleHost.host S initialSema
           initialSema d).
  - vm_compute. reflexivity.
  - vm_compute. reflexivity.
Defined.

(** ** When the declarator is null *)

Lemma makeDeclarator_null_iff_aux isTag S :
  ∀ Next D, makeDeclaratorWith isTag S Next = Ok D →
  (D = [] ↔ isAtomOrCall (nameOperand S) = false).
Proof.
  pose (P := λ S, ∀ Next D,
    makeDeclaratorWith isTag S Next = Ok D →
    (D = [] ↔ isAtomOrCall (nameOperand S) = false)).
  cut (P S ∧ Forall P (children S)); [intros [HP _]; exact HP|].
  induction S as [a sp|a c args _ [_ IHargs]|a cs IHcs|a c b _ _|a cs IHcs]
    using Syntax_ind_children.
  - split; [|constructor]. intros Next D Hrun. simpl in Hrun.
    destruct (isTag sp); injection Hrun as <-; simpl; split; discriminate.
  - split; [|constructor]. intros Next D Hrun. simpl in Hrun.
    destruct c as [b op| | | |]; try discriminate.
    simpl. destruct (String.eqb op "operator':'").
    + destruct args as [|?|? [|a0 [|a1 rest]]| |]; try discriminate.
      inversion IHargs as [|? ? Ha0 _]; subst.
      destruct (isCallSyntax a1).
      * destruct (makeDeclaratorWith isTag a1 Next) as [N'|]; [|discriminate].
        eapply Ha0, Hrun.
      * match type of Hrun with
        | rbind ?m _ = _ => destruct m as [T|]; [|discriminate]
        end.
        eapply Ha0, Hrun.
    + assert (Hne : D ≠ []).
      { destruct (String.eqb op "operator'^'").
        * destruct args as [|?|? [|a0 rest]| |]; try discriminate.
          destruct (makeDeclaratorWith isTag a0 Next); [|discriminate].
          simpl in Hrun. injection Hrun as <-. discriminate.
        * simpl in Hrun.
          destruct (isTag op); simpl in Hrun; injection Hrun as <-;
            discriminate. }
      destruct args as [| |? [|? [|? ?]]| |]; simpl; split; done.
  - split.
    + intros Next D Hrun. injection Hrun as <-. simpl. done.
    + eapply Forall_impl; [exact IHcs|]. intros x [Hx _]. exact Hx.
  - split; [|constructor]. intros Next D Hrun. injection Hrun as <-.
    simpl. done.
  - split.
    + intros Next D Hrun. injection Hrun as <-. simpl. done.
    + eapply Forall_impl; [exact IHcs|]. intros x [Hx _]. exact Hx.
Qed.

(** X4. A successful [makeDeclarator] returns the null declarator exactly
    when the name operand of the node, reached through the left operands
    of its [operator':'] calls, is neither an atom nor a call; in
    particular it never does for a name, a pointer or a function
    declarator. *)
Theorem makeDeclarator_null_iff H S st D st' :
  Elaborator.makeDeclarator H S st = Ok (D, st') →
  (D = [] ↔ isAtomOrCall (nameOperand S) = false).
Proof.
  unfold Elaborator.makeDeclarator.
  destruct (makeDeclaratorWith _ S []) as [D'|] eqn:Hm; [|discriminate].
  intros E. injection E as <- _.
  eapply makeDeclarator_null_iff_aux, Hm.
Qed.

Lemma makeDeclarator_null_iff_witness :
  let S := Examples.colon 10 (ListSyntax 13 [AtomSyntax 14 "x"])
             (AtomSyntax 15 "int") in
  ([] = @nil Fragment ↔ isAtomOrCall (nameOperand S) = false).
Proof.
  intros S.
  apply (makeDeclarator_null_iff SampleHost.host S initialSema []
           initialSema).
  vm_compute. reflexivity.
Defined.

(** ** Redeclaration rings *)

Lemma setPreviousDecl_run st This Prev t p :
  Decls st !! Prev = Some p → Decls st !! This = Some t → This ≠ Prev →
  setPreviousDecl This Prev st
  = Ok (tt, setDecls
              (<[This := setNext (setFirst t (First p)) (First p)]>
                 (<[Prev := setNext p This]> (Decls st))) st).
Proof.
  intros Hp Ht Hne.
  assert (HP : Prev < length (Decls st)) by (eapply lookup_lt_Some; eauto).
  assert (HT : This < length (Decls st)) by (eapply lookup_lt_Some; eauto).
  unfold setPreviousDecl.
  step ltac:(apply getDecl_Ok, Hp).
  step ltac:(reflexivity).
  step ltac:(apply getDecl_Ok; cbn; apply list_lookup_insert_eq, HP).
  step ltac:(apply getDecl_Ok; cbn; rewrite list_lookup_insert_ne by done;
             exact Ht).
  step ltac:(reflexivity).
  step ltac:(apply getDecl_Ok; cbn; apply list_lookup_insert_eq;
             rewrite length_insert; exact HT).
  unfold putDecl, modify. cbn. rewrite list_insert_insert_eq. reflexivity.
Qed.

(** A chain extended at its end: the last declaration [Prev] leads to the
    new one, which leads back to the first. *)
Lemma isRing_extend ds ds' rs Prev This p X :
  isRing ds rs → last rs = Some Prev → ds !! Prev = Some p → This ∉ rs →
  ds' !! Prev = Some (setNext p This) →
  ds' !! This = Some X → First X = First p → Next X = First p →
  (∀ D, D ∈ rs → D ≠ Prev → ds' !! D = ds !! D) →
  isRing ds' (rs ++ [This]).
Proof.
  intros [Hnd Hring] Hlast Hp Hout HP' HT' HXF HXN Hsame.
  apply last_Some in Hlast as [l ->].
  destruct (Hring (length l) Prev) as (p' & Hp' & HpF & _).
  { apply list_lookup_middle. reflexivity. }
  rewrite Hp in Hp'. injection Hp' as <-.
  assert (Hhead : head ((l ++ [Prev]) ++ [This]) = head (l ++ [Prev])).
  { destruct l; reflexivity. }
  split.
  - apply NoDup_app. split_and!; [exact Hnd| |apply NoDup_singleton].
    intros x Hx Hx'. apply list_elem_of_singleton in Hx' as ->. done.
  - intros i r Hr. rewrite Hhead.
    destruct (decide (i < length l)) as [Hi|Hi].
    + (* a declaration before the last one: unchanged *)
      assert (Hr' : (l ++ [Prev]) !! i = Some r).
      { rewrite lookup_app_l in Hr by (rewrite length_app; simpl; lia).
        exact Hr. }
      destruct (Hring i r Hr') as (d & Hd & HF & HN).
      assert (r ≠ Prev).
      { intros ->.
        pose proof (NoDup_lookup _ i (length l) Prev Hnd Hr'
                      (list_lookup_middle _ _ _ _ eq_refl)). lia. }
      exists d. split_and!; [|exact HF|].
      * rewrite Hsame; [exact Hd| |done].
        eapply list_elem_of_lookup_2, Hr'.
      * rewrite HN. unfold ringNext. rewrite Hhead.
        rewrite (lookup_app_l (l ++ [Prev]))
          by (rewrite length_app; simpl; lia).
        reflexivity.
    + destruct (decide (i = length l)) as [->|Hi'].
      * (* the last one of the chain: linked to the new one *)
        rewrite lookup_app_l in Hr by (rewrite length_app; simpl; lia).
        rewrite list_lookup_middle in Hr by reflexivity.
        injection Hr as <-.
        exists (setNext p This). split_and!; [exact HP'|exact HpF|].
        unfold ringNext.
        rewrite (list_lookup_middle (l ++ [Prev]) [] This)
          by (rewrite length_app; simpl; lia).
        reflexivity.
      * (* the new one: it leads back to the first *)
        assert (i = length (l ++ [Prev])) as ->.
        { apply lookup_lt_Some in Hr. rewrite !length_app in *.
          simpl in *. lia. }
        rewrite list_lookup_middle in Hr by reflexivity.
        injection Hr as <-.
        exists X. split_and!; [exact HT'|rewrite HXF; exact HpF|].
        unfold ringNext. rewrite Hhead.
        rewrite lookup_ge_None_2 by (rewrite !length_app; simpl; lia).
        rewrite HXN. exact HpF.
Qed.

Lemma isRing_lookup ds rs r : isRing ds rs → r ∈ rs → is_Some (ds !! r).
Proof.
  intros [_ Hring] Hin. apply list_elem_of_lookup_1 in Hin as [i Hi].
  destruct (Hring i r Hi) as (d & Hd & _). eauto.
Qed.

(** X5. [setPreviousDecl] extends a chain of redeclarations at its end:
    when [Prev] is the last declaration of a chain and [This] is a
    declaration outside it, the call succeeds, the chain followed by [This]
    is a chain again, and no other declaration and nothing else of the
    state is changed. *)
Theorem setPreviousDecl_ring st rs This Prev :
  isRing (Decls st) rs → last rs = Some Prev →
  This ∉ rs → is_Some (Decls st !! This) →
  ∃ ds,
    setPreviousDecl This Prev st = Ok (tt, setDecls ds st)
    ∧ isRing ds (rs ++ [This])
    ∧ length ds = length (Decls st)
    ∧ ∀ D, D ∉ rs → D ≠ This → ds !! D = Decls st !! D.
Proof.
  intros Hring Hlast Hout [t Ht].
  assert (Hin : Prev ∈ rs).
  { apply last_Some in Hlast as [l ->]. apply elem_of_app. right.
    apply list_elem_of_here. }
  assert (Hne : This ≠ Prev) by (intros ->; done).
  destruct (isRing_lookup _ _ _ Hring Hin) as [p Hp].
  assert (HP : Prev < length (Decls st)) by (eapply lookup_lt_Some; eauto).
  assert (HT : This < length (Decls st)) by (eapply lookup_lt_Some; eauto).
  eexists. split; [apply (setPreviousDecl_run st This Prev t p); done|].
  split_and!.
  - eapply (isRing_extend (Decls st) _ rs Prev This p
              (setNext (setFirst t (First p)) (First p))
              Hring Hlast Hp Hout).
    + rewrite list_lookup_insert_ne by done.
      apply list_lookup_insert_eq, HP.
    + apply list_lookup_insert_eq. rewrite length_insert. exact HT.
    + reflexivity.
    + reflexivity.
    + intros D HD HDP.
      assert (D ≠ This) by (intros ->; done).
      rewrite !list_lookup_insert_ne by done. reflexivity.
  - rewrite !length_insert. reflexivity.
  - intros D HD HDT.
    assert (D ≠ Prev) by (intros ->; done).
    rewrite !list_lookup_insert_ne by done. reflexivity.
Qed.

Lemma isRing_singleton ds r d :
  ds !! r = Some d → First d = r → Next d = r → isRing ds [r].
Proof.
  intros Hd HF HN. split; [apply NoDup_singleton|].
  intros [|i] r' Hr; [|discriminate]. injection Hr as <-.
  exists d. rewrite HF, HN. split_and!; done.
Qed.

Lemma setPreviousDecl_ring_witness :
  let d r := mkDeclaration None (AtomSyntax r "x") [] None None (Some "x")
               None r r in
  let st := setDecls [d 0; d 1] initialSema in
  ∃ ds,
    setPreviousDecl 1 0 st = Ok (tt, setDecls ds st)
    ∧ isRing ds ([0] ++ [1])
    ∧ length ds = length (Decls st)
    ∧ ∀ D, D ∉ [0] → D ≠ 1 → ds !! D = Decls st !! D.
Proof.
  intros d st.
  apply (setPreviousDecl_ring st [0] 1 0).
  - apply (isRing_singleton _ 0 (d 0)); reflexivity.
  - reflexivity.
  - intros Hin. apply list_elem_of_singleton in Hin. discriminate Hin.
  - exists (d 1). reflexivity.
Defined.

(** ** Reports and function scopes *)

#[export] Instance passive_preorder : PreOrder passive.
Proof.
  split.
  - intros st. repeat split.
  - intros a b c (H1 & H2 & H3) (H4 & H5 & H6).
    repeat split; congruence.
Qed.

Lemma modify_passive f :
  (∀ st, Diags (f st) = Diags st) → (∀ st, Errs (f st) = Errs st) →
  (∀ st, FunctionScopes (f st) = FunctionScopes st) →
  preserves passive (modify f).
Proof. intros ? ? ? st a st' [= _ <-]. repeat split; auto. Qed.

Lemma putDecl_passive D d : preserves passive (putDecl D d).
Proof. apply modify_passive; reflexivity. Qed.

Lemma putCxx_passive C c : preserves passive (putCxx C c).
Proof. apply modify_passive; reflexivity. Qed.

Lemma putScope_passive r s : preserves passive (putScope r s).
Proof. apply modify_passive; reflexivity. Qed.

Lemma newDecl_passive mk : preserves passive (newDecl mk).
Proof. intros st a st' [= _ <-]. repeat split. Qed.

Lemma newCxx_passive c : preserves passive (newCxx c).
Proof. intros st a st' [= _ <-]. repeat split. Qed.

Lemma enterScope_passive K S : preserves passive (enterScope K S).
Proof. intros st a st' [= _ <-]. repeat split. Qed.

Lemma pushDecl_passive D : preserves passive (pushDecl D).
Proof. apply modify_passive; reflexivity. Qed.

Lemma popDecl_passive : preserves passive popDecl.
Proof.
  intros st a st'. unfold popDecl. destruct (DeclStack st); [done|].
  intros [= _ <-]. repeat split.
Qed.

Lemma setCurrentScope_passive c :
  preserves passive (modify (setCurrentScope c)).
Proof. apply modify_passive; reflexivity. Qed.

Lemma pushScope_passive Sc : preserves passive (pushScope Sc).
Proof.
  unfold pushScope. destruct Sc; [|apply preserves_abort].
  apply modify_passive; reflexivity.
Qed.

#[export] Hint Resolve putDecl_passive putCxx_passive putScope_passive
  newDecl_passive newCxx_passive enterScope_passive pushDecl_passive
  popDecl_passive setCurrentScope_passive pushScope_passive : pres.

Lemma popScope_passive : preserves passive popScope.
Proof. unfold popScope. pres. Qed.

#[export] Hint Resolve popScope_passive : pres.

Lemma leaveScope_passive S : preserves passive (leaveScope S).
Proof. unfold leaveScope. pres. Qed.

Lemma setDeclCxx_passive D C : preserves passive (setDeclCxx D C).
Proof. unfold setDeclCxx. pres. Qed.

Lemma setParams_passive FD Ps : preserves passive (Elaborator.setParams FD Ps).
Proof. unfold Elaborator.setParams. pres. Qed.

Lemma setBody_passive FD B : preserves passive (Elaborator.setBody FD B).
Proof. unfold Elaborator.setBody. pres. Qed.

Lemma setType_passive VD T : preserves passive (Elaborator.setType VD T).
Proof. unfold Elaborator.setType. pres. Qed.

Lemma addToContext_passive O C : preserves passive (addToContext O C).
Proof. unfold addToContext. pres. Qed.

#[export] Hint Resolve leaveScope_passive setDeclCxx_passive
  setParams_passive setBody_passive setType_passive addToContext_passive
  : pres.

(** The first action of a successful run, with its result and the state it
    leaves. *)
Tactic Notation "inv_bind" hyp(H) "as" ident(a) ident(st) ident(E) :=
  apply bind_inv in H as (a & st & E & H); cbv beta in H.

(** A read leaves the state as it is. *)
Ltac inv_read E := apply read_eq in E; [subst|solve [pres]].
Lemma preserves_run R {A} (m : M A) st a st' :
  preserves R m → m st = Ok (a, st') → R st st'.
Proof. intros Hm Hrun. eapply Hm, Hrun. Qed.

Lemma setDeclCxx_inv D C st u st' :
  setDeclCxx D C st = Ok (u, st') →
  ∃ d, Decls st !! D = Some d
       ∧ st' = setDecls (<[D := setCxx d (Some C)]> (Decls st)) st.
Proof.
  intros Hrun. unfold setDeclCxx in Hrun. inv_bind Hrun as d st1 E.
  apply getDecl_inv in E as [-> Hd]. injection Hrun as _ <-. eauto.
Qed.

Lemma setDeclCxx_handle D C st u st' :
  setDeclCxx D C st = Ok (u, st') →
  ∃ d', Decls st' !! D = Some d' ∧ Cxx d' = Some C.
Proof.
  intros Hrun. apply setDeclCxx_inv in Hrun as (d & Hd & ->).
  exists (setCxx d (Some C)). split; [|reflexivity].
  cbn. apply list_lookup_insert_eq. eapply lookup_lt_Some, Hd.
Qed.

Section Reports.

Context (H : Host) (HP : Passive H).

Lemma host_type_passive D : preserves passive (elaborateTypeExpr H D).
Proof. apply HP. Qed.
Lemma host_main_passive C : preserves passive (CheckMain H C).
Proof. apply HP. Qed.
Lemma host_expr_passive S : preserves passive (elaborateExpr H S).
Proof. apply HP. Qed.
Lemma host_block_passive S : preserves passive (elaborateBlock H S).
Proof. apply HP. Qed.
Lemma host_redefinition_passive D :
  preserves passive (checkForRedefinition H D).
Proof. apply HP. Qed.
Lemma host_initializer_passive C E :
  preserves passive (AddInitializerToDecl H C E).
Proof. apply HP. Qed.

Local Hint Resolve host_type_passive host_main_passive host_expr_passive
  host_block_passive host_redefinition_passive host_initializer_passive
  : pres.

(** The common start of the three elaborations of a declaration: the owner
    is read, the bridge is run, and a null result is reported. *)
Lemma translateType_inv {A} (k : CxxRef → Declaration → QualType → M (option A))
    D st r st' :
  (Owner_ <- getCurrentCxxDeclContext ;;
   TypeExpr <- elaborateTypeExpr H D ;;
   d <- getDecl D ;;
   if isNull TypeExpr then
     Report (getLoc (Op d)) err_failed_to_translate_type ;; ret None
   else
     TInfo <- Elaborator.getTypeSourceInfo TypeExpr ;;
     k Owner_ d TInfo) st = Ok (r, st') →
  ∃ st1 d1,
    passive st st1 ∧ Decls st1 !! D = Some d1
    ∧ (r = None ∧ st' = setDiags (Diags st1 ++ [untranslatable d1]) st1
       ∨ ∃ O T, k O d1 T st1 = Ok (r, st')).
Proof.
  intros Hrun.
  inv_bind Hrun as O st0 E0. inv_read E0.
  inv_bind Hrun as TE st1 E1. apply (preserves_run passive) in E1; [|pres].
  inv_bind Hrun as d1 st2 E2. apply getDecl_inv in E2 as [-> Hd].
  exists st1, d1. split_and!; [exact E1|exact Hd|].
  destruct (isNull TE).
  - left. injection Hrun as <- <-. split; reflexivity.
  - right. inv_bind Hrun as T st2 E2. inv_read E2. eauto.
Qed.

Lemma typeOutcome_null D n st st1 d1 :
  passive st st1 → Decls st1 !! D = Some d1 →
  typeOutcome D n st None (setDiags (Diags st1 ++ [untranslatable d1]) st1).
Proof.
  intros (HD & HE & HF) Hd. split; [exact HE|]. split; [exact HF|].
  exists d1. split; [exact Hd|]. cbn. rewrite HD. reflexivity.
Qed.

Lemma elaborateParameterDecl_outcome D st r st' :
  Elaborator.elaborateParameterDecl H D st = Ok (r, st') →
  typeOutcome D 0 st r st'.
Proof.
  intros Hrun. unfold Elaborator.elaborateParameterDecl in Hrun.
  apply (translateType_inv
           (λ Owner_ d TInfo,
              P <- newCxx (mkCxxDecl ParmVarDecl (Some Owner_) (getLoc (Op d))
                             (Id d) (Some TInfo) SC_None [] None None []) ;;
              setDeclCxx D P ;; ret (Some P))) in Hrun
    as (st1 & d1 & HP1 & Hd1 & [[-> ->]|(O & T & Hrun)]).
  { apply typeOutcome_null; done. }
  inv_bind Hrun as P st2 E2. apply (preserves_run passive) in E2; [|pres].
  inv_bind Hrun as u st3 E3.
  pose proof (preserves_run passive _ _ _ _ (setDeclCxx_passive D P) E3)
    as HP3.
  apply setDeclCxx_handle in E3. injection Hrun as <- <-.
  destruct (transitivity HP1 (transitivity E2 HP3)) as (HD & HE & HF).
  split; [exact HE|]. split_and!; [exact HD|rewrite HF; lia|exact E3].
Qed.

Lemma elaborateVariableDecl_outcome D st r st' :
  Elaborator.elaborateVariableDecl H D st = Ok (r, st') →
  typeOutcome D 0 st r st'.
Proof.
  intros Hrun. unfold Elaborator.elaborateVariableDecl in Hrun.
  inv_bind Hrun as Cur st0 E0. inv_read E0.
  inv_bind Hrun as s st0 E0. inv_read E0.
  destruct (isParameterScope s);
    [apply elaborateParameterDecl_outcome, Hrun|].
  apply (translateType_inv
           (λ Owner_ d TInfo,
              SC <- Elaborator.getStorageClass ;;
              VD <- newCxx (mkCxxDecl VarDecl (Some Owner_) (getLoc (Op d))
                              (Id d) (Some TInfo) SC [] None None []) ;;
              addToContext Owner_ VD ;;
              setDeclCxx D VD ;; ret (Some VD))) in Hrun
    as (st1 & d1 & HP1 & Hd1 & [[-> ->]|(O & T & Hrun)]).
  { apply typeOutcome_null; done. }
  inv_bind Hrun as SC st2 E2. inv_read E2.
  inv_bind Hrun as VD st2 E2. apply (preserves_run passive) in E2; [|pres].
  inv_bind Hrun as u st3 E3. apply (preserves_run passive) in E3; [|pres].
  inv_bind Hrun as u' st4 E4.
  pose proof (preserves_run passive _ _ _ _ (setDeclCxx_passive D VD) E4)
    as HP4.
  apply setDeclCxx_handle in E4. injection Hrun as <- <-.
  destruct (transitivity HP1 (transitivity E2 (transitivity E3 HP4)))
    as (HD & HE & HF).
  split; [exact HE|]. split_and!; [exact HD|rewrite HF; lia|exact E4].
Qed.

Lemma elaborateFunctionDecl_outcome D st r st' :
  Elaborator.elaborateFunctionDecl H D st = Ok (r, st') →
  typeOutcome D 1 st r st'.
Proof.
  intros Hrun. unfold Elaborator.elaborateFunctionDecl in Hrun.
  apply (translateType_inv
           (λ Owner_ d TInfo,
              FD <- newCxx (mkCxxDecl FunctionDecl (Some Owner_)
                              (getLoc (Op d)) (Id d) (Some TInfo) SC_Extern
                              [] None None []) ;;
              fd <- getCxx FD ;;
              st <- get ;;
              (if Elaborator.isMain fd (CxxAST st) then CheckMain H FD
               else ret tt) ;;
              Params <- Elaborator.getFunctionParameters D ;;
              Elaborator.setParams FD Params ;;
              addToContext Owner_ FD ;;
              setDeclCxx D FD ;;
              PushFunctionScope ;;
              ret (Some FD))) in Hrun
    as (st1 & d1 & HP1 & Hd1 & [[-> ->]|(O & T & Hrun)]).
  { apply typeOutcome_null; done. }
  inv_bind Hrun as FD st2 E2. apply (preserves_run passive) in E2; [|pres].
  inv_bind Hrun as fd st3 E3. inv_read E3.
  inv_bind Hrun as sx st3 E3. inv_read E3.
  inv_bind Hrun as u st3 E3.
  assert (HP3 : passive st2 st3).
  { destruct (Elaborator.isMain fd (CxxAST sx)).
    - eapply host_main_passive, E3.
    - injection E3 as _ <-. reflexivity. }
  inv_bind Hrun as Ps st4 E4. inv_read E4.
  inv_bind Hrun as u4 st4 E4. apply (preserves_run passive) in E4; [|pres].
  inv_bind Hrun as u5 st5 E5. apply (preserves_run passive) in E5; [|pres].
  inv_bind Hrun as u6 st6 E6.
  pose proof (preserves_run passive _ _ _ _ (setDeclCxx_passive D FD) E6)
    as HP6.
  apply setDeclCxx_handle in E6. injection Hrun as <- <-.
  destruct (transitivity HP1 (transitivity E2 (transitivity HP3
             (transitivity E4 (transitivity E5 HP6))))) as (HD & HE & HF).
  split; [exact HE|]. split_and!; [exact HD|cbn; rewrite HF; lia|exact E6].
Qed.

Lemma elaborateDecl_dispatch D st r st' :
  Elaborator.elaborateDecl H D st = Ok (r, st') →
  ∃ d, Decls st !! D = Some d
       ∧ (if declaresFunction d then Elaborator.elaborateFunctionDecl H D
          else Elaborator.elaborateVariableDecl H D) st = Ok (r, st').
Proof.
  intros Hrun. unfold Elaborator.elaborateDecl in Hrun.
  inv_bind Hrun as d st0 E0. apply getDecl_inv in E0 as [-> Hd].
  exists d. split; [exact Hd|]. destruct (declaresFunction d); exact Hrun.
Qed.

Lemma elaborateDef_dispatch D st u st' :
  Elaborator.elaborateDef H D st = Ok (u, st') →
  ∃ d, Decls st !! D = Some d
       ∧ (if declaresFunction d then Elaborator.elaborateFunctionDef H D
          else Elaborator.elaborateVariableInit H D) st = Ok (u, st').
Proof.
  intros Hrun. unfold Elaborator.elaborateDef in Hrun.
  inv_bind Hrun as d st0 E0. apply getDecl_inv in E0 as [-> Hd].
  exists d. split; [exact Hd|]. destruct (declaresFunction d); exact Hrun.
Qed.

(** X6. With a passive host, a successful [elaborateDecl] returns null
    exactly when it has reported, once and at the declaration, that the
    type cannot be translated; otherwise it reports nothing and the host
    declaration it returns is the one recorded in the declaration.  It
    never writes to the error stream, and it opens one function scope when
    it creates a function and none in every other case. *)
Theorem elaborateDecl_outcome D st r st' :
  Elaborator.elaborateDecl H D st = Ok (r, st') →
  ∃ d, Decls st !! D = Some d
       ∧ typeOutcome D (if declaresFunction d then 1 else 0) st r st'.
Proof.
  intros Hrun. apply elaborateDecl_dispatch in Hrun as (d & Hd & Hrun).
  exists d. split; [exact Hd|].
  destruct (declaresFunction d).
  - apply elaborateFunctionDecl_outcome, Hrun.
  - apply elaborateVariableDecl_outcome, Hrun.
Qed.

Lemma PopFunctionScopeInfo_inv st u st' :
  PopFunctionScopeInfo st = Ok (u, st') →
  Diags st' = Diags st ∧ Errs st' = Errs st
  ∧ FunctionScopes st' + 1 = FunctionScopes st.
Proof.
  unfold PopFunctionScopeInfo. destruct (FunctionScopes st) eqn:E; [done|].
  intros [= _ <-]. cbn. split_and!; [done..|lia].
Qed.

Lemma elaborateFunctionDef_outcome D st u st' d :
  Decls st !! D = Some d → declaresFunction d = true →
  Elaborator.elaborateFunctionDef H D st = Ok (u, st') →
  defOutcome d st st'.
Proof.
  intros Hd Hf Hrun. unfold defOutcome. rewrite Hf.
  unfold Elaborator.elaborateFunctionDef in Hrun.
  inv_bind Hrun as d0 st0 E0. apply getDecl_inv in E0 as [-> Hd0].
  rewrite Hd in Hd0. injection Hd0 as <-.
  inv_bind Hrun as FD st0 E0. inv_read E0.
  destruct (Init d) as [Init_|] eqn:Hi;
    [|injection Hrun as _ <-; split_and!; auto].
  inv_bind Hrun as Redefined st1 E1.
  apply (preserves_run passive) in E1; [|pres].
  destruct E1 as (HD1 & HE1 & HF1).
  destruct Redefined; [injection Hrun as _ <-; split_and!; auto|].
  inv_bind Hrun as u2 st2 E2. apply (preserves_run passive) in E2; [|pres].
  inv_bind Hrun as Fn st3 E3. inv_read E3.
  destruct Fn as [| |c p ps|]; try discriminate.
  inv_bind Hrun as u3 st3 E3. apply (preserves_run passive) in E3; [|pres].
  inv_bind Hrun as u4 st4 E4. apply (preserves_run passive) in E4; [|pres].
  inv_bind Hrun as Body st5 E5. apply (preserves_run passive) in E5; [|pres].
  inv_bind Hrun as u6 st6 E6. apply (preserves_run passive) in E6; [|pres].
  inv_bind Hrun as u7 st7 E7. apply (preserves_run passive) in E7; [|pres].
  inv_bind Hrun as u8 st8 E8. apply (preserves_run passive) in E8; [|pres].
  inv_bind Hrun as u9 st9 E9. apply PopFunctionScopeInfo_inv in E9.
  apply (preserves_run passive) in Hrun; [|pres].
  destruct (transitivity E2 (transitivity E3 (transitivity E4
             (transitivity E5 (transitivity E6 (transitivity E7 E8))))))
    as (HD & HE & HF).
  destruct E9 as (HD9 & HE9 & HF9). destruct Hrun as (HD' & HE' & HF').
  split_and!; [congruence|congruence|].
  right. split; [eauto|]. congruence.
Qed.

Lemma errs_inv Line st u st' :
  errs Line st = Ok (u, st') →
  Diags st' = Diags st ∧ Errs st' = Errs st ++ [Line]
  ∧ FunctionScopes st' = FunctionScopes st.
Proof. intros [= _ <-]. split_and!; reflexivity. Qed.

Lemma elaborateVariableInit_outcome D st u st' d :
  Decls st !! D = Some d → declaresFunction d = false →
  Elaborator.elaborateVariableInit H D st = Ok (u, st') →
  defOutcome d st st'.
Proof.
  intros Hd Hf Hrun. unfold defOutcome. rewrite Hf.
  unfold Elaborator.elaborateVariableInit in Hrun.
  inv_bind Hrun as d0 st0 E0. apply getDecl_inv in E0 as [-> Hd0].
  rewrite Hd in Hd0. injection Hd0 as <-.
  destruct (Cxx d) as [C|]; [|injection Hrun as _ <-; split_and!; auto].
  inv_bind Hrun as VD st0 E0. inv_read E0.
  destruct (Init d) as [Init_|] eqn:Hi;
    [|injection Hrun as _ <-; split_and!; auto].
  inv_bind Hrun as Redefined st1 E1.
  apply (preserves_run passive) in E1; [|pres].
  destruct E1 as (HD1 & HE1 & HF1).
  destruct Redefined; [injection Hrun as _ <-; split_and!; auto|].
  inv_bind Hrun as Init' st2 E2.
  apply (preserves_run passive) in E2; [|pres].
  destruct E2 as (HD2 & HE2 & HF2).
  assert (Hline : ∀ line st3, line ∈ initErrors → errs line st2 = Ok (u, st3) →
            Diags st3 = Diags st
            ∧ FunctionScopes st3 = FunctionScopes st
              ∧ (Errs st3 = Errs st
                 ∨ is_Some (Some Init_)
                   ∧ ∃ line, line ∈ initErrors ∧ Errs st3 = Errs st ++ [line])).
  { intros line st3 Hin E. apply errs_inv in E as (HD3 & HE3 & HF3).
    split_and!; [congruence|congruence|]. right. split; [eauto|].
    exists line. split; [exact Hin|congruence]. }
  assert (Hquiet : ∀ st3, passive st2 st3 →
            Diags st3 = Diags st
            ∧ FunctionScopes st3 = FunctionScopes st
              ∧ (Errs st3 = Errs st
                 ∨ is_Some (Some Init_)
                   ∧ ∃ line, line ∈ initErrors ∧ Errs st3 = Errs st ++ [line])).
  { intros st3 (HD3 & HE3 & HF3). split_and!; [congruence|congruence|].
    left. congruence. }
  destruct Init' as [InitExpr|T].
  2:{ destruct u. eapply Hline, Hrun. unfold initErrors. repeat constructor. }
  inv_bind Hrun as vd st3 E3. inv_read E3.
  destruct (CType vd) as [T|]; [|discriminate].
  destruct (isUndeducedType T).
  - destruct (DeduceAutoType H T InitExpr) as [[| |] Ty].
    + apply Hquiet. apply (preserves_run passive) in Hrun; [exact Hrun|pres].
    + destruct u. eapply Hline, Hrun. unfold initErrors. repeat constructor.
    + apply Hquiet. apply (preserves_run passive) in Hrun; [exact Hrun|pres].
  - apply Hquiet. apply (preserves_run passive) in Hrun; [exact Hrun|pres].
Qed.

(** X7. With a passive host, a successful [elaborateDef] reports no
    diagnostic.  For a function it writes nothing to the error stream and
    closes one function scope or none; for a variable it keeps the function
    scopes and writes at most one line, [Expected expression.] or
    [Failed to deduce type of expression.]; and a declaration without an
    initializer is left without any of these effects. *)
Theorem elaborateDef_outcome D st st' :
  Elaborator.elaborateDef H D st = Ok (tt, st') →
  ∃ d, Decls st !! D = Some d ∧ defOutcome d st st'.
Proof.
  intros Hrun. apply elaborateDef_dispatch in Hrun as (d & Hd & Hrun).
  exists d. split; [exact Hd|].
  destruct (declaresFunction d) eqn:Hf.
  - eapply elaborateFunctionDef_outcome; eauto.
  - eapply elaborateVariableInit_outcome; eauto.
Qed.

(** X8. The function scope that [elaborateFunctionDecl] opens is closed
    only by the elaboration of a body: with a passive host, when the type
    and then the definition of a function without initializer are
    elaborated, one more function scope is open than before. *)
Theorem function_scope_left_open D st C st1 d1 st2 :
  Elaborator.elaborateFunctionDecl H D st = Ok (Some C, st1) →
  Decls st1 !! D = Some d1 → declaresFunction d1 = true → Init d1 = None →
  Elaborator.elaborateDef H D st1 = Ok (tt, st2) →
  FunctionScopes st2 = FunctionScopes st + 1.
Proof.
  intros Ht Hd Hf Hi Hdef.
  apply elaborateFunctionDecl_outcome in Ht as (_ & _ & HF1 & _).
  apply elaborateDef_dispatch in Hdef as (d & Hd' & Hdef).
  rewrite Hd in Hd'. injection Hd' as <-. rewrite Hf in Hdef.
  apply (elaborateFunctionDef_outcome D st1 tt st2 d1 Hd Hf) in Hdef
    as (_ & Hout).
  rewrite Hf in Hout.
  destruct Hout as (_ & [HF2|[[x Hx] _]]); [congruence|].
  rewrite Hi in Hx. discriminate.
Qed.

Lemma reports_passive st st' : passive st st' → reports 0 0 st st'.
Proof.
  intros (HD & HE & _). exists [], []. rewrite !app_nil_r.
  split_and!; auto.
Qed.

Lemma reports_weaken nd ne md me st st' :
  nd ≤ md → ne ≤ me → reports nd ne st st' → reports md me st st'.
Proof.
  intros Hd He (ds & es & HD & HE & Hd' & He' & Hes).
  exists ds, es. split_and!; [done|done|lia|lia|done].
Qed.

Lemma reports_trans nd ne md me a b c :
  reports nd ne a b → reports md me b c → reports (nd + md) (ne + me) a c.
Proof.
  intros (ds & es & HD & HE & Hd & He & Hes)
         (ds' & es' & HD' & HE' & Hd' & He' & Hes').
  exists (ds ++ ds'), (es ++ es').
  rewrite HD', HD, HE', HE, !app_assoc, !length_app.
  split_and!; [done|done|lia|lia|apply Forall_app; done].
Qed.

Lemma reports_forEach {A} nd ne (l : list A) (f : A → M unit) st u st' :
  (∀ x st u st', f x st = Ok (u, st') → reports nd ne st st') →
  forEach l f st = Ok (u, st') →
  reports (length l * nd) (length l * ne) st st'.
Proof.
  intros Hf. revert st. induction l as [|x l IH]; intros st Hrun.
  - injection Hrun as _ <-. apply reports_passive. reflexivity.
  - simpl in Hrun. inv_bind Hrun as u1 st1 E1. simpl.
    eapply reports_trans; [eapply Hf, E1|eapply IH, Hrun].
Qed.

Lemma identifyDecl_passive S : preserves passive (Elaborator.identifyDecl H S).
Proof.
  intros st u st' Hrun.
  apply identifyDecl_inv in Hrun as [->|(sc & s & Decl_ & Init_ & OpEq & Dcl
    & ds & F & _ & _ & _ & _ & _ & _ & ->)]; [reflexivity|].
  repeat split.
Qed.

Lemma startFile_passive S : preserves passive (Elaborator.startFile S).
Proof. unfold Elaborator.startFile, setDeclSavedScope. pres. Qed.

Lemma finishFile_passive S : preserves passive (Elaborator.finishFile S).
Proof. unfold Elaborator.finishFile. pres. Qed.

Lemma elaborateDeclType_reports S st r st' :
  Elaborator.elaborateDeclType H S st = Ok (r, st') → reports 1 0 st st'.
Proof.
  intros Hrun. unfold Elaborator.elaborateDeclType in Hrun.
  inv_bind Hrun as Cur st0 E0. inv_read E0.
  inv_bind Hrun as D st0 E0. inv_read E0.
  destruct D as [D|];
    [|injection Hrun as _ <-; apply (reports_weaken 0 0); [lia..|];
      apply reports_passive; reflexivity].
  apply elaborateDecl_dispatch in Hrun as (d & _ & Hrun).
  assert (∃ n, typeOutcome D n st r st') as (n & HE & Hout).
  { destruct (declaresFunction d); eexists.
    - apply elaborateFunctionDecl_outcome, Hrun.
    - apply elaborateVariableDecl_outcome, Hrun. }
  destruct r as [C|].
  - destruct Hout as (HD & _).
    exists [], []. rewrite !app_nil_r. split_and!; simpl; auto.
  - destruct Hout as (_ & d' & _ & HD).
    exists [untranslatable d'], []. rewrite !app_nil_r.
    split_and!; simpl; auto.
Qed.

Lemma elaborateDeclInit_reports S st u st' :
  Elaborator.elaborateDeclInit H S st = Ok (u, st') → reports 0 1 st st'.
Proof.
  intros Hrun. unfold Elaborator.elaborateDeclInit in Hrun.
  inv_bind Hrun as Cur st0 E0. inv_read E0.
  inv_bind Hrun as D st0 E0. inv_read E0.
  destruct D as [D|];
    [|injection Hrun as _ <-; apply (reports_weaken 0 0); [lia..|];
      apply reports_passive; reflexivity].
  apply elaborateDef_dispatch in Hrun as (d & Hd & Hrun).
  assert (defOutcome d st st') as (HD & Hout).
  { destruct (declaresFunction d) eqn:Hf.
    - eapply elaborateFunctionDef_outcome; eauto.
    - eapply elaborateVariableInit_outcome; eauto. }
  assert (HE : Errs st' = Errs st
               ∨ ∃ line, line ∈ initErrors ∧ Errs st' = Errs st ++ [line]).
  { destruct (declaresFunction d).
    - left. apply Hout.
    - destruct Hout as (_ & [HE|(_ & Hl)]); auto. }
  destruct HE as [HE|(line & Hin & HE)].
  - exists [], []. rewrite !app_nil_r. split_and!; simpl; auto.
  - exists [], [line]. rewrite !app_nil_r. split_and!; simpl; auto.
Qed.

(** X9. With a passive host, a successful [elaborateFile] reports at most
    one diagnostic and writes at most one line to the error stream for
    each top-level node of the file, after what was reported and written
    before; the lines are those of the definition pass. *)
Theorem elaborateFile_reports S st r st' :
  Elaborator.elaborateFile H S st = Ok (r, st') →
  reports (length (children S)) (length (children S)) st st'.
Proof.
  intros Hrun. unfold Elaborator.elaborateFile in Hrun.
  destruct S as [| | | |a cs]; try discriminate.
  set (F := FileSyntax a cs) in *. cbn [children].
  inv_bind Hrun as u0 st0 E0.
  apply (preserves_run passive), reports_passive in E0;
    [|apply startFile_passive].
  inv_bind Hrun as u1 st1 E1.
  apply (preserves_run passive), reports_passive in E1;
    [|apply preserves_forEach; [apply _|apply identifyDecl_passive]].
  inv_bind Hrun as u2 st2 E2.
  apply (reports_forEach 1 0) in E2.
  2:{ intros x sx ux sx' Hx. inv_bind Hx as rx sy Ey.
      injection Hx as _ <-. eapply elaborateDeclType_reports, Ey. }
  inv_bind Hrun as u3 st3 E3.
  apply (reports_forEach 0 1) in E3;
    [|intros x sx ux sx'; apply elaborateDeclInit_reports].
  inv_bind Hrun as u4 st4 E4.
  apply (preserves_run passive), reports_passive in E4;
    [|apply finishFile_passive].
  injection Hrun as _ <-.
  pose proof (reports_trans _ _ _ _ _ _ _ E0
               (reports_trans _ _ _ _ _ _ _ E1
                  (reports_trans _ _ _ _ _ _ _ E2
                     (reports_trans _ _ _ _ _ _ _ E3 E4)))) as HR.
  cbn [children F] in HR.
  replace (0 + (0 + (length cs * 1 + (length cs * 0 + 0))))
    with (length cs) in HR by lia.
  replace (0 + (0 + (length cs * 0 + (length cs * 1 + 0))))
    with (length cs) in HR by lia.
  exact HR.
Qed.

End Reports.
Lemma sampleHost_passive : Passive SampleHost.host.
Proof.
  split; simpl.
  - intros D. unfold SampleHost.typeExpr. pres.
  - intros C. pres.
  - intros S. pres.
  - intros S. pres.
  - intros D. pres.
  - intros C E. unfold SampleHost.setInit. pres.
Qed.

Lemma elaborateDecl_outcome_witness :
  let st := Examples.after
              (forEach (children Examples.three_file)
                 (Elaborator.identifyDecl SampleHost.host))
              (Examples.after (Elaborator.startFile Examples.three_file)
                 initialSema) in
  let st' := Examples.after (Elaborator.elaborateDecl SampleHost.host 1) st in
  ∃ d, Decls st !! 1 = Some d
       ∧ typeOutcome 1 (if declaresFunction d then 1 else 0) st (Some 1) st'.
Proof.
  intros st st'.
  apply (elaborateDecl_outcome SampleHost.host sampleHost_passive 1 st
           (Some 1) st').
  vm_compute. reflexivity.
Defined.

Lemma elaborateDef_outcome_witness :
  let st := Examples.typed Examples.three_file in
  let st' := Examples.after (Elaborator.elaborateDef SampleHost.host 3) st in
  ∃ d, Decls st !! 3 = Some d ∧ defOutcome d st st'.
Proof.
  intros st st'.
  apply (elaborateDef_outcome SampleHost.host sampleHost_passive 3 st st').
  vm_compute. reflexivity.
Defined.

Lemma function_scope_left_open_witness :
  let F := Examples.colon 23 (Examples.call0 26 "f") (AtomSyntax 29 "int") in
  let st := Examples.after (Elaborator.identifyDecl SampleHost.host F)
              (Examples.after (Elaborator.startFile (FileSyntax 1 [F]))
                 initialSema) in
  let st1 := Examples.after
               (Elaborator.elaborateFunctionDecl SampleHost.host 1) st in
  let st2 := Examples.after (Elaborator.elaborateDef SampleHost.host 1) st1 in
  FunctionScopes st2 = FunctionScopes st + 1.
Proof.
  intros F st st1 st2.
  apply (function_scope_left_open SampleHost.host sampleHost_passive 1 st 1
           st1
           (mkDeclaration (Some 0) F
              [DK_Identifier (AtomSyntax 27 "f");
               DK_Function (Examples.call0 26 "f") (ListSyntax 28 []) (Some 1);
               DK_Type (Some F) (Some (AtomSyntax 29 "int"))]
              None None (Some "f") (Some 1) 1 1)
           st2).
  - vm_compute. reflexivity.
  - vm_compute. reflexivity.
  - vm_compute. reflexivity.
  - vm_compute. reflexivity.
  - vm_compute. reflexivity.
Defined.

Lemma elaborateFile_reports_witness :
  let F := FileSyntax 1 [Examples.v_nosuch] in
  reports (length (children F)) (length (children F)) initialSema
    (Examples.after (Elaborator.elaborateFile SampleHost.host F) initialSema).
Proof.
  intros F.
  apply (elaborateFile_reports SampleHost.host sampleHost_passive F
           initialSema getTranslationUnitDecl).
  vm_compute. reflexivity.
Defined.

(** ** Parameters *)

Lemma collect_Forall2 {A B} (R : Sema → A → B → Prop) (l : list A)
    (f : A → M B) st bs st' :
  (∀ x st b st', f x st = Ok (b, st') → st' = st ∧ R st x b) →
  collect l f st = Ok (bs, st') → st' = st ∧ Forall2 (R st) l bs.
Proof.
  intros Hf. revert bs st'. induction l as [|x l IH]; intros bs st' Hrun.
  - injection Hrun as <- <-. split; [reflexivity|constructor].
  - simpl in Hrun. inv_bind Hrun as b st1 E1.
    apply Hf in E1 as [-> Hb].
    inv_bind Hrun as bs' st2 E2. apply IH in E2 as [-> Hbs].
    injection Hrun as <- <-. split; [reflexivity|constructor; done].
Qed.

Lemma castTo_inv ok C st r st' :
  Elaborator.castTo ok C st = Ok (r, st') →
  st' = st ∧ C = Some r ∧ ∃ c, CxxAST st !! r = Some c ∧ ok (CKind c) = true.
Proof.
  unfold Elaborator.castTo. destruct C as [r0|]; [|discriminate].
  intros Hrun. inv_bind Hrun as c st1 E1.
  unfold getCxx in E1. destruct (CxxAST st !! r0) as [c0|] eqn:Ec; [|done].
  injection E1 as <- <-.
  destruct (ok (CKind c0)) eqn:Hok; [|discriminate].
  injection Hrun as <- <-. eauto.
Qed.

(** X10. [getFunctionParameters] reads the state only, and it returns one
    host parameter for each node of the parameter list of the function
    fragment, in the order of the list: the [ParmVarDecl] recorded in the
    declaration that the saved parameter scope binds to the node. *)
Theorem getFunctionParameters_params D st Ps st' :
  Elaborator.getFunctionParameters D st = Ok (Ps, st') →
  st' = st
  ∧ ∃ d Id_ Call ParamList Sc rest,
      Decls st !! D = Some d
      ∧ Decl d = DK_Identifier Id_ :: DK_Function Call ParamList Sc :: rest
      ∧ Forall2 (paramOf st Sc) (children ParamList) Ps.
Proof.
  intros Hrun. unfold Elaborator.getFunctionParameters in Hrun.
  inv_bind Hrun as Fn st1 E1.
  unfold Elaborator.getFunctionDeclaratorOf in E1.
  inv_bind E1 as d st0 E0. apply getDecl_inv in E0 as [-> Hd].
  destruct (Decl d) as [|[i| | |] [|[| |c p sc|] rest]] eqn:HD;
    try discriminate.
  injection E1 as <- <-.
  apply (collect_Forall2 (λ st, paramOf st sc)) in Hrun as [-> HF].
  { split; [reflexivity|]. exists d, i, c, p, sc, rest. auto. }
  clear. intros P st pr st' Hrun.
  inv_bind Hrun as PD st1 E1. apply findDecl_inv in E1 as [-> ->].
  destruct (findDeclIn st sc P) as [pd|] eqn:Hf; [|discriminate].
  inv_bind Hrun as p st1 E1. apply getDecl_inv in E1 as [-> Hp].
  destruct (Cxx p) as [C|] eqn:HC; [|discriminate].
  apply castTo_inv in Hrun as (-> & [= <-] & c & Hc & Hk).
  split; [reflexivity|]. exists pd, p, c. split_and!; try done.
  destruct (CKind c); done.
Qed.

Lemma getFunctionParameters_params_witness :
  let P := Examples.colon 50 (AtomSyntax 53 "n") (AtomSyntax 54 "int") in
  let Call := CallSyntax 26 (AtomSyntax 27 "f") (ListSyntax 28 [P]) in
  let f := mkDeclaration None Call
             [DK_Identifier (AtomSyntax 27 "f");
              DK_Function Call (ListSyntax 28 [P]) (Some 0)]
             None None (Some "f") None 0 0 in
  let n := mkDeclaration (Some 0) P [DK_Identifier (AtomSyntax 53 "n")]
             None None (Some "n") (Some 1) 1 1 in
  let st :=
    setCxxAST
      (CxxAST initialSema
       ++ [mkCxxDecl ParmVarDecl (Some 0) 50 (Some "n")
             (Some (BuiltinType "int")) SC_None [] None None []])
      (setScopes [mkScope SK_Parameter None Call {[50 := 1]} {["n" := 1]}]
         (setDecls [f; n] initialSema)) in
  st = st
  ∧ ∃ d Id_ Call ParamList Sc rest,
      Decls st !! 0 = Some d
      ∧ Decl d = DK_Identifier Id_ :: DK_Function Call ParamList Sc :: rest
      ∧ Forall2 (paramOf st Sc) (children ParamList) [1].
Proof.
  intros P Call f n st.
  apply (getFunctionParameters_params 0 st [1] st).
  vm_compute. reflexivity.
Defined.

(** ** Host declarations of variables *)

Lemma getTypeSourceInfo_inv E T st st' :
  Elaborator.getTypeSourceInfo E st = Ok (T, st') → st' = st ∧ E = IsType T.
Proof. destruct E; [discriminate|]. intros [= <- <-]. auto. Qed.

Lemma getCxx_inv C st c st' :
  getCxx C st = Ok (c, st') → st' = st ∧ CxxAST st !! C = Some c.
Proof.
  unfold getCxx. destruct (CxxAST st !! C); [|done].
  intros [= <- <-]. auto.
Qed.

(** X11. A successful [elaborateVariableDecl] that returns a host
    declaration has run the bridge to a type [T] and created exactly one
    host declaration, located at the syntax of the declaration, with its
    name and the type [T], and has recorded it in the declaration.  In
    parameter scope it is a [ParmVarDecl] without storage class and no
    declaration context is changed; otherwise it is a [VarDecl], automatic
    when the scope current after the bridge is a block and static
    otherwise, and it is added at the end of the members of the current
    declaration context.  Nothing else is changed in the state that the
    bridge left. *)
Theorem elaborateVariableDecl_creates H D st C st' :
  Elaborator.elaborateVariableDecl H D st = Ok (Some C, st') →
  ∃ sc s O T st1 d,
    CurrentScope st = Some sc ∧ Scopes st !! sc = Some s
    ∧ getCurrentCxxDeclContext st = Ok (O, st)
    ∧ elaborateTypeExpr H D st = Ok (IsType T, st1)
    ∧ Decls st1 !! D = Some d
    ∧ C = length (CxxAST st1)
    ∧ if isParameterScope s then
        st' = setDecls (<[D := setCxx d (Some C)]> (Decls st1))
                (setCxxAST
                   (CxxAST st1 ++ [newVariable ParmVarDecl O d T SC_None])
                   st1)
      else
        ∃ sc1 s1 o,
          CurrentScope st1 = Some sc1 ∧ Scopes st1 !! sc1 = Some s1
          ∧ let SC := if isBlockScope s1 then SC_Auto else SC_Static in
            let AST1 := CxxAST st1 ++ [newVariable VarDecl O d T SC] in
            AST1 !! O = Some o
            ∧ st' = setDecls (<[D := setCxx d (Some C)]> (Decls st1))
                      (setCxxAST (<[O := addMember o C]> AST1) st1).
Proof.
  intros Hrun. unfold Elaborator.elaborateVariableDecl in Hrun.
  inv_bind Hrun as Cur st0 E0. injection E0 as <- <-.
  inv_bind Hrun as s st0 E0. apply derefScope_inv in E0 as (-> & sc & Hc & Hs).
  exists sc, s.
  destruct (isParameterScope s).
  - unfold Elaborator.elaborateParameterDecl in Hrun.
    inv_bind Hrun as O st0 E0.
    pose proof (read_eq _ _ _ _ getCurrentCxxDeclContext_read E0) as ->.
    inv_bind Hrun as TE st1 E1.
    inv_bind Hrun as d st2 E2. apply getDecl_inv in E2 as [-> Hd].
    destruct (isNull TE); [discriminate|].
    inv_bind Hrun as T st2 E2. apply getTypeSourceInfo_inv in E2 as [-> ->].
    inv_bind Hrun as P st2 E2. injection E2 as <- <-.
    inv_bind Hrun as u st3 E3. apply setDeclCxx_inv in E3 as (d' & Hd' & ->).
    cbn in Hd'. rewrite Hd in Hd'. injection Hd' as <-.
    injection Hrun as <- <-.
    exists O, T, st1, d. split_and!; done.
  - inv_bind Hrun as O st0 E0.
    pose proof (read_eq _ _ _ _ getCurrentCxxDeclContext_read E0) as ->.
    inv_bind Hrun as TE st1 E1.
    inv_bind Hrun as d st2 E2. apply getDecl_inv in E2 as [-> Hd].
    destruct (isNull TE); [discriminate|].
    inv_bind Hrun as T st2 E2. apply getTypeSourceInfo_inv in E2 as [-> ->].
    inv_bind Hrun as SC st2 E2. unfold Elaborator.getStorageClass in E2.
    inv_bind E2 as Cur1 st3 E3. injection E3 as <- <-.
    inv_bind E2 as s1 st3 E3.
    apply derefScope_inv in E3 as (-> & sc1 & Hc1 & Hs1).
    injection E2 as <- <-.
    inv_bind Hrun as VD st2 E2. injection E2 as <- <-.
    inv_bind Hrun as u st3 E3. unfold addToContext in E3.
    inv_bind E3 as o st4 E4. apply getCxx_inv in E4 as [-> Ho].
    injection E3 as _ <-.
    inv_bind Hrun as u' st3 E3. apply setDeclCxx_inv in E3 as (d' & Hd' & ->).
    cbn in Hd'. rewrite Hd in Hd'. injection Hd' as <-.
    injection Hrun as <- <-.
    exists O, T, st1, d. split_and!; try done.
    exists sc1, s1, o. split_and!; done.
Qed.

Lemma elaborateVariableDecl_creates_witness :
  let st := Examples.after
              (forEach (children Examples.three_file)
                 (Elaborator.identifyDecl SampleHost.host))
              (Examples.after (Elaborator.startFile Examples.three_file)
                 initialSema) in
  let st' := Examples.after
               (Elaborator.elaborateVariableDecl SampleHost.host 1) st in
  ∃ sc s O T st1 d,
    CurrentScope st = Some sc ∧ Scopes st !! sc = Some s
    ∧ getCurrentCxxDeclContext st = Ok (O, st)
    ∧ elaborateTypeExpr SampleHost.host 1 st = Ok (IsType T, st1)
    ∧ Decls st1 !! 1 = Some d
    ∧ 1 = length (CxxAST st1)
    ∧ if isParameterScope s then
        st' = setDecls (<[1 := setCxx d (Some 1)]> (Decls st1))
                (setCxxAST
                   (CxxAST st1 ++ [newVariable ParmVarDecl O d T SC_None])
                   st1)
      else
        ∃ sc1 s1 o,
          CurrentScope st1 = Some sc1 ∧ Scopes st1 !! sc1 = Some s1
          ∧ let SC := if isBlockScope s1 then SC_Auto else SC_Static in
            let AST1 := CxxAST st1 ++ [newVariable VarDecl O d T SC] in
            AST1 !! O = Some o
            ∧ st' = setDecls (<[1 := setCxx d (Some 1)]> (Decls st1))
                      (setCxxAST (<[O := addMember o 1]> AST1) st1).
Proof.
  intros st st'.
  apply (elaborateVariableDecl_creates SampleHost.host 1 st 1 st').
  vm_compute. reflexivity.
Defined.

(** ** One declaration at a time *)

Lemma lookupFrom_grows fuel ss ss' r look :
  (∀ i s, ss !! i = Some s → ss' !! i = Some s) →
  is_Some (ss !! r) →
  lookupFrom fuel ss' r look = lookupFrom fuel ss r look.
Proof.
  intros Hg. revert r. induction fuel as [|fuel IH]; intros r [s Hs];
    [reflexivity|].
  simpl. rewrite Hs, (Hg _ _ Hs).
  destruct (look s); [reflexivity|].
  destruct (Parent s) as [p|]; [|reflexivity].
  destruct (Nat.ltb p r) eqn:Hlt; [|reflexivity].
  apply Nat.ltb_lt in Hlt. apply IH.
  apply lookup_lt_is_Some_2. apply lookup_lt_Some in Hs. lia.
Qed.

Section OneDeclaration.

Context (H : Host) (HI : Independent H).

(** X12. [elaborateDeclSyntax] elaborates one node as the three passes of
    [elaborateFile] do: with a host for which declarations are
    independent, a successful run on a node leaves the state that
    identifying the node, elaborating its type and elaborating its
    definition, one after the other, leave. *)
Theorem elaborateDeclSyntax_passes S st r st' :
  Elaborator.elaborateDeclSyntax H S st = Ok (r, st') →
  (Elaborator.identifyDecl H S ;;
   Elaborator.elaborateDeclType H S ;;
   Elaborator.elaborateDeclInit H S) st = Ok (tt, st').
Proof.
  intros Hrun. unfold Elaborator.elaborateDeclSyntax in Hrun.
  inv_bind Hrun as u st1 E1. step ltac:(exact E1).
  inv_bind Hrun as Cur st0 E0. injection E0 as <- <-.
  inv_bind Hrun as Do st0 E0.
  pose proof E0 as Hfind. apply findDecl_inv in E0 as [-> ->].
  unfold Elaborator.elaborateDeclType.
  rewrite bind_assoc. step ltac:(reflexivity).
  rewrite bind_assoc. step ltac:(exact Hfind).
  destruct (findDeclIn st1 (CurrentScope st1) S) as [D|] eqn:Ef.
  - inv_bind Hrun as C st2 E2. step ltac:(exact E2).
    inv_bind Hrun as u3 st3 E3. destruct u3.
    inv_bind Hrun as d st4 E4. apply getDecl_inv in E4 as [-> _].
    injection Hrun as _ <-.
    assert (∃ d0, Decls st1 !! D = Some d0) as [d0 Hd0].
    { unfold Elaborator.elaborateDecl in E2.
      apply bind_inv in E2 as (d0 & st0 & E0 & _).
      apply getDecl_inv in E0 as [_ Hd0]. eauto. }
    destruct (elaborateDecl_adds H HI D d0 st1 C st2 Hd0 E2)
      as (Hc & (Hg & _) & _).
    unfold findDecl in Hfind.
    apply bind_inv in Hfind as (s & st0 & Hs & _).
    apply derefScope_inv in Hs as (_ & sc & Hsc & Hs).
    unfold Elaborator.elaborateDeclInit.
    step ltac:(reflexivity). rewrite Hc, Hsc.
    step ltac:(eapply findDecl_Ok, Hg, Hs).
    assert (findDeclIn st2 (Some sc) S = Some D) as ->.
    { rewrite Hsc in Ef. rewrite <- Ef. unfold findDeclIn.
      apply lookupFrom_grows; [exact Hg|eauto]. }
    exact E3.
  - injection Hrun as _ <-.
    step ltac:(reflexivity).
    unfold Elaborator.elaborateDeclInit.
    step ltac:(reflexivity). step ltac:(exact Hfind).
    reflexivity.
Qed.

End OneDeclaration.

Lemma elaborateDeclSyntax_passes_witness :
  let st := Examples.after (Elaborator.startFile Examples.three_file)
              initialSema in
  let S := Examples.x_equals_3 in
  let st' := Examples.after
               (Elaborator.elaborateDeclSyntax SampleHost.host S) st in
  (Elaborator.identifyDecl SampleHost.host S ;;
   Elaborator.elaborateDeclType SampleHost.host S ;;
   Elaborator.elaborateDeclInit SampleHost.host S) st = Ok (tt, st').
Proof.
  intros st S st'.
  apply (elaborateDeclSyntax_passes SampleHost.host sampleHost_independent S
           st (Some 1) st').
  vm_compute. reflexivity.
Defined.

(** ** The bracket of a file *)

Lemma startFile_Ok S st : Elaborator.startFile S st = Ok (tt, started S st).
Proof.
  unfold Elaborator.startFile.
  step ltac:(reflexivity). step ltac:(reflexivity).
  step ltac:(reflexivity).
  step ltac:(unfold setDeclSavedScope;
             erewrite bind_Ok
               by (apply getDecl_Ok; cbn; apply list_lookup_snoc;
                   reflexivity);
             reflexivity).
  step ltac:(unfold setDeclCxx;
             erewrite bind_Ok
               by (apply getDecl_Ok; cbn;
                   rewrite list_insert_snoc by reflexivity;
                   apply list_lookup_snoc; reflexivity);
             reflexivity).
  unfold pushDecl, modify, started. cbn.
  rewrite !list_insert_snoc by reflexivity. reflexivity.
Qed.

#[export] Instance balanced_preorder : PreOrder balanced.
Proof.
  split.
  - intros st. split_and!; eauto.
  - intros a b c (H1 & H2 & H3) (H4 & H5 & H6).
    split_and!; [congruence..|].
    intros r s Hs. destruct (H3 r s Hs) as (s' & Hs' & HP & HT).
    destruct (H6 r s' Hs') as (s'' & Hs'' & HP' & HT').
    exists s''. split_and!; congruence.
Qed.

Lemma identifyDecl_balanced H S : preserves balanced (Elaborator.identifyDecl H S).
Proof.
  intros st u st' Hrun.
  apply identifyDecl_inv in Hrun as [->|(sc & s & Decl_ & Init_ & OpEq & Dcl
    & ds & F & _ & Hc & Hs & _ & _ & _ & ->)]; [reflexivity|].
  split_and!; [reflexivity..|]. cbn. intros r s0 Hr.
  destruct (decide (r = sc)) as [->|Hne].
  - rewrite Hs in Hr. injection Hr as <-. eexists. split.
    + apply list_lookup_insert_eq. eapply lookup_lt_Some, Hs.
    + split; reflexivity.
  - exists s0. rewrite list_lookup_insert_ne by done. auto.
Qed.

(** X13. [finishFile] closes what [startFile] opened: after any run that
    starts in the state [startFile] leaves, ends in the scope and with the
    stack of declarations it started with, and keeps the parent and the
    syntax of the scopes, [finishFile] succeeds, and the current scope and
    the stack of declarations are those from before [startFile]; it changes
    nothing else.  The identification of any nodes is such a run. *)
Theorem finishFile_closes_startFile S st st2 :
  balanced (started S st) st2 →
  ∃ st3,
    Elaborator.finishFile S st2 = Ok (tt, st3)
    ∧ CurrentScope st3 = CurrentScope st ∧ DeclStack st3 = DeclStack st
    ∧ st3 = setCurrentScope (CurrentScope st) (setDeclStack (DeclStack st) st2).
Proof.
  intros (Hc & Hk & Hs).
  destruct (Hs (length (Scopes st))
              (mkScope SK_Namespace (CurrentScope st) S ∅ ∅))
    as (s' & Hs' & HP & HT).
  { cbn. apply list_lookup_snoc. reflexivity. }
  cbn in Hc, Hk, HP, HT.
  exists (setCurrentScope (CurrentScope st) (setDeclStack (DeclStack st) st2)).
  split; [|split_and!; reflexivity].
  unfold Elaborator.finishFile.
  step ltac:(unfold popDecl; rewrite Hk; reflexivity).
  unfold leaveScope.
  step ltac:(rewrite getCurrentScope_Ok; cbn; rewrite Hc; reflexivity).
  step ltac:(apply derefScope_Ok; cbn; exact Hs').
  rewrite HT, Nat.eqb_refl. unfold popScope.
  step ltac:(rewrite getCurrentScope_Ok; cbn; rewrite Hc; reflexivity).
  step ltac:(apply derefScope_Ok; cbn; exact Hs').
  unfold modify. rewrite HP. reflexivity.
Qed.

Lemma finishFile_closes_startFile_witness :
  let S := Examples.three_file in
  let st2 := Examples.after
               (forEach (children S) (Elaborator.identifyDecl SampleHost.host))
               (started S initialSema) in
  ∃ st3,
    Elaborator.finishFile S st2 = Ok (tt, st3)
    ∧ CurrentScope st3 = CurrentScope initialSema
    ∧ DeclStack st3 = DeclStack initialSema
    ∧ st3 = setCurrentScope (CurrentScope initialSema)
              (setDeclStack (DeclStack initialSema) st2).
Proof.
  intros S st2.
  apply (finishFile_closes_startFile S initialSema st2).
  apply (preserves_forEach balanced (children S)
           (Elaborator.identifyDecl SampleHost.host)
           (identifyDecl_balanced SampleHost.host)
           (started S initialSema) tt st2).
  vm_compute. reflexivity.
Defined.

(** ** Redeclarations in a namespace *)

Lemma unpackDeclarator_Ok a b Op_ Args st sc s x :
  unpacked (CallSyntax a (AtomSyntax b Op_) Args) = Some x →
  CurrentScope st = Some sc → Scopes st !! sc = Some s →
  isParameterScope s = false →
  Elaborator.unpackDeclarator (CallSyntax a (AtomSyntax b Op_) Args) Op_ Args
    st = Ok (Some x, st).
Proof.
  intros Hu Hc Hs Hp. unfold unpacked in Hu.
  unfold Elaborator.unpackDeclarator.
  destruct (String.eqb Op_ "operator'='").
  { destruct Args as [| |? [|? [|? ?]]| |]; try discriminate.
    injection Hu as <-. reflexivity. }
  destruct (String.eqb Op_ "operator'!'").
  { destruct Args as [| |? [|? [|? ?]]| |]; try discriminate;
      injection Hu as <-.
    step ltac:(rewrite getCurrentScope_Ok, Hc; reflexivity).
    step ltac:(apply derefScope_Ok, Hs).
    rewrite Hp. reflexivity. }
  destruct (String.eqb Op_ "operator':'"); [|discriminate].
  injection Hu as <-. reflexivity.
Qed.

Lemma namespace_kind s :
  isNamespaceScope s = true →
  isParameterScope s = false ∧ isBlockScope s = false.
Proof.
  unfold isBlockScope, isParameterScope, isNamespaceScope.
  destruct (Kind s); simpl; intros; split; congruence.
Qed.

Lemma unpacked_form S x :
  unpacked S = Some x → ∃ a b Op_ Args, S = CallSyntax a (AtomSyntax b Op_) Args.
Proof.
  destruct S as [|a [b Op_| | | |] Args| | |]; try discriminate. eauto.
Qed.

Lemma identifyDecl_frame_keeps H S st st' :
  Elaborator.identifyDecl H S st = Ok (tt, st') →
  ∀ D d, Decls st !! D = Some d →
         ∃ d', Decls st' !! D = Some d' ∧ Op d' = Op d.
Proof.
  intros Hrun D d Hd.
  apply identifyDecl_inv in Hrun
    as [->|(sc & s & Decl_ & Init_ & OpEq & Dcl & ds & F & _ & _ & _ & _
            & _ & Hds & ->)]; [eauto|].
  assert (Hlt : D < length (Decls st)) by (eapply lookup_lt_Some; eauto).
  cbn. destruct Hds as [[-> _]|(Old & o & Ho & -> & _)].
  - exists d. split; [apply lookup_app_l_Some, Hd|reflexivity].
  - destruct (decide (D = Old)) as [->|Hne].
    + exists (setNext o (length (Decls st))). split.
      * apply lookup_app_l_Some, list_lookup_insert_eq, Hlt.
      * rewrite Ho in Hd. injection Hd as <-. reflexivity.
    + exists d. split; [|reflexivity].
      apply lookup_app_l_Some. rewrite list_lookup_insert_ne by done.
      exact Hd.
Qed.

Section NamespaceRing.

Context (H : Host) (x : string) (sc : nat).

(** One more declaration of the name. *)
Lemma identifyDecl_extends_ring rs S st :
  nameRing x sc rs st → declaresName H x S →
  ∃ st',
    Elaborator.identifyDecl H S st = Ok (tt, st')
    ∧ nameRing x sc (rs ++ [length (Decls st)]) st'
    ∧ length (Decls st') = length (Decls st) + 1
    ∧ (∃ d, Decls st' !! length (Decls st) = Some d ∧ Op d = S)
    ∧ (∀ D d, Decls st !! D = Some d →
              ∃ d', Decls st' !! D = Some d' ∧ Op d' = Op d).
Proof.
  intros (Hc & (s & Hs & Hk) & Hring & Hfind)
         (Decl_ & Init_ & OpEq & Hu & Hm).
  destruct (Hm st) as (Dcl & HDcl & Hid).
  destruct (unpacked_form _ _ Hu) as (a & b & Op_ & Args & ->).
  destruct (namespace_kind s Hk) as [Hp Hb].
  assert (Hne : Dcl ≠ []) by (intros ->; discriminate).
  set (New := length (Decls st)).
  assert (Hfresh : New ∉ rs).
  { intros Hin. apply (isRing_lookup _ _ _ Hring) in Hin as [d Hd].
    apply lookup_lt_Some in Hd. unfold New in Hd. lia. }
  assert (Hlt : sc < length (Scopes st)) by (eapply lookup_lt_Some; eauto).
  erewrite (identifyDecl_unfold H st sc s a b Op_ Args Decl_ Init_ OpEq Dcl);
    [|exact Hc|exact Hs|eapply unpackDeclarator_Ok; eauto|exact HDcl|exact Hne
     |rewrite Hp; reflexivity|].
  2:{ intros _ Old HOld. rewrite Hid, Hfind in HOld.
      apply (isRing_lookup _ _ _ Hring). apply last_Some in HOld as [l ->].
      apply elem_of_app. right. apply list_elem_of_here. }
  unfold returnsEarly. rewrite Hb, Hk, Hid, Hfind. cbn [andb orb].
  fold New.
  destruct (last rs) as [Old|] eqn:Hlast.
  - assert (Hin : Old ∈ rs).
    { apply last_Some in Hlast as [l ->]. apply elem_of_app. right.
      apply list_elem_of_here. }
    destruct (isRing_lookup _ _ _ Hring Hin) as [o Ho]. rewrite Ho.
    assert (HOld : Old < New) by (eapply lookup_lt_Some; eauto).
    eexists. split; [reflexivity|]. split_and!.
    + split_and!.
      * exact Hc.
      * eexists. split; [cbn; apply list_lookup_insert_eq, Hlt|exact Hk].
      * eapply (isRing_extend (Decls st) _ rs Old New o
                  (identified st _ Dcl Init_ (First o) (First o))
                  Hring Hlast Ho Hfresh).
        -- cbn. apply lookup_app_l_Some, list_lookup_insert_eq, HOld.
        -- cbn. apply list_lookup_snoc. rewrite length_insert. reflexivity.
        -- reflexivity.
        -- reflexivity.
        -- intros D HD HDO. cbn.
           destruct (isRing_lookup _ _ _ Hring HD) as [d Hd].
           rewrite Hd. apply lookup_app_l_Some.
           rewrite list_lookup_insert_ne by done. exact Hd.
      * rewrite last_snoc.
        apply (declared_lookup_id st sc s _ _ x Hs). exact Hid.
    + cbn. rewrite length_app, length_insert. reflexivity.
    + eexists. split; [cbn; apply list_lookup_snoc; rewrite length_insert;
                       reflexivity|reflexivity].
    + intros D d Hd. cbn.
      destruct (decide (D = Old)) as [->|HDO].
      * exists (setNext o New). split.
        -- apply lookup_app_l_Some, list_lookup_insert_eq, HOld.
        -- rewrite Ho in Hd. injection Hd as <-. reflexivity.
      * exists d. split; [|reflexivity]. apply lookup_app_l_Some.
        rewrite list_lookup_insert_ne by done. exact Hd.
  - assert (rs = []) as ->.
    { destruct rs as [|r rs] using rev_ind; [reflexivity|].
      rewrite last_snoc in Hlast. discriminate. }
    eexists. split; [reflexivity|]. split_and!.
    + split_and!.
      * exact Hc.
      * eexists. split; [cbn; apply list_lookup_insert_eq, Hlt|exact Hk].
      * eapply (isRing_singleton _ New); [cbn; apply list_lookup_snoc|..];
          reflexivity.
      * apply (declared_lookup_id st sc s _ _ x Hs). exact Hid.
    + cbn. rewrite length_app. reflexivity.
    + eexists. split; [cbn; apply list_lookup_snoc; reflexivity|reflexivity].
    + intros D d Hd. exists d. split; [|reflexivity].
      cbn. apply lookup_app_l_Some, Hd.
Qed.

(** X14. Redeclarations in a namespace are linked in source order: when
    the current scope is a namespace scope that binds the name [x] to the
    last declaration of its chain of redeclarations [rs], the
    identification of nodes that each declare [x] succeeds, creates one
    declaration for each node, in the order of the nodes, and the chain
    followed by the new declarations is the chain of redeclarations of [x],
    to whose last declaration the scope binds [x]. *)
Theorem identifyDecl_namespace_ring cs : ∀ rs st,
  nameRing x sc rs st → Forall (declaresName H x) cs →
  let news := seq (length (Decls st)) (length cs) in
  ∃ st',
    forEach cs (Elaborator.identifyDecl H) st = Ok (tt, st')
    ∧ nameRing x sc (rs ++ news) st'
    ∧ length (Decls st') = length (Decls st) + length cs
    ∧ declarationsOf st' cs news.
Proof.
  induction cs as [|S cs IH]; intros rs st Hring Hcs news.
  - exists st. unfold news. simpl. rewrite app_nil_r.
    split_and!; [reflexivity|exact Hring|lia|constructor].
  - inversion Hcs as [|? ? HS Hcs']; subst.
    destruct (identifyDecl_extends_ring rs S st Hring HS)
      as (st1 & Hrun & Hring1 & Hlen1 & (d & Hd & HOp) & Hkeep).
    destruct (IH _ st1 Hring1 Hcs') as (st' & Hrun' & Hring' & Hlen' & Hds).
    exists st'. unfold news. simpl.
    rewrite Hlen1, Nat.add_1_r in Hring', Hlen', Hds.
    split_and!.
    + step ltac:(exact Hrun). exact Hrun'.
    + rewrite <- app_assoc in Hring'. exact Hring'.
    + lia.
    + constructor; [|exact Hds].
      (* the declaration of the first node keeps its syntax *)
      assert (Hkeeps : ∀ cs' st0 st0',
        forEach cs' (Elaborator.identifyDecl H) st0 = Ok (tt, st0') →
        ∀ D d, Decls st0 !! D = Some d →
               ∃ d', Decls st0' !! D = Some d' ∧ Op d' = Op d).
      { clear. induction cs' as [|S' cs' IH']; intros st0 st0' Hr D d HD.
        - injection Hr as <-. eauto.
        - simpl in Hr. apply bind_inv in Hr as ([] & st1 & E1 & Hr).
          destruct (identifyDecl_frame_keeps _ _ _ _ E1 D d HD)
            as (d1 & Hd1 & HO1).
          destruct (IH' _ _ Hr D d1 Hd1) as (d2 & Hd2 & HO2).
          exists d2. split; [exact Hd2|congruence]. }
      destruct (Hkeeps _ _ _ Hrun' _ _ Hd) as (d' & Hd' & HOp').
      exists d'. split; [exact Hd'|congruence].
Qed.

End NamespaceRing.

Lemma isRing_nil ds : isRing ds [].
Proof. split; [constructor|]. intros i r Hr. discriminate Hr. Qed.

Lemma identifyDecl_namespace_ring_witness :
  let cs := [Examples.x_int; Examples.x_int_again] in
  let st := started Examples.three_file initialSema in
  let news := seq (length (Decls st)) (length cs) in
  ∃ st',
    forEach cs (Elaborator.identifyDecl SampleHost.host) st = Ok (tt, st')
    ∧ nameRing "x" 0 ([] ++ news) st'
    ∧ length (Decls st') = length (Decls st) + length cs
    ∧ declarationsOf st' cs news.
Proof.
  intros cs st.
  apply (identifyDecl_namespace_ring SampleHost.host "x" 0 cs [] st).
  - split_and!.
    + reflexivity.
    + eexists. split; reflexivity.
    + apply isRing_nil.
    + vm_compute. reflexivity.
  - repeat constructor.
    + eexists _, _, _. split; [reflexivity|].
      intros st0. eexists. split; reflexivity.
    + eexists _, _, _. split; [reflexivity|].
      intros st0. eexists. split; reflexivity.
Defined.

(** ** Assignments in a block *)

Section BlockAssignments.

Context (H : Host) (x : string) (sc : nat).

Lemma identifyDecl_assignment_bound S st s Old :
  CurrentScope st = Some sc → Scopes st !! sc = Some s →
  isBlockScope s = true →
  findIdIn st (Some sc) (Some x) = Some Old →
  assignsName H x S →
  Elaborator.identifyDecl H S st = Ok (tt, st).
Proof.
  intros Hc Hs Hb Hfind (Decl_ & Init_ & Hu & Hm).
  destruct (Hm st) as (Dcl & HDcl & Hid).
  destruct (unpacked_form _ _ Hu) as (a & b & Op_ & Args & ->).
  destruct (blockScope_kind s Hb) as [Hp Hk].
  erewrite (identifyDecl_unfold H st sc s a b Op_ Args Decl_ Init_ true Dcl);
    [|exact Hc|exact Hs|eapply unpackDeclarator_Ok; eauto|exact HDcl
     |intros ->; discriminate|rewrite Hp; reflexivity
     |rewrite Hk, Hp; discriminate].
  unfold returnsEarly. rewrite Hb, Hid, Hfind. reflexivity.
Qed.

(** X15. In a block, the first assignment to a name declares it and the
    following ones declare nothing: when the current scope is a block
    scope in which the name [x] is not bound, the identification of a
    sequence of [operator'='] forms that assign to [x] succeeds and leaves
    the state that the identification of the first form alone leaves, with
    one more declaration, to which the scope binds [x]. *)
Theorem identifyDecl_block_assignments S rest st s :
  CurrentScope st = Some sc → Scopes st !! sc = Some s →
  isBlockScope s = true →
  findIdIn st (Some sc) (Some x) = None →
  Forall (assignsName H x) (S :: rest) →
  ∃ st',
    Elaborator.identifyDecl H S st = Ok (tt, st')
    ∧ forEach (S :: rest) (Elaborator.identifyDecl H) st = Ok (tt, st')
    ∧ length (Decls st') = length (Decls st) + 1
    ∧ (∃ d, Decls st' !! length (Decls st) = Some d ∧ Op d = S)
    ∧ findIdIn st' (Some sc) (Some x) = Some (length (Decls st)).
Proof.
  intros Hc Hs Hb Hfind Hall.
  inversion Hall as [|? ? HS Hrest]; subst.
  destruct HS as (Decl_ & Init_ & Hu & Hm).
  destruct (Hm st) as (Dcl & HDcl & Hid).
  destruct (unpacked_form _ _ Hu) as (a & b & Op_ & Args & ->).
  destruct (blockScope_kind s Hb) as [Hp Hk].
  assert (Hlt : sc < length (Scopes st)) by (eapply lookup_lt_Some; eauto).
  set (S := CallSyntax a (AtomSyntax b Op_) Args) in *.
  set (New := length (Decls st)).
  set (st1 := declared st sc s (Decls st) (identified st S Dcl Init_ New New)).
  assert (Hrun : Elaborator.identifyDecl H S st = Ok (tt, st1)).
  { unfold S.
    erewrite (identifyDecl_unfold H st sc s a b Op_ Args Decl_ Init_ true Dcl);
      [|exact Hc|exact Hs|eapply unpackDeclarator_Ok; eauto|exact HDcl
       |intros ->; discriminate|rewrite Hp; reflexivity
       |rewrite Hk, Hp; discriminate].
    unfold returnsEarly. rewrite Hb, Hid, Hfind, Hk, Hp.
    rewrite bool_decide_eq_false_2 by (intros [? ?]; discriminate).
    reflexivity. }
  assert (Hfind1 : findIdIn st1 (Some sc) (Some x) = Some New).
  { apply (declared_lookup_id st sc s _ _ x Hs). exact Hid. }
  assert (Hs1 : Scopes st1 !! sc
                = Some (bindDecl s New (identified st S Dcl Init_ New New))).
  { cbn. apply list_lookup_insert_eq, Hlt. }
  assert (Hinv : ∀ cs, Forall (assignsName H x) cs →
            forEach cs (Elaborator.identifyDecl H) st1 = Ok (tt, st1)).
  { induction cs as [|c cs IH]; intros Hcs; [reflexivity|].
    inversion Hcs; subst. cbn [forEach].
    step ltac:(eapply (identifyDecl_assignment_bound c st1 _ New);
               [exact Hc|exact Hs1|exact Hb|exact Hfind1|assumption]).
    apply IH. assumption. }
  exists st1. split_and!.
  - exact Hrun.
  - cbn [forEach]. step ltac:(exact Hrun). apply Hinv, Hrest.
  - cbn. rewrite length_app. reflexivity.
  - eexists. split; [cbn; apply list_lookup_snoc; reflexivity|reflexivity].
  - exact Hfind1.
Qed.

End BlockAssignments.

Lemma identifyDecl_block_assignments_witness :
  let st := Examples.inScope SK_Block in
  let S := Examples.x_equals_3 in
  let rest := [Examples.x_equals_4] in
  ∃ st',
    Elaborator.identifyDecl SampleHost.host S st = Ok (tt, st')
    ∧ forEach (S :: rest) (Elaborator.identifyDecl SampleHost.host) st
      = Ok (tt, st')
    ∧ length (Decls st') = length (Decls st) + 1
    ∧ (∃ d, Decls st' !! length (Decls st) = Some d ∧ Op d = S)
    ∧ findIdIn st' (Some 1) (Some "x") = Some (length (Decls st)).
Proof.
  intros st S rest.
  apply (identifyDecl_block_assignments SampleHost.host "x" 1 S rest st
           (mkScope SK_Block (Some 0) (AtomSyntax 2 "anchor") ∅ ∅)).
  - reflexivity.
  - reflexivity.
  - reflexivity.
  - vm_compute. reflexivity.
  - repeat constructor.
    + eexists _, _. split; [reflexivity|].
      intros st0. eexists. split; reflexivity.
    + eexists _, _. split; [reflexivity|].
      intros st0. eexists. split; reflexivity.
Defined.

(** * Properties of GoldDeclaration.cpp *)

(** X16. For a declaration that is not elaborated yet, [declaresTag] and
    [getTagName] agree: [declaresTag] is true exactly when [getTagName]
    finds the name node, and the name node is an atom whose token is the
    class, the union or the enum keyword. *)
Theorem declaresTag_getTagName kindOf d :
  GoldDeclaration.Cxx d = None →
  GoldDeclaration.declaresTag kindOf d = true
  ↔ ∃ a sp,
      GoldDeclaration.getTagName kindOf d = Some (AtomSyntax a sp)
      ∧ GoldDeclaration.hasTagToken kindOf (AtomSyntax a sp) = true.
Proof.
  intros Hx. unfold GoldDeclaration.declaresTag, GoldDeclaration.getTagName.
  rewrite Hx.
  destruct (GoldDeclaration.Init d) as [[| | |m [a sp|c [b sp| | | |] args| | |] blk|]|];
    try (split; [discriminate|intros (? & ? & [=] & _)]).
  - destruct (GoldDeclaration.hasTagToken kindOf (AtomSyntax a sp)) eqn:E.
    + split; [eauto|reflexivity].
    + split; [discriminate|intros (? & ? & [=] & _)].
  - destruct (GoldDeclaration.hasTagToken kindOf (AtomSyntax b sp)) eqn:E.
    + split; [eauto|reflexivity].
    + split; [discriminate|intros (? & ? & [=] & _)].
Qed.

Lemma declaresTag_getTagName_witness :
  let kindOf := λ S, match S with
                     | AtomSyntax _ "class" => GoldDeclaration.ClassKeyword
                     | _ => GoldDeclaration.OtherToken
                     end in
  let d := GoldDeclaration.mkDeclaration None []
             (Some (MacroSyntax 10
                      (CallSyntax 11 (AtomSyntax 12 "class")
                         (ListSyntax 13 [AtomSyntax 14 "Base"]))
                      (ListSyntax 15 [])))
             None false false in
  GoldDeclaration.declaresTag kindOf d = true
  ↔ ∃ a sp,
      GoldDeclaration.getTagName kindOf d = Some (AtomSyntax a sp)
      ∧ GoldDeclaration.hasTagToken kindOf (AtomSyntax a sp) = true.
Proof.
  intros kindOf d. apply (declaresTag_getTagName kindOf d). reflexivity.
Defined.

(** X17. A declaration that [declaresTag] recognises is never a namespace
    for [declaresNamespace], but the question cannot always be asked: for
    a class with bases that is not elaborated yet, whose macro is headed
    by a call, [declaresNamespace] fails its cast; in every other case it
    answers false. *)
Theorem declaresNamespace_of_tag kindOf d :
  GoldDeclaration.declaresTag kindOf d = true →
  GoldDeclaration.declaresNamespace kindOf d
  = match GoldDeclaration.Cxx d, GoldDeclaration.Init d with
    | None, Some (MacroSyntax _ (CallSyntax _ _ _) _) =>
        Abort "cast<AtomSyntax>() argument of incompatible type"
    | _, _ => Ok false
    end.
Proof.
  unfold GoldDeclaration.declaresTag, GoldDeclaration.declaresNamespace.
  destruct (GoldDeclaration.Cxx d) as [c|].
  { destruct c; try discriminate. reflexivity. }
  destruct (GoldDeclaration.Init d) as [[| | |m [a sp|c b args| | |] blk|]|];
    try discriminate; [|reflexivity].
  unfold GoldDeclaration.hasTagToken, GoldDeclaration.hasToken.
  destruct (kindOf (AtomSyntax a sp)); try discriminate; reflexivity.
Qed.

Lemma declaresNamespace_of_tag_witness :
  let kindOf := λ S, match S with
                     | AtomSyntax _ "class" => GoldDeclaration.ClassKeyword
                     | _ => GoldDeclaration.OtherToken
                     end in
  let d := GoldDeclaration.mkDeclaration None []
             (Some (MacroSyntax 10
                      (CallSyntax 11 (AtomSyntax 12 "class")
                         (ListSyntax 13 [AtomSyntax 14 "Base"]))
                      (ListSyntax 15 [])))
             None false false in
  GoldDeclaration.declaresNamespace kindOf d
  = Abort "cast<AtomSyntax>() argument of incompatible type".
Proof.
  intros kindOf d. apply (declaresNamespace_of_tag kindOf d). reflexivity.
Defined.

(** X18. [declaresDestructor] tests for a constructor: it answers as
    [declaresConstructor] does for every declaration, so it is false for
    every declaration whose host declaration is a destructor, and every
    declaration for which it is true is a constructor. *)
Theorem declaresDestructor_tests_constructor d :
  GoldDeclaration.declaresDestructor d = GoldDeclaration.declaresConstructor d
  ∧ (∀ c, GoldDeclaration.Cxx d = Some c →
          GoldDeclaration.isaCXXDestructorDecl c = true →
          GoldDeclaration.declaresDestructor d = false)
  ∧ (GoldDeclaration.declaresDestructor d = true →
     GoldDeclaration.Cxx d = Some GoldDeclaration.CXXConstructorDecl
     ∧ GoldDeclaration.declaresMemberFunction d = true).
Proof.
  unfold GoldDeclaration.declaresDestructor,
    GoldDeclaration.declaresConstructor,
    GoldDeclaration.declaresMemberFunction.
  split; [reflexivity|]. split.
  - intros c -> Hc. destruct c; try discriminate.
    apply andb_false_r.
  - intros Hd. apply andb_true_iff in Hd as [-> Hc].
    destruct (GoldDeclaration.Cxx d) as [[]|]; try discriminate.
    split; reflexivity.
Qed.

(** X19. [getFirstDeclarator] returns the chain from the first declarator
    of the kind on: the declarators before it are of other kinds, and the
    result is null exactly when the chain has no declarator of the kind.
    [getFirstTemplateDeclarator] is the same search for template
    parameters. *)
Theorem getFirstDeclarator_first d DK :
  (∃ pre,
     GoldDeclaration.Decl d = pre ++ GoldDeclaration.getFirstDeclarator d DK
     ∧ Forall (λ x, GoldDeclaration.getKind x ≠ DK) pre
     ∧ match GoldDeclaration.getFirstDeclarator d DK with
       | [] => True
       | x :: _ => GoldDeclaration.getKind x = DK
       end)
  ∧ GoldDeclaration.getFirstTemplateDeclarator d
    = GoldDeclaration.getFirstDeclarator d GoldDeclaration.DK_TemplateParams.
Proof.
  unfold GoldDeclaration.getFirstDeclarator,
    GoldDeclaration.getFirstTemplateDeclarator.
  assert (Heqb : ∀ a b, GoldDeclaration.DeclaratorKind_eqb a b = true ↔ a = b).
  { intros [] []; simpl; split; congruence. }
  split.
  - induction (GoldDeclaration.Decl d) as [|x D IH]; simpl.
    + exists []. split_and!; [reflexivity|constructor|exact I].
    + destruct (GoldDeclaration.DeclaratorKind_eqb
                  (GoldDeclaration.getKind x) DK) eqn:E.
      * exists []. split_and!; [reflexivity|constructor|].
        apply Heqb, E.
      * destruct IH as (pre & HD & Hpre & Hhead).
        exists (x :: pre). split_and!.
        -- simpl. f_equal. exact HD.
        -- constructor; [|exact Hpre]. intros Hk. apply Heqb in Hk.
           congruence.
        -- exact Hhead.
  - induction (GoldDeclaration.Decl d) as [|x D IH]; simpl; [reflexivity|].
    rewrite IH. destruct (GoldDeclaration.getKind x); reflexivity.
Qed.

(** ** The iterative [makeDeclarator] *)

Lemma makeDeclaratorIter_agrees isTag S :
  (∀ sp, isTag sp = false) →
  ∀ D, isPlainDeclarator S = true →
       makeDeclaratorWith isTag S D = makeDeclaratorIter S D.
Proof.
  intros Htag.
  pose (P := λ S, ∀ D, isPlainDeclarator S = true →
                       makeDeclaratorWith isTag S D = makeDeclaratorIter S D).
  cut (P S ∧ Forall P (children S)); [intros [HP _]; exact HP|].
  induction S as [a sp|a c args _ [_ IHargs]|a cs IHcs|a c b _ _|a cs IHcs]
    using Syntax_ind_children.
  - split; [|constructor]. intros D _. simpl. rewrite Htag. reflexivity.
  - split; [|constructor]. intros D Hplain. simpl in Hplain.
    destruct c as [b op| | | |]; try discriminate.
    cbn [makeDeclaratorWith makeDeclaratorIter].
    destruct (String.eqb op "operator':'").
    + destruct args as [| |l [|a0 [|a1 rest]]| |]; try discriminate.
      apply andb_true_iff in Hplain as [Hcall Hplain].
      apply negb_true_iff in Hcall. rewrite Hcall.
      inversion IHargs as [|? ? Ha0 _]; subst.
      destruct (buildTypeDeclarator _ D) as [T|]; [|reflexivity].
      simpl. apply Ha0, Hplain.
    + apply negb_true_iff in Hplain. rewrite Hplain.
      simpl. rewrite Htag. reflexivity.
  - split.
    + intros D _. reflexivity.
    + eapply Forall_impl; [exact IHcs|]. intros x [Hx _]. exact Hx.
  - split; [|constructor]. intros D _. reflexivity.
  - split.
    + intros D _. reflexivity.
    + eapply Forall_impl; [exact IHcs|]. intros x [Hx _]. exact Hx.
Qed.

(** X20. The recursive [makeDeclarator] computes what the disabled
    iterative one does on the declarators without pointer operator and
    without compound type operand: when the host finds no tag name in the
    state, the two return the same chain, or fail alike, for every name,
    call of a name, and [operator':'] call of such a declarator with a
    type operand that is not a call. *)
Theorem makeDeclarator_iterative H S st :
  (∀ sp, Elaborator.lookupTagName H st sp = false) →
  isPlainDeclarator S = true →
  Elaborator.makeDeclarator H S st
  = match makeDeclaratorIter S [] with
    | Ok D => Ok (D, st)
    | Abort w => Abort w
    end.
Proof.
  intros Htag Hplain. unfold Elaborator.makeDeclarator.
  rewrite (makeDeclaratorIter_agrees _ S Htag [] Hplain). reflexivity.
Qed.

Lemma makeDeclarator_iterative_witness :
  let S := Examples.colon 23 (Examples.call0 26 "f") (AtomSyntax 29 "int") in
  Elaborator.makeDeclarator SampleHost.host S initialSema
  = match makeDeclaratorIter S [] with
    | Ok D => Ok (D, initialSema)
    | Abort w => Abort w
    end.
Proof.
  intros S.
  apply (makeDeclarator_iterative SampleHost.host S initialSema).
  - intros sp. reflexivity.
  - reflexivity.
Defined.

(** X21. A defaulted or deleted function is also a function with an
    implicit return value for the predicates, and is declared by a
    function declarator: whenever [declaresDefaultedFunction] or
    [declaresDeletedFunction] answers true,
    [declaresFunctionWithImplicitReturn] and [declaresFunction] are true;
    and the two never answer true for the same declaration. *)
Theorem defaulted_or_deleted_has_implicit_return kindOf d :
  GoldDeclaration.declaresDefaultedFunction kindOf d = Ok true
  ∨ GoldDeclaration.declaresDeletedFunction kindOf d = Ok true →
  GoldDeclaration.declaresFunctionWithImplicitReturn d = true
  ∧ GoldDeclaration.declaresFunction d = true
  ∧ ¬ (GoldDeclaration.declaresDefaultedFunction kindOf d = Ok true
       ∧ GoldDeclaration.declaresDeletedFunction kindOf d = Ok true).
Proof.
  unfold GoldDeclaration.declaresDefaultedFunction,
    GoldDeclaration.declaresDeletedFunction,
    GoldDeclaration.declaresFunctionWithImplicitReturn,
    GoldDeclaration.declaresFunctionTemplate,
    GoldDeclaration.declaresFunction.
  destruct (GoldDeclaration.FunctionDcl d); simpl;
    [|intros [?|?]; discriminate].
  destruct (GoldDeclaration.Op d) as [[|a [b Name| | | |] args| | |]|]; simpl;
    try (intros [?|?]; discriminate).
  destruct (String.eqb Name "operator'='"); [|intros [?|?]; discriminate].
  intros _. split_and!; [reflexivity..|].
  destruct args as [| |l cs| |]; simpl; try (intros [? _]; discriminate).
  destruct (cs !! 1) as [[c sp| | | |]|]; simpl;
    try (intros [? _]; discriminate).
  destruct (kindOf (AtomSyntax c sp)); simpl; intros [? ?]; discriminate.
Qed.

Lemma defaulted_or_deleted_has_implicit_return_witness :
  let kindOf := λ S, match S with
                     | AtomSyntax _ "default" => GoldDeclaration.DefaultKeyword
                     | _ => GoldDeclaration.OtherToken
                     end in
  let d := GoldDeclaration.mkDeclaration
             (Some (Examples.equals 10 (Examples.call0 13 "f")
                      (AtomSyntax 16 "default")))
             [] (Some (AtomSyntax 16 "default")) None true false in
  GoldDeclaration.declaresFunctionWithImplicitReturn d = true
  ∧ GoldDeclaration.declaresFunction d = true
  ∧ ¬ (GoldDeclaration.declaresDefaultedFunction kindOf d = Ok true
       ∧ GoldDeclaration.declaresDeletedFunction kindOf d = Ok true).
Proof.
  intros kindOf d.
  apply (defaulted_or_deleted_has_implicit_return kindOf d).
  left. reflexivity.
Defined.

(** ** Deduction of the type of a variable *)

(** X22. Only the result [DAR_Failed] stops the initialization of a
    variable of undeduced type.  When the initializer of the variable is
    elaborated to an expression and the deduction returns the result [R]
    and the type [Ty], then for [DAR_Failed] one line is written to the
    error stream and nothing else is changed, and for every other result,
    [DAR_FailedAlreadyDiagnosed] as well as [DAR_Succeeded], the type of
    the variable is replaced by [Ty] and the initializer is handed to the
    host. *)
Theorem elaborateVariableInit_deduction H st D d VD c I st1 st2 e vd T R Ty :
  Decls st !! D = Some d → Cxx d = Some VD → Init d = Some I →
  CxxAST st !! VD = Some c → Elaborator.isaVarDecl (CKind c) = true →
  checkForRedefinition H D st = Ok (false, st1) →
  elaborateExpr H I st1 = Ok (IsExpr e, st2) →
  CxxAST st2 !! VD = Some vd → CType vd = Some T →
  isUndeducedType T = true →
  DeduceAutoType H T e = (R, Ty) →
  Elaborator.elaborateVariableInit H D st
  = match R with
    | DAR_Failed =>
        Ok (tt, setErrs (Errs st2 ++ ["Failed to deduce type of expression."])
                  st2)
    | _ =>
        AddInitializerToDecl H VD e
          (setCxxAST (<[VD := retyped vd Ty]> (CxxAST st2)) st2)
    end.
Proof.
  intros Hd Hx Hi Hc Hk Hr He Hvd HT Hu HD.
  unfold Elaborator.elaborateVariableInit.
  step ltac:(apply getDecl_Ok, Hd). rewrite Hx.
  step ltac:(unfold Elaborator.castTo;
             erewrite bind_Ok by (apply getCxx_Ok, Hc);
             rewrite Hk; reflexivity).
  rewrite Hi.
  step ltac:(exact Hr). step ltac:(exact He).
  step ltac:(apply getCxx_Ok, Hvd).
  rewrite HT, Hu, HD.
  destruct R; [|reflexivity|].
  - step ltac:(unfold Elaborator.setType;
               erewrite bind_Ok by (apply getCxx_Ok, Hvd); reflexivity).
    reflexivity.
  - step ltac:(unfold Elaborator.setType;
               erewrite bind_Ok by (apply getCxx_Ok, Hvd); reflexivity).
    reflexivity.
Qed.

Lemma elaborateVariableInit_deduction_witness :
  let st := Examples.typed Examples.three_file in
  ∃ vd,
    CxxAST st !! 3 = Some vd
    ∧ Elaborator.elaborateVariableInit SampleHost.host 3 st
      = AddInitializerToDecl SampleHost.host 3 (Some 44)
          (setCxxAST
             (<[3 := retyped vd (Some (BuiltinType "int"))]> (CxxAST st)) st).
Proof.
  intros st. eexists. split; [vm_compute; reflexivity|].
  eapply (elaborateVariableInit_deduction SampleHost.host st 3 _ 3 _
            (AtomSyntax 44 "3") st st (Some 44) _ AutoType DAR_Succeeded
            (Some (BuiltinType "int"))).
  - vm_compute. reflexivity.
  - reflexivity.
  - reflexivity.
  - vm_compute. reflexivity.
  - reflexivity.
  - reflexivity.
  - reflexivity.
  - vm_compute. reflexivity.
  - reflexivity.
  - reflexivity.
  - reflexivity.
Defined.

(** ** The scopes of a function definition *)

Lemma setBody_inv FD B st u st' :
  Elaborator.setBody FD B st = Ok (u, st') →
  ∃ ast, st' = setCxxAST ast st.
Proof.
  intros Hrun. unfold Elaborator.setBody in Hrun.
  inv_bind Hrun as c st1 E1. apply getCxx_inv in E1 as [-> _].
  injection Hrun as _ <-. eauto.
Qed.

Lemma popScope_inv st u st' :
  popScope st = Ok (u, st') →
  ∃ r s, CurrentScope st = Some r ∧ Scopes st !! r = Some s
         ∧ st' = setCurrentScope (Parent s) st.
Proof.
  intros Hrun. unfold popScope in Hrun.
  inv_bind Hrun as Cur st1 E1. injection E1 as <- <-.
  inv_bind Hrun as s st1 E1. apply derefScope_inv in E1 as (-> & r & Hc & Hs).
  injection Hrun as _ <-. eauto.
Qed.

Lemma leaveScope_inv S st u st' :
  leaveScope S st = Ok (u, st') →
  ∃ r s, CurrentScope st = Some r ∧ Scopes st !! r = Some s
         ∧ st' = setCurrentScope (Parent s) st.
Proof.
  intros Hrun. unfold leaveScope in Hrun.
  inv_bind Hrun as Cur st1 E1. injection E1 as <- <-.
  inv_bind Hrun as s st1 E1. apply derefScope_inv in E1 as (-> & r & Hc & Hs).
  destruct (Nat.eqb _ _); [|discriminate].
  apply popScope_inv in Hrun as (r' & s' & Hc' & Hs' & ->).
  rewrite Hc in Hc'. injection Hc' as <-. rewrite Hs in Hs'.
  injection Hs' as <-. eauto.
Qed.

(** X23. A function definition is elaborated between the declaration and
    the scope that were current.  When the parameter scope saved on the
    function declarator was entered from the scope that is current, and
    the host's block elaboration is balanced, a successful
    [elaborateFunctionDef] leaves the stack of declarations and the current
    scope as they were: the declaration and the two scopes that it puts on
    for the body are taken off again. *)
Theorem elaborateFunctionDef_scopes H D st st' d i c p ps rest s :
  BalancedHost H →
  Decls st !! D = Some d →
  Decl d = DK_Identifier i :: DK_Function c p (Some ps) :: rest →
  Scopes st !! ps = Some s →
  Parent s = CurrentScope st →
  Elaborator.elaborateFunctionDef H D st = Ok (tt, st') →
  DeclStack st' = DeclStack st ∧ CurrentScope st' = CurrentScope st.
Proof.
  intros [Hblock Hredef] Hd HD Hs Hparent Hrun.
  unfold Elaborator.elaborateFunctionDef in Hrun.
  inv_bind Hrun as d0 st0 E0. apply getDecl_inv in E0 as [-> Hd0].
  rewrite Hd in Hd0. injection Hd0 as <-.
  inv_bind Hrun as FD st0 E0. inv_read E0.
  destruct (Init d) as [Init_|]; [|injection Hrun as <-; auto].
  inv_bind Hrun as Redefined st1 E1.
  apply Hredef in E1 as [(Hc1 & Hk1 & Hs1) Hd1].
  destruct Redefined; [injection Hrun as <-; auto|].
  inv_bind Hrun as u2 st2 E2. injection E2 as _ <-.
  inv_bind Hrun as Fn st3 E3.
  unfold Elaborator.getFunctionDeclaratorOf in E3.
  inv_bind E3 as d' st4 E4. apply getDecl_inv in E4 as [-> Hd'].
  cbn in Hd'. rewrite Hd1, Hd in Hd'. injection Hd' as <-.
  rewrite HD in E3. injection E3 as <- <-.
  inv_bind Hrun as u3 st3 E3. injection E3 as _ <-.
  inv_bind Hrun as u4 st4 E4. injection E4 as _ <-.
  inv_bind Hrun as Body st5 E5.
  apply Hblock in E5 as (Hc5 & Hk5 & Hs5). cbn in Hc5, Hk5.
  inv_bind Hrun as u6 st6 E6. apply setBody_inv in E6 as [ast ->].
  inv_bind Hrun as u7 st7 E7.
  apply leaveScope_inv in E7 as (r7 & s7 & Hc7 & Hs7 & ->).
  cbn in Hc7, Hs7. rewrite Hc5 in Hc7. injection Hc7 as <-.
  destruct (Hs5 (length (Scopes st1))
              (mkScope SK_Function (Some ps) Init_ ∅ ∅))
    as (s7' & Hs7' & HP7 & _).
  { cbn. apply list_lookup_snoc. reflexivity. }
  rewrite Hs7 in Hs7'. injection Hs7' as <-. cbn in HP7.
  inv_bind Hrun as u8 st8 E8.
  apply popScope_inv in E8 as (r8 & s8 & Hc8 & Hs8 & ->).
  cbn in Hc8, Hs8. rewrite HP7 in Hc8. injection Hc8 as <-.
  destruct (Hs1 ps s Hs) as (s1 & Hs1' & HP1 & _).
  destruct (Hs5 ps s1) as (s5 & Hs5' & HP5 & _).
  { cbn. apply lookup_app_l_Some, Hs1'. }
  rewrite Hs8 in Hs5'. injection Hs5' as <-.
  inv_bind Hrun as u9 st9 E9.
  unfold PopFunctionScopeInfo in E9. cbn in E9.
  destruct (FunctionScopes st5); [discriminate|]. injection E9 as _ <-.
  unfold popDecl in Hrun. cbn in Hrun. rewrite Hk5 in Hrun.
  injection Hrun as <-. cbn. split; [exact Hk1|]. congruence.
Qed.

Lemma sampleHost_balanced : BalancedHost SampleHost.host.
Proof.
  split; simpl.
  - intros S st a st' [= _ <-]. reflexivity.
  - intros D st a st' [= _ <-]. split; reflexivity.
Qed.

Lemma elaborateFunctionDef_scopes_witness :
  let st := Examples.typed Examples.three_file in
  let st' := Examples.after
               (Elaborator.elaborateFunctionDef SampleHost.host 2) st in
  DeclStack st' = DeclStack st ∧ CurrentScope st' = CurrentScope st.
Proof.
  intros st st'.
  eapply (elaborateFunctionDef_scopes SampleHost.host 2 st st' _ _ _ _ 1 _
            (mkScope SK_Parameter (Some 0) (Examples.call0 26 "f") ∅ ∅)
            sampleHost_balanced).
  - vm_compute. reflexivity.
  - reflexivity.
  - vm_compute. reflexivity.
  - vm_compute. reflexivity.
  - vm_compute. reflexivity.
Defined.

(** ** Host declarations of functions *)

(** X25. A successful [elaborateFunctionDecl] that returns a host
    declaration has run the bridge to a type [T] and created one host
    function, external, located at the syntax of the declaration, with its
    name and the type [T].  [CheckMain] is run on it only when it is the
    function [main] of the translation unit; then its parameters are set
    to those that [getFunctionParameters] returns, it is added at the end
    of the members of the current declaration context, it is recorded in
    the declaration, and one function scope is opened.  Nothing else is
    changed. *)
Theorem elaborateFunctionDecl_creates H D st FD st' :
  Elaborator.elaborateFunctionDecl H D st = Ok (Some FD, st') →
  ∃ O T st1 d st3 Ps c o d3,
    getCurrentCxxDeclContext st = Ok (O, st)
    ∧ elaborateTypeExpr H D st = Ok (IsType T, st1)
    ∧ Decls st1 !! D = Some d
    ∧ FD = length (CxxAST st1)
    ∧ (let st2 := setCxxAST (CxxAST st1 ++ [newFunction O d T]) st1 in
       if Elaborator.isMain (newFunction O d T) (CxxAST st2)
       then CheckMain H FD st2 = Ok (tt, st3)
       else st3 = st2)
    ∧ Elaborator.getFunctionParameters D st3 = Ok (Ps, st3)
    ∧ CxxAST st3 !! FD = Some c
    ∧ <[FD := withParams c Ps]> (CxxAST st3) !! O = Some o
    ∧ Decls st3 !! D = Some d3
    ∧ st' = setFunctionScopes (FunctionScopes st3 + 1)
              (setDecls (<[D := setCxx d3 (Some FD)]> (Decls st3))
                 (setCxxAST
                    (<[O := addMember o FD]>
                       (<[FD := withParams c Ps]> (CxxAST st3)))
                    st3)).
Proof.
  intros Hrun. unfold Elaborator.elaborateFunctionDecl in Hrun.
  inv_bind Hrun as O st0 E0.
  pose proof (read_eq _ _ _ _ getCurrentCxxDeclContext_read E0) as ->.
  inv_bind Hrun as TE st1 E1.
  inv_bind Hrun as d st2 E2. apply getDecl_inv in E2 as [-> Hd].
  destruct (isNull TE); [discriminate|].
  inv_bind Hrun as T st2 E2. apply getTypeSourceInfo_inv in E2 as [-> ->].
  inv_bind Hrun as FD' st2 E2. injection E2 as <- <-.
  inv_bind Hrun as fd st3 E3. apply getCxx_inv in E3 as [-> Hfd].
  cbn in Hfd. rewrite list_lookup_snoc in Hfd by reflexivity.
  injection Hfd as <-.
  inv_bind Hrun as sx st3 E3. injection E3 as <- <-.
  inv_bind Hrun as u st3 E3.
  inv_bind Hrun as Ps st4 E4.
  pose proof (read_eq _ _ _ _ (getFunctionParameters_read D) E4) as ->.
  inv_bind Hrun as u5 st5 E5. unfold Elaborator.setParams in E5.
  inv_bind E5 as c st6 E6. apply getCxx_inv in E6 as [-> Hc].
  injection E5 as _ <-.
  inv_bind Hrun as u6 st6 E6. unfold addToContext in E6.
  inv_bind E6 as o st7 E7. apply getCxx_inv in E7 as [-> Ho].
  injection E6 as _ <-.
  inv_bind Hrun as u7 st7 E7. apply setDeclCxx_inv in E7 as (d3 & Hd3 & ->).
  inv_bind Hrun as u8 st8 E8. injection E8 as _ <-.
  injection Hrun as <- <-.
  exists O, T, st1, d, st3, Ps, c, o, d3.
  split_and!; try done.
  - cbv zeta. fold (newFunction O d T) in E3 |- *.
    destruct (Elaborator.isMain _ _).
    + destruct u. exact E3.
    + injection E3 as _ <-. reflexivity.
  - cbn. rewrite Nat.add_1_r. reflexivity.
Qed.

Lemma elaborateFunctionDecl_creates_witness :
  let st := Examples.after
              (forEach (children Examples.three_file)
                 (Elaborator.identifyDecl SampleHost.host))
              (started Examples.three_file initialSema) in
  let st' := Examples.after
               (Elaborator.elaborateFunctionDecl SampleHost.host 2) st in
  ∃ O T st1 d st3 Ps c o d3,
    getCurrentCxxDeclContext st = Ok (O, st)
    ∧ elaborateTypeExpr SampleHost.host 2 st = Ok (IsType T, st1)
    ∧ Decls st1 !! 2 = Some d
    ∧ 1 = length (CxxAST st1)
    ∧ (let st2 := setCxxAST (CxxAST st1 ++ [newFunction O d T]) st1 in
       if Elaborator.isMain (newFunction O d T) (CxxAST st2)
       then CheckMain SampleHost.host 1 st2 = Ok (tt, st3)
       else st3 = st2)
    ∧ Elaborator.getFunctionParameters 2 st3 = Ok (Ps, st3)
    ∧ CxxAST st3 !! 1 = Some c
    ∧ <[1 := withParams c Ps]> (CxxAST st3) !! O = Some o
    ∧ Decls st3 !! 2 = Some d3
    ∧ st' = setFunctionScopes (FunctionScopes st3 + 1)
              (setDecls (<[2 := setCxx d3 (Some 1)]> (Decls st3))
                 (setCxxAST
                    (<[O := addMember o 1]>
                       (<[1 := withParams c Ps]> (CxxAST st3)))
                    st3)).
Proof.
  intros st st'.
  apply (elaborateFunctionDecl_creates SampleHost.host 2 st 1 st').
  vm_compute. reflexivity.
Defined.

(** ** The identification pass *)

Lemma identifyPass_keeps_syntax H cs : ∀ st st',
  forEach cs (Elaborator.identifyDecl H) st = Ok (tt, st') →
  ∀ D d, Decls st !! D = Some d →
         ∃ d', Decls st' !! D = Some d' ∧ Op d' = Op d.
Proof.
  induction cs as [|S cs IH]; intros st st' Hrun D d Hd.
  - injection Hrun as <-. eauto.
  - simpl in Hrun. apply bind_inv in Hrun as ([] & st1 & E1 & Hrun).
    destruct (identifyDecl_frame_keeps _ _ _ _ E1 D d Hd) as (d1 & Hd1 & HO1).
    destruct (IH _ _ Hrun D d1 Hd1) as (d2 & Hd2 & HO2).
    exists d2. split; [exact Hd2|congruence].
Qed.

(** X26. The identification pass creates the declarations in the order of
    the nodes: after a successful pass over the nodes [cs], the
    declarations that existed are still there with their syntax, and the
    new declarations, added after them, are the declarations of a
    subsequence [news] of [cs], in this order. *)
Theorem identifyPass_order H cs : ∀ st st',
  forEach cs (Elaborator.identifyDecl H) st = Ok (tt, st') →
  ∃ news,
    news `sublist_of` cs
    ∧ length (Decls st') = length (Decls st) + length news
    ∧ (∀ i S, news !! i = Some S →
         ∃ d, Decls st' !! (length (Decls st) + i) = Some d ∧ Op d = S)
    ∧ (∀ D d, Decls st !! D = Some d →
         ∃ d', Decls st' !! D = Some d' ∧ Op d' = Op d).
Proof.
  induction cs as [|S cs IH]; intros st st' Hrun.
  - injection Hrun as <-. exists []. split_and!; [done|simpl; lia| |eauto].
    intros i S Hi. discriminate Hi.
  - pose proof (identifyPass_keeps_syntax H _ _ _ Hrun) as Hkeep.
    simpl in Hrun. apply bind_inv in Hrun as ([] & st1 & E1 & Hrun).
    destruct (IH _ _ Hrun) as (news & Hsub & Hlen & Hnew & _).
    pose proof (identifyPass_keeps_syntax H _ _ _ Hrun) as Hkeep1.
    apply identifyDecl_inv in E1
      as [->|(sc & s & Decl_ & Init_ & OpEq & Dcl & ds & F & _ & _ & _ & _
              & _ & Hds & ->)].
    + exists news. split_and!; [apply sublist_cons, Hsub|done..].
    + assert (Hds' : length ds = length (Decls st)).
      { destruct Hds as [[-> _]|(Old & o & _ & -> & _)];
          [reflexivity|apply length_insert]. }
      cbn in Hlen, Hnew. rewrite length_app, Hds' in Hlen, Hnew.
      simpl in Hlen, Hnew.
      exists (S :: news). split_and!.
      * apply sublist_skip, Hsub.
      * simpl. lia.
      * intros [|i] S' Hi.
        -- injection Hi as <-. rewrite Nat.add_0_r.
           destruct (Hkeep1 (length (Decls st))
                       (identified st S Dcl Init_ F F))
             as (d' & Hd' & HO').
           { cbn. apply list_lookup_snoc. done. }
           exists d'. split; [exact Hd'|exact HO'].
        -- destruct (Hnew i S' Hi) as (d' & Hd' & HO').
           exists d'. split; [|exact HO'].
           replace (length (Decls st) + Datatypes.S i)
             with (length (Decls st) + 1 + i) by lia.
           exact Hd'.
      * exact Hkeep.
Qed.

Lemma identifyPass_order_witness :
  let cs := children Examples.three_file in
  let st := started Examples.three_file initialSema in
  let st' := Examples.after
               (forEach cs (Elaborator.identifyDecl SampleHost.host)) st in
  ∃ news,
    news `sublist_of` cs
    ∧ length (Decls st') = length (Decls st) + length news
    ∧ (∀ i S, news !! i = Some S →
         ∃ d, Decls st' !! (length (Decls st) + i) = Some d ∧ Op d = S)
    ∧ (∀ D d, Decls st !! D = Some d →
         ∃ d', Decls st' !! D = Some d' ∧ Op d' = Op d).
Proof.
  intros cs st st'.
  apply (identifyPass_order SampleHost.host cs st st').
  vm_compute. reflexivity.
Defined.
